(** * Slack-prediction core of [python/PREDICTION-MODULE/prediction.py]

    A shallow embedding of the feature pipeline, the endpoint alignment and
    the route-slack correction of the prediction service, with the properties
    of its specification stated and settled against the code.

    Numbers.  Python floats are read as real numbers ([R]): rounding,
    overflow and the infinities are idealised away, a missing value (NaN) is
    [None] in a cell.  [np.mean], [np.std], [np.log] and [np.tanh] are the
    mathematical functions.  The cells of an integer column are read as real
    numbers too: the wrap-around of [int64] in [a ** 2] and [a * b] is
    idealised away.

    Libraries.  pandas and numpy are not part of the repository.  Their
    operations are embedded by what they do on the frames the code builds;
    where the rows kept by the code depend on how [sort_values] orders equal
    keys, [NumpySort] follows numpy's [npy_aquicksort].

    Shadowing.  The module defines several functions twice
    ([normalize_endpoint], [detect_feature_columns], [create_dynamic_features],
    [recreate_trained_features], [apply_training_data_bounds],
    [calculate_synthetic_route_slack]).  Python binds the name to the last
    definition executed, and every call happens after the module is loaded,
    so the served behaviour is the one of the later definition; that is the
    one embedded under the source's name. *)

From Stdlib Require Import Reals Lra Lia List String Ascii Bool Arith ZArith.
From Stdlib Require Import Permutation Sorted.
From Stdlib Require OrderedTypeEx.
Import ListNotations.

Local Open Scope R_scope.

(** ** Loops over [range(n)] with indexed reads that may raise *)

Module PyLoop.

(** [xs[i]] on a list or array: [None] stands for [IndexError]. *)
Definition item {A : Type} (xs : list A) (i : nat) : option A := nth_error xs i.

Fixpoint collect {A : Type} (body : nat -> option A) (idx : list nat)
  : option (list A) :=
  match idx with
  | [] => Some []
  | i :: rest =>
      match body i with
      | None => None
      | Some v =>
          match collect body rest with
          | None => None
          | Some vs => Some (v :: vs)
          end
      end
  end.

(** [for i in range(n): out.append(body(i))]. *)
Definition for_range {A : Type} (n : nat) (body : nat -> option A)
  : option (list A) :=
  collect body (seq 0 n).

End PyLoop.

(** ** The Ensemble Corrector *)

Module Corrector.

Import PyLoop.

(** *** numpy reductions *)

Definition np_sum (xs : list R) : R := fold_right Rplus 0 xs.

Definition np_mean (xs : list R) : R := np_sum xs / INR (List.length xs).

(** [np.std]: population standard deviation, [sqrt(mean(abs(x - mean)**2))]. *)
Definition np_std (xs : list R) : R :=
  sqrt (np_mean (map (fun x => Rsqr (Rabs (x - np_mean xs))) xs)).

(** *** [calculate_realistic_route_slack] *)

(** The four timing-pressure tiers: [(weight_to_worse, optimization)]. *)
Definition realistic_tier (min_slack : R) : R * R :=
  if Rgt_dec (Rabs min_slack) 1.0 then (0.95, 0.005)
  else if Rgt_dec (Rabs min_slack) 0.5 then (0.92, 0.01)
  else if Rgt_dec (Rabs min_slack) 0.2 then (0.88, 0.02)
  else (0.85, 0.025).

Definition realistic_base_route (place_slack cts_slack : R) : R :=
  let min_slack := Rmin place_slack cts_slack in
  let avg_slack := (place_slack + cts_slack) / 2 in
  let weight_to_worse := fst (realistic_tier min_slack) in
  min_slack * weight_to_worse + avg_slack * (1 - weight_to_worse).

Definition calculate_realistic_route_slack (place_slack cts_slack : R) : R :=
  let min_slack := Rmin place_slack cts_slack in
  let max_slack := Rmax place_slack cts_slack in
  let optimization := snd (realistic_tier min_slack) in
  let base_route := realistic_base_route place_slack cts_slack in
  let slack_diff := Rabs (place_slack - cts_slack) in
  let optimization_factor := Rmin (slack_diff * 0.1) optimization in
  let route_slack := base_route + optimization_factor in
  let upper_bound := max_slack + 0.02 in
  let lower_bound := min_slack - 0.03 in
  let route_slack := Rmax route_slack lower_bound in
  let route_slack := Rmin route_slack upper_bound in
  route_slack.

(** *** [improve_route_predictions] *)

Definition critical_path_weight (place_slack cts_slack : R) : R :=
  0.88 + Rmin (Rabs (place_slack - cts_slack) * 0.7) 0.07.

Definition optimization_potential (min_input_slack : R) : R :=
  if Rgt_dec (Rabs min_input_slack) 0.8 then 0.005
  else if Rgt_dec (Rabs min_input_slack) 0.4 then 0.012
  else if Rgt_dec (Rabs min_input_slack) 0.1 then 0.025
  else 0.035.

Definition correction_weight (relative_error : R) : R :=
  if Rlt_dec relative_error 0.01 then 0.05
  else if Rlt_dec relative_error 0.03 then 0.15
  else if Rlt_dec relative_error 0.06 then 0.35
  else if Rlt_dec relative_error 0.12 then 0.60
  else if Rlt_dec relative_error 0.25 then 0.80
  else 0.95.

(** The soft bounds: 10% of an overshoot or undershoot is kept. *)
Definition soft_bound (corrected lower_bound upper_bound : R) : R :=
  if Rgt_dec corrected upper_bound
  then upper_bound + (corrected - upper_bound) * 0.1
  else if Rlt_dec corrected lower_bound
       then lower_bound - (lower_bound - corrected) * 0.1
       else corrected.

(** One iteration of the loop; the four statistics are computed once,
    before the loop, over the whole input arrays. *)
Definition improve_row (place_mean cts_mean place_std cts_std : R)
    (raw_pred place_slack cts_slack : R) : R :=
  let min_input_slack := Rmin place_slack cts_slack in
  let max_input_slack := Rmax place_slack cts_slack in
  let avg_input_slack := (place_slack + cts_slack) / 2 in
  let slack_difference := Rabs (place_slack - cts_slack) in
  let base_route_slack :=
    min_input_slack * critical_path_weight place_slack cts_slack
    + avg_input_slack * (1 - critical_path_weight place_slack cts_slack) in
  let optimization_factor :=
    optimization_potential min_input_slack
    * (slack_difference / (Rabs avg_input_slack + 0.1)) in
  let optimization_factor := Rmin optimization_factor 0.04 in
  let place_z_score := (place_slack - place_mean) / (place_std + 1e-8) in
  let cts_z_score := (cts_slack - cts_mean) / (cts_std + 1e-8) in
  let correlation_factor := 0.003 * (place_z_score + cts_z_score) / 2 in
  let expected_route_slack :=
    base_route_slack + optimization_factor + correlation_factor in
  let prediction_error := Rabs (raw_pred - expected_route_slack) in
  let relative_error := prediction_error / (Rabs expected_route_slack + 1e-8) in
  let w := correction_weight relative_error in
  let corrected := raw_pred * (1 - w) + expected_route_slack * w in
  let improvement_margin := 0.008 + Rmin (slack_difference * 0.05) 0.025 in
  let upper_bound := max_input_slack + improvement_margin in
  let degradation_margin := 0.015 + Rmin (Rabs min_input_slack * 0.08) 0.035 in
  let lower_bound := min_input_slack - degradation_margin in
  let corrected := soft_bound corrected lower_bound upper_bound in
  let corrected := Rmax corrected (min_input_slack - 0.1) in
  let corrected := Rmin corrected (max_input_slack + 0.05) in
  corrected.

Definition improve_route_predictions (raw_predictions place_slacks cts_slacks : list R)
  : option (list R) :=
  let place_mean := np_mean place_slacks in
  let cts_mean := np_mean cts_slacks in
  let place_std := np_std place_slacks in
  let cts_std := np_std cts_slacks in
  for_range (List.length raw_predictions) (fun i =>
    match item raw_predictions i, item place_slacks i, item cts_slacks i with
    | Some raw_pred, Some place_slack, Some cts_slack =>
        Some (improve_row place_mean cts_mean place_std cts_std
                raw_pred place_slack cts_slack)
    | _, _, _ => None
    end).

(** *** The statistical estimate (method 3 of [ensemble_route_predictions]) *)

Definition statistical_row (place_slack cts_slack : R) : R :=
  let min_slack := Rmin place_slack cts_slack in
  let max_slack := Rmax place_slack cts_slack in
  let slack_range := max_slack - min_slack in
  let stat_pred :=
    if Rgt_dec (Rabs min_slack) 0.5 then min_slack * 0.94 + max_slack * 0.06
    else if Rgt_dec (Rabs min_slack) 0.2 then min_slack * 0.90 + max_slack * 0.10
    else min_slack * 0.85 + max_slack * 0.15 in
  let optimization := Rmin (slack_range * 0.08) 0.03 in
  stat_pred + optimization.

(** *** The weight vector and the weighted sum *)

Definition ensemble_weights (pred_std : R) : list R :=
  if Rlt_dec pred_std 0.01 then [0.3; 0.3; 0.25; 0.15]
  else if Rlt_dec pred_std 0.03 then [0.25; 0.35; 0.30; 0.10]
  else if Rlt_dec pred_std 0.06 then [0.15; 0.25; 0.40; 0.20]
  else [0.10; 0.20; 0.55; 0.15].

Definition ensemble_row (raw_pred physics_pred synthetic_pred stat_pred : R) : R :=
  let predictions := [raw_pred; physics_pred; synthetic_pred; stat_pred] in
  let pred_std := np_std predictions in
  let weights := ensemble_weights pred_std in
  raw_pred * nth 0 weights 0
  + physics_pred * nth 1 weights 0
  + synthetic_pred * nth 2 weights 0
  + stat_pred * nth 3 weights 0.

(** *** Training statistics and [apply_training_data_bounds] *)

(** The dictionary stored on the trained route model; the bounds step reads
    the keys ['min'], ['max'], ['mean'] and ['std']. *)
Record TrainingStats : Type := mkStats {
  stat_min : R;
  stat_max : R;
  stat_mean : R;
  stat_std : R
}.

Definition final_lower (route_stats : TrainingStats) (place_slack cts_slack : R) : R :=
  let min_input := Rmin place_slack cts_slack in
  let training_margin := stat_std route_stats * 1.0 in
  let training_based_lower := stat_min route_stats - training_margin in
  let input_based_lower := min_input - Rabs min_input * 0.5 in
  Rmin input_based_lower training_based_lower.

Definition final_upper (route_stats : TrainingStats) (place_slack cts_slack : R) : R :=
  let max_input := Rmax place_slack cts_slack in
  let training_margin := stat_std route_stats * 1.0 in
  let training_based_upper := stat_max route_stats + training_margin in
  let input_based_upper := max_input + Rabs max_input * 0.2 in
  Rmax input_based_upper training_based_upper.

(** The prediction after [max(pred, final_lower)] and [min(., final_upper)]. *)
Definition clamped (route_stats : TrainingStats) (pred place_slack cts_slack : R) : R :=
  let bounded_pred := Rmax pred (final_lower route_stats place_slack cts_slack) in
  Rmin bounded_pred (final_upper route_stats place_slack cts_slack).

Definition bounds_row (route_stats : TrainingStats) (pred place_slack cts_slack : R) : R :=
  let min_input := Rmin place_slack cts_slack in
  let bounded_pred := clamped route_stats pred place_slack cts_slack in
  if Rgt_dec (Rabs (bounded_pred - min_input)) 2.0
  then calculate_realistic_route_slack place_slack cts_slack
  else bounded_pred.

(** [place_stats] and [cts_stats] are accepted and never read. *)
Definition apply_training_data_bounds (predictions place_slacks cts_slacks : list R)
    (route_stats place_stats cts_stats : TrainingStats) : option (list R) :=
  for_range (List.length predictions) (fun i =>
    match item predictions i, item place_slacks i, item cts_slacks i with
    | Some pred, Some place_slack, Some cts_slack =>
        Some (bounds_row route_stats pred place_slack cts_slack)
    | _, _, _ => None
    end).

(** *** [calculate_synthetic_route_slack] and [ensemble_route_predictions] *)

Section Ensemble.

(** [hash(f"{place_slack:.8f}_{cts_slack:.8f}")]: Python's string hash of the
    two formatted inputs, an integer fixed for the life of the process. *)
Variable timing_hash : R -> R -> Z.

(** [(critical_weight, flexibility_factor)] by timing pressure. *)
Definition synthetic_tier (timing_pressure : R) : R * R :=
  if Rgt_dec timing_pressure 1.0 then (0.95, 0.002)
  else if Rgt_dec timing_pressure 0.6 then (0.92, 0.005)
  else if Rgt_dec timing_pressure 0.3 then (0.88, 0.012)
  else if Rgt_dec timing_pressure 0.1 then (0.84, 0.022)
  else (0.80, 0.035).

Definition optimization_multiplier (slack_difference : R) : R :=
  if Rgt_dec slack_difference 0.2 then 1.4
  else if Rgt_dec slack_difference 0.1 then 1.2
  else if Rgt_dec slack_difference 0.05 then 1.0
  else 0.7.

Definition synthetic_improvement_margin (slack_difference : R) : R :=
  if Rgt_dec slack_difference 0.15 then 0.020
  else if Rgt_dec slack_difference 0.08 then 0.015
  else 0.008.

Definition synthetic_degradation_margin (timing_pressure : R) : R :=
  if Rgt_dec timing_pressure 0.5 then 0.035
  else if Rgt_dec timing_pressure 0.2 then 0.025
  else 0.015.

Definition calculate_synthetic_route_slack (place_slack cts_slack : R) : R :=
  let min_slack := Rmin place_slack cts_slack in
  let max_slack := Rmax place_slack cts_slack in
  let avg_slack := (place_slack + cts_slack) / 2 in
  let slack_difference := Rabs (place_slack - cts_slack) in
  let slack_magnitude := Rabs avg_slack in
  let timing_pressure := Rabs min_slack in
  let critical_weight := fst (synthetic_tier timing_pressure) in
  let flexibility_factor := snd (synthetic_tier timing_pressure) in
  let base_route_slack :=
    min_slack * critical_weight + avg_slack * (1 - critical_weight) in
  let optimization_base :=
    flexibility_factor * (slack_difference / (slack_magnitude + 0.05)) in
  let optimization_factor :=
    optimization_base * optimization_multiplier slack_difference in
  let optimization_factor := Rmin optimization_factor 0.045 in
  let timing_correlation := (place_slack * cts_slack) / (slack_magnitude + 1e-8) in
  let correlation_adjustment := 0.002 * tanh timing_correlation in
  let timing_signature :=
    Z.modulo (Z.abs (timing_hash place_slack cts_slack)) 10000 in
  let signature_factor := IZR timing_signature / 10000.0 in
  let signature_optimization :=
    optimization_factor * (0.6 + 0.4 * signature_factor) in
  let route_slack :=
    base_route_slack + signature_optimization + correlation_adjustment in
  let upper_bound := max_slack + synthetic_improvement_margin slack_difference in
  let lower_bound := min_slack - synthetic_degradation_margin timing_pressure in
  let route_slack :=
    if Rgt_dec route_slack upper_bound
    then upper_bound + (route_slack - upper_bound) * 0.15
    else if Rlt_dec route_slack lower_bound
         then lower_bound - (lower_bound - route_slack) * 0.15
         else route_slack in
  let absolute_upper := max_slack + 0.06 in
  let absolute_lower := min_slack - 0.08 in
  let route_slack := Rmax route_slack absolute_lower in
  let route_slack := Rmin route_slack absolute_upper in
  route_slack.

Definition ensemble_route_predictions (raw_predictions place_slacks cts_slacks : list R)
  : option (list R) :=
  match improve_route_predictions raw_predictions place_slacks cts_slacks with
  | None => None
  | Some physics_predictions =>
  match for_range (List.length place_slacks) (fun i =>
          match item place_slacks i, item cts_slacks i with
          | Some p, Some c => Some (calculate_synthetic_route_slack p c)
          | _, _ => None
          end) with
  | None => None
  | Some synthetic_predictions =>
  match for_range (List.length raw_predictions) (fun i =>
          match item place_slacks i, item cts_slacks i with
          | Some p, Some c => Some (statistical_row p c)
          | _, _ => None
          end) with
  | None => None
  | Some statistical_predictions =>
      for_range (List.length raw_predictions) (fun i =>
        match item raw_predictions i, item physics_predictions i,
              item synthetic_predictions i, item statistical_predictions i with
        | Some raw_pred, Some physics_pred, Some synthetic_pred, Some stat_pred =>
            Some (ensemble_row raw_pred physics_pred synthetic_pred stat_pred)
        | _, _, _, _ => None
        end)
  end end end.

End Ensemble.

(** *** The correction of the served [predict] operation *)

(** [np.min] and [np.max] of an array; they raise on an empty one. *)
Definition np_min (xs : list R) : option R :=
  match xs with
  | [] => None
  | x :: rest => Some (fold_left Rmin rest x)
  end.

Definition np_max (xs : list R) : option R :=
  match xs with
  | [] => None
  | x :: rest => Some (fold_left Rmax rest x)
  end.

(** The raw predictions lying more than 1.0 outside the range of the input
    slacks (widened by 0.1) are replaced by the realistic estimate. *)
Definition replace_garbage (raw_route_predictions slack_place slack_cts : list R)
  : option (list R) :=
  match np_min slack_place, np_min slack_cts, np_max slack_place, np_max slack_cts with
  | Some min_p, Some min_c, Some max_p, Some max_c =>
      let expected_min := Rmin min_p min_c - 0.1 in
      let expected_max := Rmax max_p max_c + 0.1 in
      for_range (List.length raw_route_predictions) (fun i =>
        match item raw_route_predictions i with
        | None => None
        | Some raw =>
            if orb (if Rlt_dec raw (expected_min - 1.0) then true else false)
                   (if Rgt_dec raw (expected_max + 1.0) then true else false)
            then match item slack_place i, item slack_cts i with
                 | Some place_slack, Some cts_slack =>
                     Some (calculate_realistic_route_slack place_slack cts_slack)
                 | _, _ => None
                 end
            else Some raw
        end)
  | _, _, _, _ => None
  end.

(** "Apply fast accuracy improvement instead of full ensemble", then the
    training bounds when the route model carries its training statistics
    ([hasattr(model_combined_to_route, '_training_route_stats')]). *)
Definition improve_and_bound (raw_route_predictions slack_place slack_cts : list R)
    (training_stats : option (TrainingStats * TrainingStats * TrainingStats))
  : option (list R) :=
  match improve_route_predictions raw_route_predictions slack_place slack_cts with
  | None => None
  | Some route_predictions =>
      match training_stats with
      | Some (route_stats, place_stats, cts_stats) =>
          apply_training_data_bounds route_predictions slack_place slack_cts
            route_stats place_stats cts_stats
      | None => Some route_predictions
      end
  end.

Definition predict_route_correction (raw_route_predictions slack_place slack_cts : list R)
    (training_stats : option (TrainingStats * TrainingStats * TrainingStats))
  : option (list R) :=
  match replace_garbage raw_route_predictions slack_place slack_cts with
  | None => None
  | Some cleaned =>
      improve_and_bound cleaned slack_place slack_cts training_stats
  end.

End Corrector.

(** ** Python string operations used on column and endpoint names

    Strings are byte strings; [lower] folds the ASCII letters only. *)

Module PyStr.

Local Open Scope string_scope.

Definition lower_ascii (c : ascii) : ascii :=
  let n := nat_of_ascii c in
  if andb (Nat.leb 65 n) (Nat.leb n 90) then ascii_of_nat (n + 32) else c.

(** [s.lower()] *)
Fixpoint lower (s : string) : string :=
  match s with
  | EmptyString => EmptyString
  | String c rest => String (lower_ascii c) (lower rest)
  end.

(** [sub in s] *)
Fixpoint contains (sub s : string) : bool :=
  if String.prefix sub s then true
  else match s with
       | EmptyString => false
       | String _ rest => contains sub rest
       end.

(** [s.endswith(suffix)] *)
Fixpoint endswith (suffix s : string) : bool :=
  if String.eqb suffix s then true
  else match s with
       | EmptyString => false
       | String _ rest => endswith suffix rest
       end.

(** [s.replace(old, '')] for a non-empty [old]: the occurrences are found
    left to right and do not overlap; [skip] counts the characters of a
    matched occurrence still to drop. *)
Fixpoint remove_from (old : string) (skip : nat) (s : string) : string :=
  match s with
  | EmptyString => EmptyString
  | String c rest =>
      match skip with
      | S k => remove_from old k rest
      | O =>
          if String.prefix old s
          then remove_from old (String.length old - 1) rest
          else String c (remove_from old 0 rest)
      end
  end.

Definition remove_all (old s : string) : string := remove_from old 0 s.

(** [s.split(sep)] for a one-character separator: never an empty list. *)
Fixpoint split (sep : ascii) (s : string) : list string :=
  match s with
  | EmptyString => [EmptyString]
  | String c rest =>
      if Ascii.eqb c sep then EmptyString :: split sep rest
      else match split sep rest with
           | [] => [String c EmptyString]
           | part :: parts => String c part :: parts
           end
  end.

(** No character of [s] is the separator. *)
Fixpoint free_of (sep : ascii) (s : string) : bool :=
  match s with
  | EmptyString => true
  | String c rest => andb (negb (Ascii.eqb c sep)) (free_of sep rest)
  end.

(** [sep.join(parts)] *)
Definition join (sep : string) (parts : list string) : string :=
  String.concat sep parts.

(** [x in xs] for a list of names *)
Definition mem (x : string) (xs : list string) : bool :=
  existsb (String.eqb x) xs.

Fixpoint has_duplicates (xs : list string) : bool :=
  match xs with
  | [] => false
  | x :: rest => orb (mem x rest) (has_duplicates rest)
  end.

End PyStr.

(** ** Data frames

    A frame is its row count (the length of the index) and its columns in
    order, each under a label; the labels of a fetched table are distinct.
    The Feature Engineer and the Feature Reconstructor work on frames whose
    cells are numbers or NaN ([cell]); the Schema Inspector also reads text
    cells ([value]). *)

Module Frame.

Import PyStr.

Inductive dtype : Type :=
  | float64 | int64 | float32 | int32 | int16 | int8 | object | other_dtype.

(** A float cell: [None] is NaN. *)
Definition cell : Type := option R.

(** A cell of a fetched column: a number, a missing value or a text. *)
Inductive value : Type :=
  | VNum (x : R)
  | VNaN
  | VText (s : string).

Record Series (C : Type) : Type := mkSeries {
  s_dtype : dtype;
  s_values : list C
}.
Arguments mkSeries {C} _ _.
Arguments s_dtype {C} _.
Arguments s_values {C} _.

Record DataFrame (C : Type) : Type := mkFrame {
  df_len : nat;
  df_columns : list (string * Series C)
}.
Arguments mkFrame {C} _ _.
Arguments df_len {C} _.
Arguments df_columns {C} _.

(** [df.columns] *)
Definition columns {C : Type} (df : DataFrame C) : list string :=
  map fst (df_columns df).

Fixpoint lookup {A : Type} (name : string) (cols : list (string * A)) : option A :=
  match cols with
  | [] => None
  | (k, v) :: rest => if String.eqb k name then Some v else lookup name rest
  end.

(** [frame[name] = v]: an existing column is replaced where it stands, a new
    one is appended. *)
Fixpoint assign {A : Type} (name : string) (v : A) (cols : list (string * A))
  : list (string * A) :=
  match cols with
  | [] => [(name, v)]
  | (k, w) :: rest =>
      if String.eqb k name then (k, v) :: rest else (k, w) :: assign name v rest
  end.

(** The engineered frames: values only, the dtypes are not read again. *)
Record Table : Type := mkTable {
  index_len : nat;
  cols : list (string * list cell)
}.

Definition get (t : Table) (name : string) : option (list cell) :=
  lookup name (cols t).

Definition set (t : Table) (name : string) (v : list cell) : Table :=
  mkTable (index_len t) (assign name v (cols t)).

(** [t[name] = x] for a scalar [x]: broadcast over the index. *)
Definition set_scalar (t : Table) (name : string) (x : R) : Table :=
  set t name (repeat (Some x) (index_len t)).

Definition labels (t : Table) : list string := map fst (cols t).

(** *** Element-wise arithmetic; NaN propagates *)

Definition lift2 (f : R -> R -> R) (a b : cell) : cell :=
  match a, b with
  | Some x, Some y => Some (f x y)
  | _, _ => None
  end.

Definition zip_with (f : cell -> cell -> cell) (xs ys : list cell) : list cell :=
  map (fun p => f (fst p) (snd p)) (combine xs ys).

(** [a / (abs(b) + 1e-8)] *)
Definition ratio (xs ys : list cell) : list cell :=
  zip_with (lift2 (fun x y => x / (Rabs y + 1e-8))) xs ys.

(** [a * b] *)
Definition interaction (xs ys : list cell) : list cell :=
  zip_with (lift2 Rmult) xs ys.

(** [a ** 2] *)
Definition squared (xs : list cell) : list cell :=
  map (fun a => match a with Some x => Some (x * x) | None => None end) xs.

Definition is_positive (a : cell) : bool :=
  match a with
  | Some x => if Rgt_dec x 0 then true else false
  | None => false
  end.

(** [positive_mask.sum() > 0] *)
Definition any_positive (xs : list cell) : bool := existsb is_positive xs.

(** A column of 0 with [np.log(x + 1e-8)] written where [x > 0]. *)
Definition log_column (xs : list cell) : list cell :=
  map (fun a => match a with
                | Some x => if Rgt_dec x 0 then Some (ln (x + 1e-8)) else Some 0
                | None => Some 0
                end) xs.

(** [frame[names].sum(axis=1)]: NaN cells are skipped; [None] when a label
    is absent ([KeyError]). *)
Fixpoint row_sum (t : Table) (names : list string) (acc : list R) : option (list R) :=
  match names with
  | [] => Some acc
  | name :: rest =>
      match get t name with
      | None => None
      | Some v =>
          row_sum t rest
            (map (fun p => fst p + match snd p with Some x => x | None => 0 end)
                 (combine acc v))
      end
  end.

Definition sum_axis1 (t : Table) (names : list string) : option (list cell) :=
  match row_sum t names (repeat 0 (index_len t)) with
  | Some acc => Some (map Some acc)
  | None => None
  end.

(** *** Cleanup: NaN filled with the column median *)

Fixpoint insert_sorted (x : R) (l : list R) : list R :=
  match l with
  | [] => [x]
  | y :: rest => if Rle_dec x y then x :: l else y :: insert_sorted x rest
  end.

Definition sort_values (l : list R) : list R := fold_right insert_sorted [] l.

Fixpoint present (xs : list cell) : list R :=
  match xs with
  | [] => []
  | Some x :: rest => x :: present rest
  | None :: rest => present rest
  end.

(** [Series.median()]: NaN skipped; NaN ([None]) when nothing is left. *)
Definition median (xs : list cell) : cell :=
  let sorted := sort_values (present xs) in
  let n := List.length sorted in
  if Nat.eqb n 0 then None
  else if Nat.odd n then nth_error sorted (n / 2)
  else lift2 (fun a b => (a + b) / 2)
         (nth_error sorted (n / 2 - 1)) (nth_error sorted (n / 2)).

Definition is_nan (a : cell) : bool :=
  match a with Some _ => false | None => true end.

Definition fill_median (xs : list cell) : list cell :=
  if existsb is_nan xs
  then let median_val := match median xs with Some m => m | None => 0 end in
       map (fun a => match a with Some x => Some x | None => Some median_val end) xs
  else xs.

(** A column of [n] zeros. *)
Definition zeros (n : nat) : list cell := repeat (Some 0%R) n.

(** [replace([inf, -inf], nan)] changes nothing on real-valued cells; the
    loop then fills every column that holds a NaN. *)
Definition clean (t : Table) : Table :=
  mkTable (index_len t) (map (fun kv => (fst kv, fill_median (snd kv))) (cols t)).

(** [df[names].copy()]: [None] when a label is absent ([KeyError]). *)
Fixpoint select (df : DataFrame cell) (names : list string)
  : option (list (string * list cell)) :=
  match names with
  | [] => Some []
  | name :: rest =>
      match lookup name (df_columns df), select df rest with
      | Some s, Some picked => Some ((name, s_values s) :: picked)
      | _, _ => None
      end
  end.

End Frame.

(** ** The Feature Engineer and the Feature Reconstructor *)

Module Features.

Import PyStr Frame.

Local Open Scope string_scope.

Inductive exn : Type := KeyError | ValueError.

Inductive result (A : Type) : Type :=
  | Ok (a : A)
  | Raise (e : exn).
Arguments Ok {A} _.
Arguments Raise {A} _.

(** [df[col].dtype in ['float64', 'int64', 'float32', 'int32']] *)
Definition numeric_dtype (d : dtype) : bool :=
  match d with
  | float64 | int64 | float32 | int32 => true
  | _ => false
  end.

Definition numeric_cols (df : DataFrame cell) : list string :=
  map fst (filter (fun kv => numeric_dtype (s_dtype (snd kv))) (df_columns df)).

(** [[col for col in base_columns if word in col.lower()]] *)
Definition columns_with (word : string) (base_columns : list string) : list string :=
  filter (fun col => contains word (lower col)) base_columns.

(** A column name that the reconstruction rules read back without
    ambiguity: it has no underscore and does not begin with "ratio" or
    "interaction". *)
Definition plain (col : string) : bool :=
  andb (free_of "_" col)
       (andb (negb (String.prefix "ratio" col))
             (negb (String.prefix "interaction" col))).

(** *** [create_dynamic_features] *)

(** The body of the [try] for one pair.  The two new labels are longer than
    either operand label, so the operands read for the interaction are the
    ones read for the ratio; a [KeyError] skips the pair. *)
Definition add_pair (col1 col2 : string) (engineered_df : Table) : Table :=
  match get engineered_df col1, get engineered_df col2 with
  | Some v1, Some v2 =>
      let engineered_df :=
        set engineered_df (col1 ++ "_" ++ col2 ++ "_ratio") (ratio v1 v2) in
      set engineered_df (col1 ++ "_" ++ col2 ++ "_interaction") (interaction v1 v2)
  | _, _ => engineered_df
  end.

(** [for i, col1 in enumerate(numeric_cols): for col2 in numeric_cols[i+1:]] *)
Fixpoint pair_features (base_columns numeric : list string) (engineered_df : Table)
  : Table :=
  match numeric with
  | [] => engineered_df
  | col1 :: rest =>
      pair_features base_columns rest
        (fold_left
           (fun e col2 =>
              if andb (mem col1 base_columns) (mem col2 base_columns)
              then add_pair col1 col2 e else e)
           rest engineered_df)
  end.

(** [combined_delays] and [combined_counts]: added when two or more base
    columns carry the word. *)
Definition add_combined (word label : string) (base_columns : list string)
    (engineered_df : Table) : Table :=
  let word_cols := columns_with word base_columns in
  if Nat.ltb 1 (List.length word_cols)
  then match sum_axis1 engineered_df word_cols with
       | Some v => set engineered_df label v
       | None => engineered_df
       end
  else engineered_df.

(** The square, and the log when some value is positive. *)
Definition add_statistical (numeric : list string) (engineered_df : Table)
    (col : string) : Table :=
  if mem col numeric
  then match get engineered_df col with
       | Some v =>
           let engineered_df := set engineered_df (col ++ "_squared") (squared v) in
           match get engineered_df col with
           | Some v' =>
               if any_positive v'
               then set engineered_df (col ++ "_log") (log_column v')
               else engineered_df
           | None => engineered_df
           end
       | None => engineered_df
       end
  else engineered_df.

Definition create_dynamic_features (df : DataFrame cell) (base_columns : list string)
  : result Table :=
  match select df base_columns with
  | None => Raise KeyError
  | Some picked =>
      (* a repeated label makes the NaN test of the cleanup loop ambiguous *)
      if has_duplicates base_columns then Raise ValueError
      else
        let engineered_df := mkTable (df_len df) picked in
        let numeric := numeric_cols df in
        let engineered_df := pair_features base_columns numeric engineered_df in
        let engineered_df :=
          add_combined "delay" "combined_delays" base_columns engineered_df in
        let engineered_df :=
          add_combined "count" "combined_counts" base_columns engineered_df in
        let engineered_df :=
          fold_left (add_statistical numeric) base_columns engineered_df in
        Ok (clean engineered_df)
  end.

(** *** [recreate_trained_features] *)

(** [for i in range(1, len(parts))] with its [break]: the first split point,
    from the left, whose two halves are both base columns. *)
Fixpoint find_split (base_columns parts : list string) (points : list nat)
  : option (string * string) :=
  match points with
  | [] => None
  | i :: rest =>
      let col1 := join "_" (firstn i parts) in
      let col2 := join "_" (skipn i parts) in
      if andb (mem col1 base_columns) (mem col2 base_columns)
      then Some (col1, col2)
      else find_split base_columns parts rest
  end.

(** The operands of a pair feature: the loop, then the [else] of the loop
    ("simple two-part split"). *)
Definition pair_operands (base_columns parts : list string) : option (string * string) :=
  match find_split base_columns parts (seq 1 (List.length parts - 1)) with
  | Some split_found => Some split_found
  | None =>
      let col1 := hd "" parts in
      let col2 := join "_" (tl parts) in
      if andb (mem col1 base_columns) (mem col2 base_columns)
      then Some (col1, col2) else None
  end.

(** A pair feature ([_ratio] or [_interaction]) with at least two parts:
    computed when operands are found, left unassigned otherwise; an
    exception inside the [try] fills the feature with 0.0. *)
Definition recreate_pair (op : list cell -> list cell -> list cell)
    (base_columns parts : list string) (feature_name : string)
    (engineered_df : Table) : Table :=
  match pair_operands base_columns parts with
  | Some (col1, col2) =>
      match get engineered_df col1, get engineered_df col2 with
      | Some v1, Some v2 => set engineered_df feature_name (op v1 v2)
      | _, _ => set_scalar engineered_df feature_name 0.0
      end
  | None => engineered_df
  end.

Definition recreate_combined (word : string) (base_columns : list string)
    (feature_name : string) (engineered_df : Table) : Table :=
  let word_cols := columns_with word base_columns in
  if Nat.ltb 1 (List.length word_cols)
  then match sum_axis1 engineered_df word_cols with
       | Some v => set engineered_df feature_name v
       | None => set_scalar engineered_df feature_name 0.0
       end
  else set_scalar engineered_df feature_name 0.0.

Definition recreate_unary (op : list cell -> list cell) (suffix : string)
    (base_columns : list string) (feature_name : string)
    (engineered_df : Table) : Table :=
  let base_col := remove_all suffix feature_name in
  if mem base_col base_columns
  then match get engineered_df base_col with
       | Some v => set engineered_df feature_name (op v)
       | None => set_scalar engineered_df feature_name 0.0
       end
  else set_scalar engineered_df feature_name 0.0.

(** One iteration of the loop over [expected_engineered]. *)
Definition recreate_feature (base_columns : list string) (engineered_df : Table)
    (feature_name : string) : Table :=
  if contains "_ratio" feature_name then
    let parts := split "_" (remove_all "_ratio" feature_name) in
    if Nat.leb 2 (List.length parts)
    then recreate_pair ratio base_columns parts feature_name engineered_df
    else set_scalar engineered_df feature_name 0.0
  else if contains "_interaction" feature_name then
    let parts := split "_" (remove_all "_interaction" feature_name) in
    if Nat.leb 2 (List.length parts)
    then recreate_pair interaction base_columns parts feature_name engineered_df
    else set_scalar engineered_df feature_name 0.0
  else if String.eqb feature_name "combined_delays" then
    recreate_combined "delay" base_columns feature_name engineered_df
  else if String.eqb feature_name "combined_counts" then
    recreate_combined "count" base_columns feature_name engineered_df
  else if endswith "_squared" feature_name then
    recreate_unary squared "_squared" base_columns feature_name engineered_df
  else if endswith "_log" feature_name then
    recreate_unary log_column "_log" base_columns feature_name engineered_df
  else set_scalar engineered_df feature_name 0.0.

(** The names on which an iteration ends at the fallback of the loop
    ("Could not recreate feature ..., filling with zeros"): no rule matches,
    or the rule that matches finds its name too short, its operand outside
    the base columns, or fewer than two columns to combine. *)
Definition gives_up (base_columns : list string) (feature_name : string) : bool :=
  if contains "_ratio" feature_name then
    negb (Nat.leb 2 (List.length (split "_" (remove_all "_ratio" feature_name))))
  else if contains "_interaction" feature_name then
    negb (Nat.leb 2 (List.length (split "_" (remove_all "_interaction" feature_name))))
  else if String.eqb feature_name "combined_delays" then
    negb (Nat.ltb 1 (List.length (columns_with "delay" base_columns)))
  else if String.eqb feature_name "combined_counts" then
    negb (Nat.ltb 1 (List.length (columns_with "count" base_columns)))
  else if endswith "_squared" feature_name then
    negb (mem (remove_all "_squared" feature_name) base_columns)
  else if endswith "_log" feature_name then
    negb (mem (remove_all "_log" feature_name) base_columns)
  else true.

(** [final_df[col] = ...] on a frame that starts as [pd.DataFrame()].  While
    the index is empty a scalar makes a column without rows, and the first
    non-empty series gives the frame its index: the columns made before get
    one NaN per row. *)
Definition final_assign (engineered_df final_df : Table) (col : string) : Table :=
  match get engineered_df col with
  | Some v =>
      let final_df :=
        if andb (Nat.eqb (index_len final_df) 0) (Nat.ltb 0 (List.length v))
        then mkTable (List.length v)
               (map (fun kv => (fst kv, repeat None (List.length v))) (cols final_df))
        else final_df in
      set final_df col v
  | None => set_scalar final_df col 0.0
  end.

Definition recreate_trained_features (df : DataFrame cell)
    (trained_feature_columns base_columns : list string) : result Table :=
  if negb (forallb (fun col => mem col (columns df)) base_columns)
  then Raise ValueError
  else
    match select df base_columns with
    | None => Raise KeyError
    | Some picked =>
        (* a repeated label makes the NaN test of the cleanup loop ambiguous *)
        if has_duplicates base_columns then Raise ValueError
        else
          let engineered_df := mkTable (df_len df) picked in
          let expected_engineered :=
            filter (fun col => negb (mem col base_columns)) trained_feature_columns in
          let engineered_df :=
            fold_left (recreate_feature base_columns) expected_engineered engineered_df in
          let engineered_df := clean engineered_df in
          Ok (fold_left (final_assign engineered_df) trained_feature_columns
                (mkTable 0 []))
    end.

(** *** Replaying the Feature Engineer by names

    The relations used to state when the reconstruction loop, run on the
    names of an engineered frame, rebuilds that frame. *)

(** [e] has the index of [e0] and its base columns, unchanged. *)
Definition same_base (base_columns : list string) (e0 e : Table) : Prop :=
  index_len e = index_len e0 /\
  forall c, mem c base_columns = true -> get e c = get e0 c.

(** The loop rebuilds the feature [name] as the column [v] on every frame
    that has the base columns of [e0]. *)
Definition rebuilds (base_columns : list string) (e0 : Table) (name : string)
    (v : list cell) : Prop :=
  mem name base_columns = false /\
  List.length v = index_len e0 /\
  forall e, same_base base_columns e0 e ->
            recreate_feature base_columns e name = set e name v.

(** [e] is what the loop builds from [e0] when given the engineered names of
    [e]; its labels are distinct and its columns have one cell per row. *)
Definition replayed (base_columns : list string) (e0 e : Table) : Prop :=
  same_base base_columns e0 e /\
  fold_left (recreate_feature base_columns)
    (filter (fun c => negb (mem c base_columns)) (labels e)) e0 = e /\
  NoDup (labels e) /\
  Forall (fun kv => List.length (snd kv) = index_len e0) (cols e).

End Features.

(** ** The Schema Inspector: [detect_feature_columns] *)

Module Inspector.

Import PyStr Frame.

Local Open Scope string_scope.

Section Detect.

(** [pd.to_numeric] on a text with [errors='coerce']: the number it reads,
    or NaN ([None]). *)
Variable parse_number : string -> cell.

Definition to_numeric (v : value) : cell :=
  match v with
  | VNum x => Some x
  | VNaN => None
  | VText s => parse_number s
  end.

(** [pd.to_numeric(df[col], errors='coerce').notna().sum()] *)
Definition numeric_count (s : Series value) : nat :=
  List.length (filter (fun v => negb (is_nan (to_numeric v))) (s_values s)).

(** The test made on one column: its dtype is one of the six numeric ones
    or [object], and [numeric_count > len(df) * 0.8]. *)
Definition passes (df : DataFrame value) (s : Series value) : bool :=
  match s_dtype s with
  | float64 | int64 | float32 | int32 | int16 | int8 | object =>
      if Rgt_dec (INR (numeric_count s)) (INR (df_len df) * 0.8) then true else false
  | other_dtype => false
  end.

(** [exclude_cols]: the target, when one is given (a non-empty name) and it
    is a column. *)
Definition excluded (df : DataFrame value) (target_col : option string)
    (col : string) : bool :=
  match target_col with
  | Some target =>
      andb (negb (String.eqb target ""))
           (andb (mem target (columns df)) (String.eqb col target))
  | None => false
  end.

Definition detect_feature_columns (df : DataFrame value) (target_col : option string)
  : list string :=
  filter
    (fun col =>
       andb (negb (excluded df target_col col))
            match lookup col (df_columns df) with
            | Some s => passes df s
            | None => false
            end)
    (columns df).

(** The rule in the words of the specification: the declared type is
    numeric, or numeric coercion succeeds for at least 80% of the non-missing
    entries. *)
Definition declared_numeric (d : dtype) : bool :=
  match d with
  | float64 | int64 | float32 | int32 | int16 | int8 => true
  | object | other_dtype => false
  end.

Definition non_missing_count (s : Series value) : nat :=
  List.length
    (filter (fun v => match v with VNaN => false | _ => true end) (s_values s)).

Definition spec_qualifies (s : Series value) : Prop :=
  declared_numeric (s_dtype s) = true \/
  INR (numeric_count s) >= 0.8 * INR (non_missing_count s).

End Detect.

End Inspector.

(** ** The Alignment Engine *)

Module Alignment.

Import PyStr.

Local Open Scope string_scope.

(** The definition in force (the second one of the module): the last two
    segments of a slash-delimited identifier; the identifier itself when it
    has no slash.  Endpoints are strings. *)
Definition normalize_endpoint (endpoint : string) : string :=
  let parts := split "/" endpoint in
  if Nat.leb 2 (List.length parts)
  then nth (List.length parts - 2) parts "" ++ "/" ++ nth (List.length parts - 1) parts ""
  else endpoint.

(** The first definition of the module, which the second one replaces. *)
Module Shadowed.

Definition is_space (c : ascii) : bool :=
  let n := nat_of_ascii c in
  orb (Nat.eqb n 32) (andb (Nat.leb 9 n) (Nat.leb n 13)).

Fixpoint lstrip (s : string) : string :=
  match s with
  | EmptyString => EmptyString
  | String c rest => if is_space c then lstrip rest else s
  end.

Fixpoint rstrip (s : string) : string :=
  match s with
  | EmptyString => EmptyString
  | String c rest =>
      match rstrip rest with
      | EmptyString => if is_space c then EmptyString else String c EmptyString
      | kept => String c kept
      end
  end.

(** [str(endpoint).strip().lower()] *)
Definition normalize_endpoint (endpoint : string) : string :=
  lower (rstrip (lstrip endpoint)).

End Shadowed.

Section Align.

(** A row of a fetched table, with its [endpoint] cell. *)
Context {Row : Type}.
Variable endpoint : Row -> string.

(** The cell [normalized_endpoint] added to every row. *)
Definition key (r : Row) : string := normalize_endpoint (endpoint r).

Definition keys (t : list Row) : list string := map key t.

(** [set(a).intersection(b)] and [set(a).intersection(b, c)], as lists: only
    membership is read. *)
Definition common2 (a b : list Row) : list string :=
  filter (fun k => mem k (keys b)) (keys a).

Definition common3 (a b c : list Row) : list string :=
  filter (fun k => andb (mem k (keys b)) (mem k (keys c))) (keys a).

(** [t[t['normalized_endpoint'].isin(common_endpoints)]] *)
Definition isin (common_endpoints : list string) (t : list Row) : list Row :=
  filter (fun r => mem (key r) common_endpoints) t.

(** [drop_duplicates(subset=['normalized_endpoint'], keep='first')] *)
Fixpoint drop_from (seen : list string) (t : list Row) : list Row :=
  match t with
  | [] => []
  | r :: rest =>
      if mem (key r) seen then drop_from seen rest
      else r :: drop_from (key r :: seen) rest
  end.

Definition drop_duplicates (t : list Row) : list Row := drop_from [] t.

(** The first row of a table under a normalized endpoint. *)
Definition first_row (k : string) (t : list Row) : option Row :=
  find (fun r => String.eqb (key r) k) t.

(** [predict]: filter, then deduplicate. *)
Definition predict_filtered (common_endpoints : list string) (t : list Row) : list Row :=
  drop_duplicates (isin common_endpoints t).

Definition predict_align (place_data cts_data : list Row) : list Row * list Row :=
  let common_endpoints := common2 place_data cts_data in
  (predict_filtered common_endpoints place_data,
   predict_filtered common_endpoints cts_data).

(** [sort_values(by='normalized_endpoint')], with the default [kind]
    ('quicksort'), which pandas does not promise to be stable; the sort that
    is run is [NumpySort.sort_values]. *)
Variable sort_values : list Row -> list Row.

(** [train_model]: filter, sort by normalized endpoint, then deduplicate. *)
Definition train_filtered (common_endpoints : list string) (t : list Row) : list Row :=
  drop_duplicates (sort_values (isin common_endpoints t)).

Definition train_align (place_data cts_data route_data : list Row)
  : list Row * list Row * list Row :=
  let common_endpoints := common3 place_data cts_data route_data in
  (train_filtered common_endpoints place_data,
   train_filtered common_endpoints cts_data,
   train_filtered common_endpoints route_data).

End Align.

(** What pandas promises of [sort_values]: the rows are rearranged, and the
    normalized endpoints come out in non-decreasing order. *)
Definition sorts_by_key {Row : Type} (endpoint : Row -> string)
    (sort_values : list Row -> list Row) : Prop :=
  forall t,
    Permutation (sort_values t) t /\
    Sorted (fun r1 r2 => String.leb (key endpoint r1) (key endpoint r2) = true)
           (sort_values t).

(** A sort is stable when the rows of one key keep their relative order. *)
Definition stable {Row : Type} (endpoint : Row -> string)
    (sort_values : list Row -> list Row) : Prop :=
  forall t k,
    filter (fun r => String.eqb (key endpoint r) k) (sort_values t)
    = filter (fun r => String.eqb (key endpoint r) k) t.

(** A sort by insertion: a row is put before the rows of its key. *)
Fixpoint insert_before {Row : Type} (endpoint : Row -> string) (r : Row)
    (t : list Row) : list Row :=
  match t with
  | [] => [r]
  | r' :: rest =>
      if String.leb (key endpoint r) (key endpoint r') then r :: t
      else r' :: insert_before endpoint r rest
  end.

(** Rows taken from the last to the first, each put before its equals: the
    rows of one key keep their order. *)
Definition stable_sort {Row : Type} (endpoint : Row -> string) (t : list Row)
  : list Row :=
  fold_right (insert_before endpoint) [] t.

End Alignment.

(** ** The Alignment Engine with its checks *)

Module AlignmentChecks.

Import PyStr Alignment.

Local Open Scope string_scope.

(** The three ways the alignment gives up: "No common endpoints found ..."
    (both operations), "No matching endpoints found ... after merge"
    ([predict]) and "Data size mismatch after filtering and deduplication"
    ([train_model]). *)
Inductive align_error : Type :=
  | NoCommonEndpoints
  | NoMatchAfterMerge
  | SizeMismatch.

Section Checked.

Context {Row : Type}.
Variable endpoint : Row -> string.

(** [left.merge(right, on='normalized_endpoint', how='inner')]: the rows of
    [left] in their order, each paired with the rows of [right] that carry
    its normalized endpoint. *)
Definition merge_inner (left right : list Row) : list (Row * Row) :=
  flat_map
    (fun l =>
       map (pair l)
         (filter (fun r => String.eqb (key endpoint r) (key endpoint l)) right))
    left.

(** The alignment of [predict], from the two fetched tables to
    [merged_data]. *)
Definition predict_merged (place_data cts_data : list Row)
  : align_error + list (Row * Row) :=
  let common_endpoints := common2 endpoint place_data cts_data in
  if Nat.eqb (List.length common_endpoints) 0 then inl NoCommonEndpoints
  else
    let place_filtered := predict_filtered endpoint common_endpoints place_data in
    let cts_filtered := predict_filtered endpoint common_endpoints cts_data in
    let merged_data := merge_inner place_filtered cts_filtered in
    if Nat.eqb (List.length merged_data) 0 then inl NoMatchAfterMerge
    else inr merged_data.

Variable sort_values : list Row -> list Row.

(** The alignment of [train_model], from the three fetched tables to the
    three tables whose rows are then paired by position. *)
Definition train_aligned (place_data cts_data route_data : list Row)
  : align_error + (list Row * list Row * list Row) :=
  let common_endpoints := common3 endpoint place_data cts_data route_data in
  if Nat.eqb (List.length common_endpoints) 0 then inl NoCommonEndpoints
  else
    let place_data := train_filtered endpoint sort_values common_endpoints place_data in
    let cts_data := train_filtered endpoint sort_values common_endpoints cts_data in
    let route_data := train_filtered endpoint sort_values common_endpoints route_data in
    if orb (negb (Nat.eqb (List.length place_data) (List.length cts_data)))
           (negb (Nat.eqb (List.length cts_data) (List.length route_data)))
    then inl SizeMismatch
    else inr (place_data, cts_data, route_data).

End Checked.

End AlignmentChecks.

(** ** The Schema Inspector: target detection and table validation *)

Module Schema.

Import PyStr Frame.

Local Open Scope string_scope.

Definition MINIMUM_REQUIRED_COLUMNS : list string := ["endpoint"].

(** [df[col].dtype in ['float64', 'int64', 'float32', 'int32']] *)
Definition is_numeric_column {C : Type} (df : DataFrame C) (col : string) : bool :=
  match lookup col (df_columns df) with
  | Some s => Features.numeric_dtype (s_dtype s)
  | None => false
  end.

Definition target_keywords : list string :=
  ["slack"; "target"; "output"; "result"; "prediction"].

(** [any(keyword in col_lower for keyword in [...])] *)
Definition names_a_target (col : string) : bool :=
  existsb (fun keyword => contains keyword (lower col)) target_keywords.

(** The definition in force (the second one of the module): the first
    numeric column whose name carries a keyword, else the last numeric
    column, else [None]. *)
Definition get_target_column {C : Type} (df : DataFrame C) : option string :=
  let potential_targets :=
    filter (fun col => andb (names_a_target col) (is_numeric_column df col))
           (columns df) in
  match potential_targets with
  | target :: _ => Some target
  | [] =>
      let numeric_cols := filter (is_numeric_column df) (columns df) in
      match numeric_cols with
      | [] => None
      | _ :: _ => Some (last numeric_cols "")
      end
  end.

(** [data] is [None] when no table was fetched.  The result is the pair
    [(is_valid, missing_columns)]. *)
Definition validate_table_for_slack_prediction {C : Type}
    (data : option (DataFrame C)) : bool * list string :=
  match data with
  | None => (false, ["No data available"])
  | Some data =>
      if Nat.eqb (df_len data) 0 then (false, ["No data available"])
      else
        let missing_columns :=
          filter (fun col => negb (mem col (columns data))) MINIMUM_REQUIRED_COLUMNS in
        let numeric_columns := filter (is_numeric_column data) (columns data) in
        let missing_columns :=
          match numeric_columns with
          | [] => (missing_columns
                   ++ ["at least one numeric column for target prediction"])%list
          | _ :: _ => missing_columns
          end in
        (Nat.eqb (List.length missing_columns) 0, missing_columns)
  end.

(** [if target_col: exclude_cols.append(target_col)]: an empty name is not
    excluded. *)
Definition exclude_cols {C : Type} (df : DataFrame C) : list string :=
  match get_target_column df with
  | Some target_col =>
      if String.eqb target_col "" then ["endpoint"] else ["endpoint"; target_col]
  | None => ["endpoint"]
  end.

(** The definition in force: the base columns stored by [train_model] and
    read by [predict]. *)
Definition get_available_feature_columns {C : Type} (df : DataFrame C)
  : list string :=
  filter (fun col => andb (negb (mem col (exclude_cols df))) (is_numeric_column df col))
         (columns df).

(** [df[name] = values] for a column of text, as the alignment does with
    [normalized_endpoint]. *)
Definition with_column {C : Type} (df : DataFrame C) (name : string) (s : Series C)
  : DataFrame C :=
  mkFrame (df_len df) (assign name s (df_columns df)).

End Schema.

(** ** The shape of an engineered frame *)

Module FrameShape.

Import Frame.

(** The invariant of the engineering steps on a frame of [n] rows whose
    first labels are [base]: every column has [n] cells, the labels are
    distinct, and the base labels stay in front. *)
Definition shaped (n : nat) (base : list string) (e : Table) : Prop :=
  index_len e = n /\
  Forall (fun kv => List.length (snd kv) = n) (cols e) /\
  NoDup (labels e) /\
  exists engineered, labels e = (base ++ engineered)%list.

End FrameShape.

(** ** Column names cleaned for SQL *)

Module SqlNames.

Local Open Scope string_scope.

Section Names.

(** [c.isalnum()] on a character. *)
Variable isalnum : ascii -> bool.

(** [s.replace(old, new)] for one-character [old] and [new]. *)
Fixpoint replace_char (old new : ascii) (s : string) : string :=
  match s with
  | EmptyString => EmptyString
  | String c rest =>
      String (if Ascii.eqb c old then new else c) (replace_char old new rest)
  end.

(** [''.join(c for c in s if keep(c))] *)
Fixpoint join_if (keep : ascii -> bool) (s : string) : string :=
  match s with
  | EmptyString => EmptyString
  | String c rest =>
      if keep c then String c (join_if keep rest) else join_if keep rest
  end.

(** The two lines that [clean_dataframe_for_sql], [generate_dynamic_table_sql]
    and [generate_dynamic_insert_sql] each apply to a column name. *)
Definition clean_col (col : string) : string :=
  let clean_col :=
    replace_char "." "_" (replace_char "-" "_" (replace_char " " "_" col)) in
  join_if (fun c => orb (isalnum c) (Ascii.eqb c "_")) clean_col.

(** [column_mapping] of [clean_dataframe_for_sql], as its items in order. *)
Definition column_mapping (columns : list string) : list (string * string) :=
  map (fun col => (col, clean_col col)) columns.

(** Every character of [s] passes [keep]. *)
Fixpoint all_chars (keep : ascii -> bool) (s : string) : bool :=
  match s with
  | EmptyString => true
  | String c rest => andb (keep c) (all_chars keep rest)
  end.

End Names.

End SqlNames.

(** ** The chat command [train] *)

Module Chat.

Local Open Scope string_scope.

(** The dictionary returned by [handle_train_command], without its message
    text: an error, or the three table names of a training request. *)
Inductive train_command : Type :=
  | CommandError
  | Training (place_table cts_table route_table : string).

Section Command.

(** [c.isspace()] on a character. *)
Variable isspace : ascii -> bool.

(** [message.split()]: the maximal runs of characters that are not
    whitespace, in order; never an empty string. *)
Fixpoint split_whitespace (message : string) : list string :=
  match message with
  | EmptyString => []
  | String c rest =>
      if isspace c then split_whitespace rest
      else
        match rest with
        | EmptyString => [String c EmptyString]
        | String c' _ =>
            if isspace c' then String c EmptyString :: split_whitespace rest
            else match split_whitespace rest with
                 | word :: words => String c word :: words
                 | [] => [String c EmptyString]
                 end
        end
  end.

Definition handle_train_command (message : string) : train_command :=
  let parts := split_whitespace message in
  if Nat.ltb (List.length parts) 3 then CommandError
  else
    let place_table := nth 1 parts "" in
    let cts_table := nth 2 parts "" in
    let route_table :=
      if Nat.ltb 3 (List.length parts) then Some (nth 3 parts "") else None in
    (* [if not route_table]: [None] or an empty name *)
    let route_table :=
      match route_table with
      | Some name => if String.eqb name "" then cts_table else name
      | None => cts_table
      end in
    Training place_table cts_table route_table.

(** A word of a command: not empty, no whitespace in it. *)
Fixpoint no_space (s : string) : bool :=
  match s with
  | EmptyString => true
  | String c rest => andb (negb (isspace c)) (no_space rest)
  end.

Definition is_word (s : string) : bool :=
  andb (negb (String.eqb s "")) (no_space s).

End Command.

End Chat.

(** ** The statistics stored with the trained route model *)

Module TrainingStatistics.

Import Corrector.

(** The keys ['min'], ['max'], ['mean'] and ['std'] of the dictionaries that
    [train_model] stores on the model; [None] when [np.min] raises on an
    empty array. *)
Definition training_stats (values : list R) : option TrainingStats :=
  match np_min values, np_max values with
  | Some lo, Some hi => Some (mkStats lo hi (np_mean values) (np_std values))
  | _, _ => None
  end.

End TrainingStatistics.

(** ** The columns of the merged table *)

Module MergedColumns.

Import PyStr.

Local Open Scope string_scope.

Definition key_column : string := "normalized_endpoint".

(** The labels of [left.merge(right, on='normalized_endpoint',
    suffixes=('_place', '_cts'))]: the columns of [left], then those of
    [right] without the key; a label found on both sides takes the suffix of
    its side. *)
Definition merged_columns (left right : list string) : list string :=
  List.app
    (map (fun col =>
            if String.eqb col key_column then col
            else if mem col right then col ++ "_place" else col)
         left)
    (map (fun col => if mem col left then col ++ "_cts" else col)
         (filter (fun col => negb (String.eqb col key_column)) right)).

(** [col[:-n]] for [n] no larger than the length of [col]. *)
Definition drop_last (n : nat) (col : string) : string :=
  String.substring 0 (String.length col - n) col.

(** [frame[col] = ...] on the labels of a frame. *)
Definition add_label (labels : list string) (col : string) : list string :=
  if mem col labels then labels else (labels ++ [col])%list.

(** The labels of the frame that [predict] extracts for one side: the key,
    then every merged column that ends with the suffix, without it. *)
Definition extracted_columns (suffix : string) (merged : list string) : list string :=
  fold_left
    (fun labels col =>
       if endswith suffix col
       then add_label labels (drop_last (String.length suffix) col)
       else labels)
    merged [key_column].

Definition extracted_place_columns (left right : list string) : list string :=
  extracted_columns "_place" (merged_columns left right).

Definition extracted_cts_columns (left right : list string) : list string :=
  extracted_columns "_cts" (merged_columns left right).

(** The last character of a string. *)
Fixpoint last_char (s : string) : option ascii :=
  match s with
  | EmptyString => None
  | String c EmptyString => Some c
  | String _ rest => last_char rest
  end.

End MergedColumns.

(** ** The predicted route table *)

Module Served.

Import PyStr Corrector Alignment AlignmentChecks MergedColumns.

Local Open Scope string_scope.



Section Table.

Context {Row : Type}.
Variable endpoint : Row -> string.

(** The cells [slack] and [beginpoint] of a fetched row, the second as
    [str] gives it; a cell is read only where its column exists. *)
Variable slack : Row -> R.
Variable beginpoint : Row -> string.

(** [merged_data['slack_place'].values] and [merged_data['slack_cts'].values] *)
Definition slack_place (merged_data : list (Row * Row)) : list R :=
  map (fun pair => slack (fst pair)) merged_data.

Definition slack_cts (merged_data : list (Row * Row)) : list R :=
  map (fun pair => slack (snd pair)) merged_data.



End Table.

End Served.

(** ** The warnings of the Feature Reconstructor *)

Module ReconstructorLog.

Import PyStr Frame Features.

Local Open Scope string_scope.

(** The three [logging.warning] calls of [recreate_trained_features], each
    with the name it reports: "Could not recreate feature ..., filling with
    zeros", "Error recreating feature ...: ..., filling with zeros" and
    "Missing expected column ..., filling with zeros". *)
Inductive warning : Type :=
  | CouldNotRecreate (feature_name : string)
  | ErrorRecreating (feature_name : string)
  | MissingExpected (col : string).

(** What one iteration of the loop logs.  A rule that assigns its feature,
    and a pair rule that finds no operands, end in [continue] and log
    nothing; an exception inside the [try] logs the error; every other path
    reaches the fallback of the loop. *)
Definition pair_warning (base_columns parts : list string) (feature_name : string)
    (engineered_df : Table) : option warning :=
  match pair_operands base_columns parts with
  | Some (col1, col2) =>
      match get engineered_df col1, get engineered_df col2 with
      | Some _, Some _ => None
      | _, _ => Some (ErrorRecreating feature_name)
      end
  | None => None
  end.

Definition combined_warning (word : string) (base_columns : list string)
    (feature_name : string) (engineered_df : Table) : option warning :=
  let word_cols := columns_with word base_columns in
  if Nat.ltb 1 (List.length word_cols)
  then match sum_axis1 engineered_df word_cols with
       | Some _ => None
       | None => Some (ErrorRecreating feature_name)
       end
  else Some (CouldNotRecreate feature_name).

Definition unary_warning (suffix : string) (base_columns : list string)
    (feature_name : string) (engineered_df : Table) : option warning :=
  let base_col := remove_all suffix feature_name in
  if mem base_col base_columns
  then match get engineered_df base_col with
       | Some _ => None
       | None => Some (ErrorRecreating feature_name)
       end
  else Some (CouldNotRecreate feature_name).

Definition iteration_warning (base_columns : list string) (engineered_df : Table)
    (feature_name : string) : option warning :=
  if contains "_ratio" feature_name then
    let parts := split "_" (remove_all "_ratio" feature_name) in
    if Nat.leb 2 (List.length parts)
    then pair_warning base_columns parts feature_name engineered_df
    else Some (CouldNotRecreate feature_name)
  else if contains "_interaction" feature_name then
    let parts := split "_" (remove_all "_interaction" feature_name) in
    if Nat.leb 2 (List.length parts)
    then pair_warning base_columns parts feature_name engineered_df
    else Some (CouldNotRecreate feature_name)
  else if String.eqb feature_name "combined_delays" then
    combined_warning "delay" base_columns feature_name engineered_df
  else if String.eqb feature_name "combined_counts" then
    combined_warning "count" base_columns feature_name engineered_df
  else if endswith "_squared" feature_name then
    unary_warning "_squared" base_columns feature_name engineered_df
  else if endswith "_log" feature_name then
    unary_warning "_log" base_columns feature_name engineered_df
  else Some (CouldNotRecreate feature_name).

(** One iteration of the loop, with the log it appends to. *)
Definition recreate_feature_logged (base_columns : list string)
    (state : Table * list warning) (feature_name : string) : Table * list warning :=
  (recreate_feature base_columns (fst state) feature_name,
   (snd state
    ++ match iteration_warning base_columns (fst state) feature_name with
       | Some w => [w]
       | None => []
       end)%list).

(** The warnings of the final loop: one for each trained name that is not a
    column of the engineered frame. *)
Definition final_warnings (engineered_df : Table) (trained_feature_columns : list string)
  : list warning :=
  flat_map
    (fun col =>
       match get engineered_df col with
       | Some _ => []
       | None => [MissingExpected col]
       end)
    trained_feature_columns.

(** [recreate_trained_features] with the warnings it logs, in order. *)
Definition recreate_trained_features_logged (df : DataFrame cell)
    (trained_feature_columns base_columns : list string)
  : result (Table * list warning) :=
  if negb (forallb (fun col => mem col (columns df)) base_columns)
  then Raise ValueError
  else
    match select df base_columns with
    | None => Raise KeyError
    | Some picked =>
        if has_duplicates base_columns then Raise ValueError
        else
          let engineered_df := mkTable (df_len df) picked in
          let expected_engineered :=
            filter (fun col => negb (mem col base_columns)) trained_feature_columns in
          let state :=
            fold_left (recreate_feature_logged base_columns) expected_engineered
              (engineered_df, []) in
          let engineered_df := clean (fst state) in
          Ok (fold_left (final_assign engineered_df) trained_feature_columns
                (mkTable 0 []),
              (snd state ++ final_warnings engineered_df trained_feature_columns)%list)
    end.

(** The names that an iteration leaves without a column: a ratio or
    interaction name, of two parts or more, for which no split gives two
    base columns. *)
Definition left_out (base_columns : list string) (feature_name : string) : bool :=
  if contains "_ratio" feature_name then
    let parts := split "_" (remove_all "_ratio" feature_name) in
    andb (Nat.leb 2 (List.length parts))
         match pair_operands base_columns parts with Some _ => false | None => true end
  else if contains "_interaction" feature_name then
    let parts := split "_" (remove_all "_interaction" feature_name) in
    andb (Nat.leb 2 (List.length parts))
         match pair_operands base_columns parts with Some _ => false | None => true end
  else false.

End ReconstructorLog.

(** ** [sort_values] as pandas and numpy run it *)

Module NumpySort.

Import PyStr Alignment.

Local Open Scope string_scope.
Local Open Scope nat_scope.

(** [sort_values(by='normalized_endpoint')] takes the rows in the order
    given by [argsort(kind='quicksort')] on the column, which for a column
    of strings is numpy's generic [npy_aquicksort]: a quicksort on an array
    of row numbers, median of three, with an insertion sort on the ranges
    of at most [SMALL_QUICKSORT + 1] entries.  numpy is not part of the
    repository; the functions below follow [npy_aquicksort] statement by
    statement, with the cut-off as an argument. *)
Definition SMALL_QUICKSORT : nat := 16.

(** [a[p] = x] *)
Fixpoint store (a : list nat) (p x : nat) : list nat :=
  match a, p with
  | [], _ => []
  | _ :: rest, O => x :: rest
  | y :: rest, S p => y :: store rest p x
  end.

(** [INTP_SWAP(a[p], a[q])] *)
Definition INTP_SWAP (a : list nat) (p q : nat) : list nat :=
  store (store a p (nth q a O)) q (nth p a O).

Section Argsort.

(** The cut-off, and the column [v] that is sorted through [tosort]. *)
Variable small : nat.
Variable v : list string.

(** [v[tosort[p]]] *)
Definition value (tosort : list nat) (p : nat) : string :=
  nth (nth p tosort O) v "".

(** [cmp(a, b) < 0] on strings. *)
Definition lt (a b : string) : bool := String.ltb a b.

(** [do { ++pi; } while (cmp(v[*pi], vp) < 0);] *)
Fixpoint scan_up (fuel : nat) (tosort : list nat) (vp : string) (pi : nat)
  : option nat :=
  match fuel with
  | O => None
  | S fuel =>
      let pi := S pi in
      if lt (value tosort pi) vp then scan_up fuel tosort vp pi else Some pi
  end.

(** [do { --pj; } while (cmp(vp, v[*pj]) < 0);] *)
Fixpoint scan_down (fuel : nat) (tosort : list nat) (vp : string) (pj : nat)
  : option nat :=
  match fuel, pj with
  | O, _ => None
  | _, O => None
  | S fuel, S pj =>
      if lt vp (value tosort pj) then scan_down fuel tosort vp pj else Some pj
  end.

(** [for (;;)]: scan up, scan down, [if (pi >= pj) break;], then exchange
    the two entries. *)
Fixpoint partition_loop (fuel : nat) (tosort : list nat) (vp : string) (pi pj : nat)
  : option (list nat * nat) :=
  match fuel with
  | O => None
  | S fuel =>
      match scan_up (List.length tosort) tosort vp pi with
      | None => None
      | Some pi =>
          match scan_down (List.length tosort) tosort vp pj with
          | None => None
          | Some pj =>
              if Nat.leb pj pi then Some (tosort, pi)
              else partition_loop fuel (INTP_SWAP tosort pi pj) vp pi pj
          end
      end
  end.

(** One partition of [pl .. pr]: the median of three goes to [pr - 1], the
    scans exchange the entries on the wrong side, and the pivot is put at
    [pi], which is returned. *)
Definition partition (tosort : list nat) (pl pr : nat) : option (list nat * nat) :=
  let pm := pl + Nat.shiftr (pr - pl) 1 in
  let tosort :=
    if lt (value tosort pm) (value tosort pl) then INTP_SWAP tosort pm pl else tosort in
  let tosort :=
    if lt (value tosort pr) (value tosort pm) then INTP_SWAP tosort pr pm else tosort in
  let tosort :=
    if lt (value tosort pm) (value tosort pl) then INTP_SWAP tosort pm pl else tosort in
  let vp := value tosort pm in
  let pi := pl in
  let pj := pr - 1 in
  let tosort := INTP_SWAP tosort pm pj in
  match partition_loop (List.length tosort) tosort vp pi pj with
  | None => None
  | Some (tosort, pi) => Some (INTP_SWAP tosort pi (pr - 1), pi)
  end.

(** [while (pj > pl && cmp(vp, v[*pk]) < 0) { *pj-- = *pk--; }] *)
Fixpoint shift (fuel : nat) (tosort : list nat) (vp : string) (pl pj : nat)
  : list nat * nat :=
  match fuel with
  | O => (tosort, pj)
  | S fuel =>
      if andb (Nat.ltb pl pj) (lt vp (value tosort (pj - 1)))
      then shift fuel (store tosort pj (nth (pj - 1) tosort O)) vp pl (pj - 1)
      else (tosort, pj)
  end.

(** The insertion sort of [pl .. pr]: an entry moves down past the entries
    that are greater, and stays behind its equals. *)
Definition insertion_sort (tosort : list nat) (pl pr : nat) : list nat :=
  fold_left
    (fun tosort pi =>
       let vi := nth pi tosort O in
       let vp := nth vi v "" in
       let (tosort, pj) := shift pi tosort vp pl pi in
       store tosort pj vi)
    (seq (pl + 1) (pr - pl)) tosort.

(** The stack of ranges, each pushed with its depth. *)
Definition Stack : Type := list (nat * nat * Z).

(** [while ((pr - pl) > SMALL_QUICKSORT)]: partition, push the larger part
    and go on with the smaller one. *)
Fixpoint partitions (fuel : nat) (tosort : list nat) (pl pr : nat) (stack : Stack)
    (cdepth : Z) : option (list nat * nat * nat * Stack) :=
  match fuel with
  | O => None
  | S fuel =>
      if Nat.ltb small (pr - pl) then
        match partition tosort pl pr with
        | None => None
        | Some (tosort, pi) =>
            let cdepth := (cdepth - 1)%Z in
            if Nat.ltb (pi - pl) (pr - pi)
            then partitions fuel tosort pl (pi - 1) ((pi + 1, pr, cdepth) :: stack) cdepth
            else partitions fuel tosort (pi + 1) pr ((pl, pi - 1, cdepth) :: stack) cdepth
        end
      else Some (tosort, pl, pr, stack)
  end.

(** [while (1)]: [None] where the depth limit hands the range to
    [npy_aheapsort], which is not modelled. *)
Fixpoint sort_loop (fuel : nat) (tosort : list nat) (pl pr : nat) (stack : Stack)
    (cdepth : Z) : option (list nat) :=
  match fuel with
  | O => None
  | S fuel =>
      if Z.ltb cdepth 0 then None
      else
        match partitions (List.length tosort) tosort pl pr stack cdepth with
        | None => None
        | Some (tosort, pl, pr, stack) =>
            let tosort := insertion_sort tosort pl pr in
            match stack with
            | [] => Some tosort
            | (pl, pr, cdepth) :: stack => sort_loop fuel tosort pl pr stack cdepth
            end
        end
  end.

(** [npy_aquicksort(v, tosort, num, arr)], with [cdepth = npy_get_msb(num) * 2]. *)
Definition npy_aquicksort (tosort : list nat) : option (list nat) :=
  let num := List.length tosort in
  sort_loop (S num) tosort 0 (num - 1) [] (2 * Z.of_nat (Nat.log2 num))%Z.

(** [v.argsort(kind='quicksort')] *)
Definition argsort : option (list nat) :=
  npy_aquicksort (seq 0 (List.length v)).

End Argsort.

Section Rows.

Context {Row : Type}.
Variable endpoint : Row -> string.

(** [t.take(indexer)] *)
Definition take (t : list Row) (indexer : list nat) : list Row :=
  flat_map (fun i => match nth_error t i with Some r => [r] | None => [] end) indexer.

(** [t.sort_values(by='normalized_endpoint')] with the cut-off [small]. *)
Definition sort_values_with (small : nat) (t : list Row) : option (list Row) :=
  option_map (take t) (argsort small (keys endpoint t)).

Definition sort_values (t : list Row) : option (list Row) :=
  sort_values_with SMALL_QUICKSORT t.

(** [train_model]: filter, sort by normalized endpoint, then deduplicate. *)
Definition train_filtered_with (small : nat) (common_endpoints : list string)
    (t : list Row) : option (list Row) :=
  option_map (drop_duplicates endpoint)
    (sort_values_with small (isin endpoint common_endpoints t)).

Definition train_filtered (common_endpoints : list string) (t : list Row)
  : option (list Row) :=
  train_filtered_with SMALL_QUICKSORT common_endpoints t.

End Rows.

(** Three tables that [train_model] can be given, as rows of [endpoint]
    and [slack].  The place table has 18 rows; its rows 1 and 8 have the
    normalized endpoint "u1/r01". *)
Definition place_rows : list (string * Z) :=
  [("top/u1/r00", 100%Z); ("top/u1/r01", 101%Z); ("top/u1/r02", 102%Z);
   ("top/u1/r03", 103%Z); ("top/u1/r04", 104%Z); ("top/u1/r05", 105%Z);
   ("top/u1/r06", 106%Z); ("top/u1/r07", 107%Z); ("dbg/u1/r01", 108%Z);
   ("top/u1/r09", 109%Z); ("top/u1/r10", 110%Z); ("top/u1/r11", 111%Z);
   ("top/u1/r12", 112%Z); ("top/u1/r13", 113%Z); ("top/u1/r14", 114%Z);
   ("top/u1/r15", 115%Z); ("top/u1/r16", 116%Z); ("top/u1/r17", 117%Z)].

Definition cts_rows : list (string * Z) :=
  [("top/u1/r00", 200%Z); ("top/u1/r01", 201%Z); ("top/u1/r02", 202%Z);
   ("top/u1/r03", 203%Z); ("top/u1/r04", 204%Z); ("top/u1/r05", 205%Z);
   ("top/u1/r06", 206%Z); ("top/u1/r07", 207%Z);
   ("top/u1/r09", 209%Z); ("top/u1/r10", 210%Z); ("top/u1/r11", 211%Z);
   ("top/u1/r12", 212%Z); ("top/u1/r13", 213%Z); ("top/u1/r14", 214%Z);
   ("top/u1/r15", 215%Z); ("top/u1/r16", 216%Z); ("top/u1/r17", 217%Z)].

Definition route_rows : list (string * Z) :=
  [("top/u1/r00", 300%Z); ("top/u1/r01", 301%Z); ("top/u1/r02", 302%Z);
   ("top/u1/r03", 303%Z); ("top/u1/r04", 304%Z); ("top/u1/r05", 305%Z);
   ("top/u1/r06", 306%Z); ("top/u1/r07", 307%Z);
   ("top/u1/r09", 309%Z); ("top/u1/r10", 310%Z); ("top/u1/r11", 311%Z);
   ("top/u1/r12", 312%Z); ("top/u1/r13", 313%Z); ("top/u1/r14", 314%Z);
   ("top/u1/r15", 315%Z); ("top/u1/r16", 316%Z); ("top/u1/r17", 317%Z)].

End NumpySort.

(** * Properties *)

(** ** Loops *)

Module PyLoopFacts.

Import PyLoop.

Lemma collect_spec {A : Type} (body : nat -> option A) :
  forall idx vs,
    collect body idx = Some vs ->
    List.length vs = List.length idx /\
    forall j i, nth_error idx j = Some i ->
      exists v, body i = Some v /\ nth_error vs j = Some v.
Proof.
  induction idx as [|i0 rest IH]; intros vs H; simpl in H.
  - inversion H; subst. split; [reflexivity|].
    intros [|j] i Hj; discriminate.
  - destruct (body i0) as [v0|] eqn:Hb; [|discriminate].
    destruct (collect body rest) as [vs0|] eqn:Hc; [|discriminate].
    inversion H; subst. destruct (IH vs0 eq_refl) as [Hlen Hnth].
    split; [simpl; now rewrite Hlen|].
    intros [|j] i Hj; simpl in Hj.
    + inversion Hj; subst. exists v0. now split.
    + now apply Hnth.
Qed.

Lemma collect_total {A : Type} (body : nat -> option A) :
  forall idx,
    (forall i, In i idx -> exists v, body i = Some v) ->
    exists vs, collect body idx = Some vs.
Proof.
  induction idx as [|i0 rest IH]; intros H; simpl.
  - now exists [].
  - destruct (H i0 (or_introl eq_refl)) as [v0 Hv0]. rewrite Hv0.
    destruct IH as [vs Hvs]; [intros i Hi; apply H; now right|].
    rewrite Hvs. now exists (v0 :: vs).
Qed.

Lemma for_range_spec {A : Type} (n : nat) (body : nat -> option A) (vs : list A) :
  for_range n body = Some vs ->
  List.length vs = n /\
  forall i, (i < n)%nat -> exists v, body i = Some v /\ nth_error vs i = Some v.
Proof.
  unfold for_range. intros H. apply collect_spec in H. destruct H as [Hlen Hnth].
  rewrite length_seq in Hlen. split; [assumption|].
  intros i Hi. apply Hnth.
  rewrite nth_error_nth' with (d := 0%nat); [|now rewrite length_seq].
  now rewrite seq_nth.
Qed.

Lemma for_range_total {A : Type} (n : nat) (body : nat -> option A) :
  (forall i, (i < n)%nat -> exists v, body i = Some v) ->
  exists vs, for_range n body = Some vs.
Proof.
  intros H. unfold for_range. apply collect_total.
  intros i Hi. apply in_seq in Hi. apply H. lia.
Qed.

Lemma item_some {A : Type} (xs : list A) (i : nat) :
  (i < List.length xs)%nat -> exists x, item xs i = Some x.
Proof.
  intros Hi. unfold item. destruct (nth_error xs i) eqn:E; [eauto|].
  apply nth_error_None in E. lia.
Qed.

End PyLoopFacts.

(** ** The Ensemble Corrector *)

Module CorrectorSpec.

Import PyLoop PyLoopFacts Corrector.

(** Case analysis on the comparisons of a goal. *)
Ltac cases_R :=
  repeat match goal with
    | |- context [Rgt_dec ?a ?b] => destruct (Rgt_dec a b)
    | |- context [Rlt_dec ?a ?b] => destruct (Rlt_dec a b)
    | |- context [Rle_dec ?a ?b] => destruct (Rle_dec a b)
    | |- context [Rcase_abs ?a] => destruct (Rcase_abs a)
    end.

Ltac solve_R := unfold Rmin, Rmax, Rabs in *; cases_R; try lra.




(** The bounds are never crossed: the input-based interval lies inside. *)
Lemma final_lower_le_upper (s : TrainingStats) (A B : R) :
  final_lower s A B <= final_upper s A B.
Proof.
  unfold final_lower, final_upper. cbv zeta.
  assert (H1 : Rmin A B <= Rmax A B)
    by (unfold Rmin, Rmax; destruct (Rle_dec A B); lra).
  pose proof (Rabs_pos (Rmin A B)) as H2.
  pose proof (Rabs_pos (Rmax A B)) as H3.
  pose proof (Rmin_l (Rmin A B - Rabs (Rmin A B) * 0.5)
                (stat_min s - stat_std s * 1.0)) as H4.
  pose proof (Rmax_l (Rmax A B + Rabs (Rmax A B) * 0.2)
                (stat_max s + stat_std s * 1.0)) as H5.
  lra.
Qed.

Lemma clamped_within (s : TrainingStats) (p A B : R) :
  final_lower s A B <= clamped s p A B <= final_upper s A B.
Proof.
  pose proof (final_lower_le_upper s A B) as Hle.
  unfold clamped.
  set (lo := final_lower s A B) in *. set (hi := final_upper s A B) in *.
  unfold Rmin, Rmax. cases_R; lra.
Qed.

Lemma apply_training_data_bounds_rows
    (predictions place_slacks cts_slacks : list R)
    (route_stats place_stats cts_stats : TrainingStats) :
  (List.length predictions <= List.length place_slacks)%nat ->
  (List.length predictions <= List.length cts_slacks)%nat ->
  exists out,
    apply_training_data_bounds predictions place_slacks cts_slacks
      route_stats place_stats cts_stats = Some out /\
    List.length out = List.length predictions /\
    forall i p A B,
      nth_error predictions i = Some p ->
      nth_error place_slacks i = Some A ->
      nth_error cts_slacks i = Some B ->
      nth_error out i = Some (bounds_row route_stats p A B).
Proof.
  intros Hp Hc. unfold apply_training_data_bounds.
  match goal with |- context [for_range ?n ?f] => set (body := f) end.
  destruct (for_range_total (List.length predictions) body) as [out Hout].
  { intros i Hi. unfold body.
    destruct (item_some predictions i Hi) as [p ->].
    destruct (item_some place_slacks i ltac:(lia)) as [A ->].
    destruct (item_some cts_slacks i ltac:(lia)) as [B ->]. eauto. }
  exists out. split; [exact Hout|].
  destruct (for_range_spec _ _ _ Hout) as [Hlen Hnth]. split; [exact Hlen|].
  intros i p A B Hpi HA HB.
  assert (Hi : (i < List.length predictions)%nat)
    by (apply nth_error_Some; congruence).
  destruct (Hnth i Hi) as (v & Hv & Hvi). unfold body, item in Hv.
  rewrite Hpi, HA, HB in Hv. congruence.
Qed.

(** C4.  Bounds invariant of [apply_training_data_bounds].  For every row,
    with place input A, CTS input B, prediction p and training statistics s,
    let lower be the smaller of s.min - 1*s.std and min(A,B) - 0.5*|min(A,B)|,
    and upper the larger of s.max + 1*s.std and max(A,B) + 0.2*|max(A,B)|
    (the upper bounds of the code; the input-based one is no larger than
    max(A,B) + 0.5*|max(A,B)|, so the interval read with the factor 0.5 on
    both sides contains this one).  The function returns a value for every
    row; when the clamped prediction differs from min(A,B) by more than 2.0
    that value is exactly [calculate_realistic_route_slack A B], and otherwise
    it is the clamped prediction, which lies within [lower, upper]. *)
Theorem C4_bounds_invariant
    (predictions place_slacks cts_slacks : list R)
    (s place_stats cts_stats : TrainingStats) :
  (List.length predictions <= List.length place_slacks)%nat ->
  (List.length predictions <= List.length cts_slacks)%nat ->
  exists out,
    apply_training_data_bounds predictions place_slacks cts_slacks
      s place_stats cts_stats = Some out /\
    List.length out = List.length predictions /\
    forall i p A B,
      nth_error predictions i = Some p ->
      nth_error place_slacks i = Some A ->
      nth_error cts_slacks i = Some B ->
      let lower :=
        Rmin (stat_min s - 1 * stat_std s) (Rmin A B - 0.5 * Rabs (Rmin A B)) in
      let upper :=
        Rmax (stat_max s + 1 * stat_std s) (Rmax A B + 0.2 * Rabs (Rmax A B)) in
      let clamp := Rmin (Rmax p lower) upper in
      exists r,
        nth_error out i = Some r /\
        lower <= clamp <= upper /\
        (Rabs (clamp - Rmin A B) > 2.0 ->
           r = calculate_realistic_route_slack A B) /\
        (Rabs (clamp - Rmin A B) <= 2.0 ->
           r = clamp /\ lower <= r <= upper /\
           r <= Rmax (stat_max s + 1 * stat_std s)
                     (Rmax A B + 0.5 * Rabs (Rmax A B))).
Proof.
  intros Hp Hc.
  destruct (apply_training_data_bounds_rows predictions place_slacks cts_slacks
              s place_stats cts_stats Hp Hc) as (out & Hout & Hlen & Hrows).
  exists out. split; [exact Hout|]. split; [exact Hlen|].
  intros i p A B Hpi HA HB lower upper clamp.
  exists (bounds_row s p A B). split; [now apply Hrows|].
  assert (Hlo : lower = final_lower s A B).
  { unfold lower, final_lower. rewrite Rmin_comm. f_equal; lra. }
  assert (Hhi : upper = final_upper s A B).
  { unfold upper, final_upper. rewrite Rmax_comm. f_equal; lra. }
  assert (Hcl : clamp = clamped s p A B).
  { unfold clamp, clamped. now rewrite Hlo, Hhi. }
  pose proof (clamped_within s p A B) as Hin.
  rewrite <- Hlo, <- Hhi, <- Hcl in Hin.
  split; [exact Hin|].
  unfold bounds_row. rewrite <- Hcl.
  destruct (Rgt_dec (Rabs (clamp - Rmin A B)) 2.0) as [Hgt|Hngt].
  - split; [reflexivity|]. intros Hle. lra.
  - split; [intros Hgt; contradiction|]. intros _. split; [reflexivity|].
    split; [exact Hin|].
    apply Rle_trans with upper; [apply Hin|]. unfold upper.
    pose proof (Rabs_pos (Rmax A B)) as Hpos.
    apply Rmax_lub.
    + apply Rmax_l.
    + eapply Rle_trans; [|apply Rmax_r]. lra.
Qed.

(** C4 on one row in the normal path and one in the outlier-rejection path. *)
Lemma C4_bounds_invariant_witness :
  exists out,
    apply_training_data_bounds [0.3; 9] [0.1; 0.1] [0.2; 0.2]
      (mkStats (-1) 1 0 10) (mkStats 0 0 0 0) (mkStats 0 0 0 0) = Some out /\
    nth_error out 0 = Some 0.3 /\
    nth_error out 1 = Some (calculate_realistic_route_slack 0.1 0.2).
Proof.
  destruct (C4_bounds_invariant [0.3; 9] [0.1; 0.1] [0.2; 0.2]
              (mkStats (-1) 1 0 10) (mkStats 0 0 0 0) (mkStats 0 0 0 0))
    as (out & Hout & _ & Hrows); [simpl; lia | simpl; lia |].
  exists out. split; [exact Hout|].
  assert (Hmin : Rmin 0.1 0.2 = 0.1) by (apply Rmin_left; lra).
  assert (Hmax : Rmax 0.1 0.2 = 0.2) by (apply Rmax_right; lra).
  assert (Hlo : Rmin (-1 - 1 * 10) (0.1 - 0.5 * Rabs 0.1) = -11).
  { rewrite Rmin_left; [lra|]. rewrite Rabs_right; lra. }
  assert (Hhi : Rmax (1 + 1 * 10) (0.2 + 0.2 * Rabs 0.2) = 11).
  { rewrite Rmax_left; [lra|]. rewrite Rabs_right; lra. }
  split.
  - destruct (Hrows 0%nat 0.3 0.1 0.2 eq_refl eq_refl eq_refl)
      as (r & Hr & _ & _ & Hnormal).
    cbv zeta in Hnormal. cbn [stat_min stat_max stat_std] in Hnormal.
    rewrite Hmin, Hmax, Hlo, Hhi in Hnormal.
    rewrite (Rmax_left 0.3 (-11)) in Hnormal by lra.
    rewrite (Rmin_left 0.3 11) in Hnormal by lra.
    destruct Hnormal as [-> _]; [rewrite Rabs_right; lra|]. exact Hr.
  - destruct (Hrows 1%nat 9 0.1 0.2 eq_refl eq_refl eq_refl)
      as (r & Hr & _ & Houtlier & _).
    cbv zeta in Houtlier. cbn [stat_min stat_max stat_std] in Houtlier.
    rewrite Hmin, Hmax, Hlo, Hhi in Houtlier.
    rewrite (Rmax_left 9 (-11)) in Houtlier by lra.
    rewrite (Rmin_left 9 11) in Houtlier by lra.
    rewrite Houtlier in Hr; [exact Hr|]. rewrite Rabs_right; lra.
Defined.

Lemma improve_route_predictions_rows (raw place_slacks cts_slacks : list R) :
  (List.length raw <= List.length place_slacks)%nat ->
  (List.length raw <= List.length cts_slacks)%nat ->
  exists physics,
    improve_route_predictions raw place_slacks cts_slacks = Some physics /\
    List.length physics = List.length raw /\
    forall i r A B,
      nth_error raw i = Some r ->
      nth_error place_slacks i = Some A ->
      nth_error cts_slacks i = Some B ->
      nth_error physics i
      = Some (improve_row (np_mean place_slacks) (np_mean cts_slacks)
                (np_std place_slacks) (np_std cts_slacks) r A B).
Proof.
  intros Hp Hc. unfold improve_route_predictions. cbv zeta.
  match goal with |- context [for_range ?n ?f] => set (body := f) end.
  destruct (for_range_total (List.length raw) body) as [out Hout].
  { intros i Hi. unfold body.
    destruct (item_some raw i Hi) as [p ->].
    destruct (item_some place_slacks i ltac:(lia)) as [A ->].
    destruct (item_some cts_slacks i ltac:(lia)) as [B ->]. eauto. }
  exists out. split; [exact Hout|].
  destruct (for_range_spec _ _ _ Hout) as [Hlen Hnth]. split; [exact Hlen|].
  intros i r A B Hr HA HB.
  assert (Hi : (i < List.length raw)%nat) by (apply nth_error_Some; congruence).
  destruct (Hnth i Hi) as (v & Hv & Hvi). unfold body, item in Hv.
  rewrite Hr, HA, HB in Hv. congruence.
Qed.

(** The weighted sum of one row, tier by tier. *)
Lemma ensemble_row_tiers (r ph syn st : R) :
  let sd := np_std [r; ph; syn; st] in
  (sd < 0.01 ->
     ensemble_row r ph syn st = r * 0.30 + ph * 0.30 + syn * 0.25 + st * 0.15) /\
  (0.01 <= sd < 0.03 ->
     ensemble_row r ph syn st = r * 0.25 + ph * 0.35 + syn * 0.30 + st * 0.10) /\
  (0.03 <= sd < 0.06 ->
     ensemble_row r ph syn st = r * 0.15 + ph * 0.25 + syn * 0.40 + st * 0.20) /\
  (0.06 <= sd ->
     ensemble_row r ph syn st = r * 0.10 + ph * 0.20 + syn * 0.55 + st * 0.15).
Proof.
  intros sd. unfold ensemble_row, ensemble_weights. cbv zeta. fold sd.
  destruct (Rlt_dec sd 0.01); [|destruct (Rlt_dec sd 0.03);
    [|destruct (Rlt_dec sd 0.06)]]; simpl nth;
    repeat split; intros; lra.
Qed.

(** The four estimates of scenario E disagree by more than 0.06. *)
Lemma scenario_E_std : 0.06 <= np_std [0.10; 0.12; 0.11; 0.30].
Proof.
  unfold np_std.
  assert (Hm : np_mean [0.10; 0.12; 0.11; 0.30] = 0.1575).
  { unfold np_mean, np_sum. simpl. lra. }
  rewrite Hm. unfold np_mean, np_sum. simpl.
  rewrite <- !Rsqr_abs. unfold Rsqr.
  replace 0.06 with (sqrt (0.06 * 0.06)) at 1
    by (apply sqrt_square; lra).
  apply sqrt_le_1_alt. lra.
Qed.

(** C5.  Ensemble combination of [ensemble_route_predictions].  On arrays of
    equal length the function returns one value per row: the weighted sum of
    the raw prediction, the physics estimate ([improve_route_predictions]),
    the synthetic estimate ([calculate_synthetic_route_slack]) and the
    statistical estimate, with the weight vector chosen by the standard
    deviation of these four estimates: below 0.01 [.30,.30,.25,.15], below
    0.03 [.25,.35,.30,.10], below 0.06 [.15,.25,.40,.20], otherwise
    [.10,.20,.55,.15].  The four estimates [0.10, 0.12, 0.11, 0.30] take the
    last vector. *)
Theorem C5_ensemble_combination :
  (ensemble_weights (np_std [0.10; 0.12; 0.11; 0.30]) = [0.10; 0.20; 0.55; 0.15] /\
   ensemble_row 0.10 0.12 0.11 0.30
   = 0.10 * 0.10 + 0.12 * 0.20 + 0.11 * 0.55 + 0.30 * 0.15) /\
  forall (timing_hash : R -> R -> Z) (raw place_slacks cts_slacks : list R),
    List.length place_slacks = List.length raw ->
    List.length cts_slacks = List.length raw ->
    exists out physics,
      improve_route_predictions raw place_slacks cts_slacks = Some physics /\
      ensemble_route_predictions timing_hash raw place_slacks cts_slacks = Some out /\
      List.length out = List.length raw /\
      forall i r A B ph,
        nth_error raw i = Some r ->
        nth_error place_slacks i = Some A ->
        nth_error cts_slacks i = Some B ->
        nth_error physics i = Some ph ->
        let syn := calculate_synthetic_route_slack timing_hash A B in
        let st := statistical_row A B in
        let sd := np_std [r; ph; syn; st] in
        exists e,
          nth_error out i = Some e /\
          (sd < 0.01 -> e = r * 0.30 + ph * 0.30 + syn * 0.25 + st * 0.15) /\
          (0.01 <= sd < 0.03 -> e = r * 0.25 + ph * 0.35 + syn * 0.30 + st * 0.10) /\
          (0.03 <= sd < 0.06 -> e = r * 0.15 + ph * 0.25 + syn * 0.40 + st * 0.20) /\
          (0.06 <= sd -> e = r * 0.10 + ph * 0.20 + syn * 0.55 + st * 0.15).
Proof.
  split.
  - pose proof scenario_E_std as Hsd. split.
    + unfold ensemble_weights.
      destruct (Rlt_dec _ 0.01); [lra|]. destruct (Rlt_dec _ 0.03); [lra|].
      destruct (Rlt_dec _ 0.06); [lra|]. reflexivity.
    + apply (ensemble_row_tiers 0.10 0.12 0.11 0.30). exact Hsd.
  - intros timing_hash raw place_slacks cts_slacks Hp Hc.
    destruct (improve_route_predictions_rows raw place_slacks cts_slacks)
      as (physics & Hphys & Hplen & Hprow); [lia | lia |].
    unfold ensemble_route_predictions. rewrite Hphys.
    match goal with |- context [for_range (List.length place_slacks) ?f] =>
      set (syn_body := f) end.
    destruct (for_range_total (List.length place_slacks) syn_body) as [syns Hsyns].
    { intros i Hi. unfold syn_body.
      destruct (item_some place_slacks i Hi) as [A ->].
      destruct (item_some cts_slacks i ltac:(lia)) as [B ->]. eauto. }
    rewrite Hsyns.
    match goal with |- context [for_range (List.length raw) ?f] =>
      set (stat_body := f) end.
    destruct (for_range_total (List.length raw) stat_body) as [stats Hstats].
    { intros i Hi. unfold stat_body.
      destruct (item_some place_slacks i ltac:(lia)) as [A ->].
      destruct (item_some cts_slacks i ltac:(lia)) as [B ->]. eauto. }
    rewrite Hstats.
    destruct (for_range_spec _ _ _ Hsyns) as [Hsynlen Hsynnth].
    destruct (for_range_spec _ _ _ Hstats) as [Hstatlen Hstatnth].
    match goal with |- context [for_range (List.length raw) ?f = Some _] =>
      set (ens_body := f) end.
    destruct (for_range_total (List.length raw) ens_body) as [out Hout].
    { intros i Hi. unfold ens_body.
      destruct (item_some raw i Hi) as [r ->].
      destruct (item_some physics i ltac:(lia)) as [ph ->].
      destruct (item_some syns i ltac:(lia)) as [sy ->].
      destruct (item_some stats i ltac:(lia)) as [st ->]. eauto. }
    exists out, physics. split; [reflexivity|]. split; [exact Hout|].
    destruct (for_range_spec _ _ _ Hout) as [Houtlen Houtnth].
    split; [exact Houtlen|].
    intros i r A B ph Hr HA HB Hph.
    set (syn := calculate_synthetic_route_slack timing_hash A B).
    set (st := statistical_row A B).
    assert (Hi : (i < List.length raw)%nat) by (apply nth_error_Some; congruence).
    destruct (Hsynnth i ltac:(lia)) as (sy & Hsy & Hsyi).
    unfold syn_body, item in Hsy. rewrite HA, HB in Hsy.
    destruct (Hstatnth i Hi) as (sv & Hsv & Hsvi).
    unfold stat_body, item in Hsv. rewrite HA, HB in Hsv.
    destruct (Houtnth i Hi) as (e & He & Hei).
    unfold ens_body, item in He. rewrite Hr, Hph, Hsyi, Hsvi in He.
    inversion Hsy; subst sy. inversion Hsv; subst sv. inversion He; subst e.
    exists (ensemble_row r ph syn st). split; [exact Hei|].
    apply (ensemble_row_tiers r ph syn st).
Qed.

(** C5 on a batch of one row. *)
Lemma C5_ensemble_combination_witness :
  exists out physics,
    improve_route_predictions [1] [0] [0] = Some physics /\
    ensemble_route_predictions (fun _ _ => 0%Z) [1] [0] [0] = Some out /\
    List.length out = 1%nat.
Proof.
  destruct (proj2 C5_ensemble_combination (fun _ _ => 0%Z) [1] [0] [0]
              eq_refl eq_refl) as (out & physics & Hphys & Hout & Hlen & _).
  exists out, physics. repeat split; assumption.
Defined.

(** *** The served correction on one row: raw prediction 1, both inputs 0 *)








Lemma improve_row_final_clamp (pm cm ps cs raw A B : R) :
  Rmin A B - 0.1 <= improve_row pm cm ps cs raw A B <= Rmax A B + 0.05.
Proof.
  unfold improve_row. cbv zeta.
  match goal with |- _ <= Rmin (Rmax ?x _) _ <= _ => generalize x end.
  intros x. unfold Rmin, Rmax.
  destruct (Rle_dec A B); destruct (Rle_dec x _); destruct (Rle_dec _ _); lra.
Qed.







Lemma improve_route_predictions_clamp (raw place_slacks cts_slacks improved : list R) :
  improve_route_predictions raw place_slacks cts_slacks = Some improved ->
  forall i v A B,
    nth_error improved i = Some v ->
    nth_error place_slacks i = Some A ->
    nth_error cts_slacks i = Some B ->
    Rmin A B - 0.1 <= v <= Rmax A B + 0.05.
Proof.
  unfold improve_route_predictions. cbv zeta. intros H i v A B Hv HA HB.
  destruct (for_range_spec _ _ _ H) as [Hlen Hnth].
  assert (Hi : (i < List.length raw)%nat)
    by (rewrite <- Hlen; apply nth_error_Some; congruence).
  destruct (Hnth i Hi) as (w & Hw & Hwi). unfold item in Hw.
  rewrite HA, HB in Hw. destruct (nth_error raw i) as [r|]; [|discriminate].
  assert (v = w) by congruence. subst w. inversion Hw; subst v.
  apply improve_row_final_clamp.
Qed.



End CorrectorSpec.

(** ** Names *)

Module PyStrFacts.

Import PyStr.

Lemma mem_true_iff (x : string) (xs : list string) : mem x xs = true <-> In x xs.
Proof.
  unfold mem. rewrite existsb_exists. split.
  - intros (y & Hy & Heq). apply String.eqb_eq in Heq. now subst.
  - intros H. exists x. split; [assumption|apply String.eqb_refl].
Qed.

Lemma mem_cons (x y : string) (xs : list string) :
  mem x (y :: xs) = orb (String.eqb x y) (mem x xs).
Proof. reflexivity. Qed.

Lemma has_duplicates_NoDup (xs : list string) : NoDup xs -> has_duplicates xs = false.
Proof.
  induction 1 as [|x xs Hx Hnd IH]; [reflexivity|]. simpl. rewrite IH, orb_false_r.
  destruct (mem x xs) eqn:E; [|reflexivity]. apply mem_true_iff in E. contradiction.
Qed.

Lemma split_nonempty (sep : ascii) (s : string) : split sep s <> [].
Proof.
  destruct s as [|c r]; simpl; [discriminate|].
  destruct (Ascii.eqb c sep); [discriminate|].
  destruct (split sep r); discriminate.
Qed.

Lemma split_append (sep : ascii) (s1 s2 : string) :
  split sep (s1 ++ String sep s2) = (split sep s1 ++ split sep s2)%list.
Proof.
  induction s1 as [|c r IH]; simpl.
  - now rewrite Ascii.eqb_refl.
  - destruct (Ascii.eqb c sep); [now rewrite IH|].
    rewrite IH. pose proof (split_nonempty sep r) as Hne.
    destruct (split sep r); [contradiction|reflexivity].
Qed.

Lemma split_free (sep : ascii) (s : string) :
  free_of sep s = true -> split sep s = [s].
Proof.
  induction s as [|c r IH]; simpl; [reflexivity|].
  destruct (Ascii.eqb c sep); [discriminate|]. simpl. intros H. now rewrite IH.
Qed.

End PyStrFacts.

(** ** The Alignment Engine *)

Module AlignmentSpec.

Import PyStr PyStrFacts Alignment.

Local Open Scope string_scope.

Section Rows.

Context {Row : Type}.
Variable endpoint : Row -> string.

#[local] Abbreviation key := (key endpoint).
#[local] Abbreviation first_row := (first_row endpoint).
#[local] Abbreviation isin := (isin endpoint).
#[local] Abbreviation drop_from := (drop_from endpoint).
#[local] Abbreviation drop_duplicates := (drop_duplicates endpoint).

Lemma first_row_isin (common : list string) (k : string) (t : list Row) :
  first_row k (isin common t) = if mem k common then first_row k t else None.
Proof.
  induction t as [|r rest IH]; simpl.
  - now destruct (mem k common).
  - destruct (mem (key r) common) eqn:Hr; simpl;
      destruct (String.eqb (key r) k) eqn:Hk.
    + apply String.eqb_eq in Hk. subst k. now rewrite Hr.
    + exact IH.
    + apply String.eqb_eq in Hk. subst k. rewrite Hr in IH. now rewrite Hr.
    + exact IH.
Qed.

Lemma first_row_drop_from (k : string) (t : list Row) :
  forall seen,
    first_row k (drop_from seen t) = if mem k seen then None else first_row k t.
Proof.
  induction t as [|r rest IH]; intros seen; simpl.
  - now destruct (mem k seen).
  - destruct (mem (key r) seen) eqn:Hr.
    + rewrite IH. destruct (mem k seen) eqn:Hk; [reflexivity|].
      destruct (String.eqb (key r) k) eqn:E; [|reflexivity].
      apply String.eqb_eq in E. congruence.
    + simpl. destruct (String.eqb (key r) k) eqn:E.
      * apply String.eqb_eq in E. subst k. now rewrite Hr.
      * rewrite IH, mem_cons. rewrite String.eqb_sym, E. reflexivity.
Qed.

Lemma first_row_drop_duplicates (k : string) (t : list Row) :
  first_row k (drop_duplicates t) = first_row k t.
Proof. unfold Alignment.drop_duplicates. now rewrite first_row_drop_from. Qed.

Lemma drop_from_keys (t : list Row) :
  forall seen,
    NoDup (keys endpoint (drop_from seen t)) /\
    forall k, In k (keys endpoint (drop_from seen t)) -> ~ In k seen.
Proof.
  induction t as [|r rest IH]; intros seen; simpl.
  - split; [constructor|]. intros k [].
  - destruct (mem (key r) seen) eqn:Hr; [apply IH|].
    destruct (IH (key r :: seen)) as [Hnd Hfresh]. simpl. split.
    + constructor; [|exact Hnd]. intros Hin. apply (Hfresh _ Hin). now left.
    + intros k [<-|Hin].
      * intros Hin. apply mem_true_iff in Hin. congruence.
      * intros Hs. apply (Hfresh _ Hin). now right.
Qed.

Lemma first_row_some (k : string) (t : list Row) (r : Row) :
  first_row k t = Some r -> In r t /\ key r = k.
Proof.
  unfold Alignment.first_row. intros H. apply find_some in H.
  destruct H as [Hin Hk]. apply String.eqb_eq in Hk. now split.
Qed.

Lemma first_row_filter (k : string) (t : list Row) :
  first_row k t = hd_error (filter (fun r => String.eqb (key r) k) t).
Proof.
  induction t as [|r rest IH]; simpl; [reflexivity|].
  destruct (String.eqb (key r) k); [reflexivity|exact IH].
Qed.

Lemma first_row_in (k : string) (t : list Row) :
  In k (keys endpoint t) -> exists r, first_row k t = Some r.
Proof.
  unfold keys. rewrite in_map_iff. intros (r & Hk & Hin).
  destruct (first_row k t) as [r'|] eqn:E; [eauto|].
  unfold Alignment.first_row in E. apply (find_none _ _ E) in Hin.
  subst k. now rewrite String.eqb_refl in Hin.
Qed.

Lemma in_keys_isin (common : list string) (k : string) (t : list Row) :
  mem k common = true -> In k (keys endpoint t) -> In k (keys endpoint (isin common t)).
Proof.
  unfold keys. rewrite !in_map_iff. intros Hc (r & Hk & Hin). exists r.
  split; [assumption|]. apply filter_In. split; [assumption|]. now rewrite Hk.
Qed.

(** *** Sorting by insertion *)

Lemma leb_false_leb (a b : string) : String.leb a b = false -> String.leb b a = true.
Proof. intros H. destruct (String.leb_total a b); congruence. Qed.

#[local] Abbreviation le_key := (fun r1 r2 : Row => String.leb (key r1) (key r2) = true).

Lemma insert_before_perm (r : Row) (t : list Row) :
  Permutation (insert_before endpoint r t) (r :: t).
Proof.
  induction t as [|r' rest IH]; simpl; [reflexivity|].
  destruct (String.leb _ _); [reflexivity|].
  rewrite IH. apply perm_swap.
Qed.

Lemma insert_before_sorted (r : Row) (t : list Row) :
  Sorted le_key t -> Sorted le_key (insert_before endpoint r t).
Proof.
  induction t as [|r' rest IH]; intros Hs; simpl.
  - repeat constructor.
  - destruct (String.leb (key r) (key r')) eqn:E.
    + constructor; [assumption|]. now constructor.
    + apply Sorted_inv in Hs. destruct Hs as [Hs Hhd].
      constructor; [now apply IH|].
      destruct rest as [|r'' rest']; simpl.
      * constructor. now apply leb_false_leb.
      * destruct (String.leb (key r) (key r'')).
        -- constructor. now apply leb_false_leb.
        -- constructor. now apply HdRel_inv in Hhd.
Qed.

Lemma stable_sort_sorts : sorts_by_key endpoint (stable_sort endpoint).
Proof.
  intros t. induction t as [|r rest [IHp IHs]]; simpl.
  - split; constructor.
  - split.
    + rewrite insert_before_perm. now constructor.
    + now apply insert_before_sorted.
Qed.

Lemma leb_refl (a : string) : String.leb a a = true.
Proof. destruct (String.leb_total a a); assumption. Qed.

Lemma insert_before_filter (k : string) (r : Row) (t : list Row) :
  filter (fun r0 => String.eqb (key r0) k) (insert_before endpoint r t)
  = filter (fun r0 => String.eqb (key r0) k) (r :: t).
Proof.
  induction t as [|r' rest IH]; [reflexivity|].
  cbn [insert_before]. destruct (String.leb (key r) (key r')) eqn:E; [reflexivity|].
  cbn [filter] in *. rewrite IH.
  destruct (String.eqb (key r) k) eqn:Er; [|reflexivity].
  destruct (String.eqb (key r') k) eqn:Er'; [|reflexivity].
  apply String.eqb_eq in Er, Er'. rewrite Er, Er', leb_refl in E. discriminate.
Qed.

Lemma stable_sort_stable : stable endpoint (stable_sort endpoint).
Proof.
  intros t k. induction t as [|r rest IH]; [reflexivity|].
  cbn [stable_sort fold_right]. rewrite insert_before_filter.
  cbn [filter]. unfold stable_sort in IH. now rewrite IH.
Qed.

Lemma first_row_perm_some (k : string) (t t' : list Row) :
  Permutation t' t -> In k (keys endpoint t) -> exists r, first_row k t' = Some r.
Proof.
  intros Hp Hin. apply first_row_in. unfold keys in *.
  apply (Permutation_in k (Permutation_map key (Permutation_sym Hp))). exact Hin.
Qed.

(** X24.  In the prediction path each table is filtered to the common
    normalized endpoints and deduplicated: one row per normalized endpoint is
    kept, the first one in source row order.  In the training path the
    filtered table is sorted by normalized endpoint before the
    deduplication: for every sort that rearranges the rows in key order, one
    row per normalized endpoint is kept, the first one in the sorted order,
    which is a source row of that endpoint and is the first one in source
    row order when the sort is stable. *)
Theorem alignment_deduplication :
  (forall common t k,
     NoDup (keys endpoint (predict_filtered endpoint common t)) /\
     (mem k common = true ->
      first_row k (predict_filtered endpoint common t) = first_row k t)) /\
  (forall sort_values,
     sorts_by_key endpoint sort_values ->
     forall common t k,
       NoDup (keys endpoint (train_filtered endpoint sort_values common t)) /\
       first_row k (train_filtered endpoint sort_values common t)
       = first_row k (sort_values (isin common t)) /\
       (mem k common = true -> In k (keys endpoint t) ->
        exists r,
          first_row k (train_filtered endpoint sort_values common t) = Some r /\
          In r t /\ key r = k) /\
       (stable endpoint sort_values -> mem k common = true ->
        first_row k (train_filtered endpoint sort_values common t) = first_row k t)).
Proof.
  split.
  - intros common t k. unfold predict_filtered. split.
    + apply drop_from_keys.
    + intros Hc. now rewrite first_row_drop_duplicates, first_row_isin, Hc.
  - intros sort_values Hsort common t k. unfold train_filtered.
    split; [apply drop_from_keys|].
    split; [apply first_row_drop_duplicates|]. split.
    + intros Hc Hin. rewrite first_row_drop_duplicates.
      destruct (Hsort (isin common t)) as [Hperm _].
      destruct (first_row_perm_some k (isin common t) _ Hperm) as [r Hr].
      { now apply in_keys_isin. }
      exists r. split; [exact Hr|].
      apply first_row_some in Hr. destruct Hr as [Hin' Hk]. split; [|exact Hk].
      apply (Permutation_in _ Hperm) in Hin'.
      unfold Alignment.isin in Hin'. now apply filter_In in Hin'.
    + intros Hstable Hc. rewrite first_row_drop_duplicates.
      rewrite (first_row_filter k (sort_values _)), Hstable, <- first_row_filter.
      now rewrite first_row_isin, Hc.
Qed.

End Rows.

(** X24 with the stable insertion sort on a table of two rows of one
    normalized endpoint. *)
Lemma alignment_deduplication_witness :
  first_row fst "a/b"
    (train_filtered fst (stable_sort fst) ["a/b"] [("top/a/b", 1%nat); ("a/b", 2%nat)])
  = first_row fst "a/b" [("top/a/b", 1%nat); ("a/b", 2%nat)].
Proof.
  apply (proj2 (alignment_deduplication fst) (stable_sort fst)
           (stable_sort_sorts fst) ["a/b"] [("top/a/b", 1%nat); ("a/b", 2%nat)] "a/b").
  - apply stable_sort_stable.
  - reflexivity.
Defined.

(** *** The last two segments *)

(** What the definition in force does on a slash-delimited identifier: it
    keeps the last two segments, as they are spelled. *)
Lemma normalize_endpoint_last_two (prefix seg1 seg2 : string) :
  free_of "/" seg1 = true ->
  free_of "/" seg2 = true ->
  normalize_endpoint (prefix ++ "/" ++ seg1 ++ "/" ++ seg2) = seg1 ++ "/" ++ seg2.
Proof.
  intros H1 H2. unfold normalize_endpoint. cbv zeta.
  change ("/" ++ seg1 ++ "/" ++ seg2) with (String "/" (seg1 ++ String "/" seg2)).
  rewrite !split_append, (split_free _ _ H1), (split_free _ _ H2).
  rewrite !length_app. cbn [List.length].
  replace (List.length (split "/" prefix) + (1 + 1) - 2)%nat
    with (List.length (split "/" prefix) + 0)%nat by lia.
  replace (List.length (split "/" prefix) + (1 + 1) - 1)%nat
    with (List.length (split "/" prefix) + 1)%nat by lia.
  rewrite !app_nth2_plus. cbn [nth app].
  destruct (List.length (split "/" prefix) + (1 + 1))%nat as [|[|n]] eqn:E; [lia|lia|].
  reflexivity.
Qed.

(** C3.  The definition of [normalize_endpoint] in force keeps the last two
    segments of a slash-delimited identifier and neither trims nor
    lower-cases: "top/u1/reg[3]" gives "u1/reg[3]", but "TOP/U1/REG[3]" gives
    "U1/REG[3]", a different key, and two tables holding one spelling each
    have no common endpoint.  The definition it replaces trims and
    lower-cases, and keeps every segment. *)
Theorem C3_normalize_endpoint_keeps_case :
  normalize_endpoint "top/u1/reg[3]" = "u1/reg[3]" /\
  normalize_endpoint "TOP/U1/REG[3]" = "U1/REG[3]" /\
  normalize_endpoint "TOP/U1/REG[3]" <> normalize_endpoint "top/u1/reg[3]" /\
  normalize_endpoint " top/u1/reg[3] " = "u1/reg[3] " /\
  normalize_endpoint "reg[3]" = "reg[3]" /\
  common2 fst [("top/u1/reg[3]", 1%nat)] [("TOP/U1/REG[3]", 2%nat)] = [] /\
  predict_align fst [("top/u1/reg[3]", 1%nat)] [("TOP/U1/REG[3]", 2%nat)] = ([], []) /\
  Shadowed.normalize_endpoint " TOP/U1/REG[3] " = "top/u1/reg[3]".
Proof.
  repeat split; try reflexivity. intros H. vm_compute in H. discriminate H.
Qed.

End AlignmentSpec.

(** ** The Schema Inspector *)

Module InspectorSpec.

Import PyStr Frame Inspector.

Local Open Scope string_scope.

Lemma lookup_in_columns {C : Type} (col : string) (df : DataFrame C) (s : Series C) :
  lookup col (df_columns df) = Some s -> In col (columns df).
Proof.
  unfold columns. induction (df_columns df) as [|[k v] rest IH]; simpl; [discriminate|].
  destruct (String.eqb k col) eqn:E.
  - apply String.eqb_eq in E. now left.
  - intros H. right. now apply IH.
Qed.

Lemma detect_feature_columns_iff (parse_number : string -> cell)
    (df : DataFrame value) (target_col : option string) (col : string)
    (s : Series value) :
  lookup col (df_columns df) = Some s ->
  (In col (detect_feature_columns parse_number df target_col) <->
   excluded df target_col col = false /\ passes parse_number df s = true).
Proof.
  intros Hs. unfold detect_feature_columns. rewrite filter_In, Hs.
  rewrite andb_true_iff, negb_true_iff. split.
  - intros [_ H]. exact H.
  - intros H. split; [now apply (lookup_in_columns col df s)|exact H].
Qed.

(** C7 (as amended).  A non-target column is a feature when its dtype is one
    of float64, int64, float32, int32, int16, int8 or object and numeric
    coercion gives a number in more than 80% of the rows of the table, the
    missing entries counted among the rows; it is not a feature when
    coercion gives a number in fewer than 80% of the rows, whatever its
    dtype, nor when its dtype is any other one, nor when it is the target. *)
Theorem C7_feature_qualification (parse_number : string -> cell)
    (df : DataFrame value) (target_col : option string) (col : string)
    (s : Series value) :
  lookup col (df_columns df) = Some s ->
  (excluded df target_col col = false ->
   declared_numeric (s_dtype s) = true \/ s_dtype s = object ->
   INR (numeric_count parse_number s) > 0.8 * INR (df_len df) ->
   In col (detect_feature_columns parse_number df target_col)) /\
  (INR (numeric_count parse_number s) < 0.8 * INR (df_len df) ->
   ~ In col (detect_feature_columns parse_number df target_col)) /\
  (s_dtype s = other_dtype ->
   ~ In col (detect_feature_columns parse_number df target_col)) /\
  (excluded df target_col col = true ->
   ~ In col (detect_feature_columns parse_number df target_col)).
Proof.
  intros Hs. rewrite (detect_feature_columns_iff parse_number df target_col col s Hs).
  unfold passes. split; [|split; [|split]].
  - intros He Hd Hgt. split; [exact He|].
    destruct (Rgt_dec _ _) as [_|Hn]; [|lra].
    destruct Hd as [Hd|Hd]; [destruct (s_dtype s); try discriminate; reflexivity|].
    now rewrite Hd.
  - intros Hlt [_ Hp]. destruct (Rgt_dec _ _) as [Hgt|Hn]; [lra|].
    destruct (s_dtype s); discriminate.
  - intros Hd [_ Hp]. rewrite Hd in Hp. discriminate.
  - intros He [He' _]. congruence.
Qed.

(** The claim as written fails: a float64 column with one number and one
    missing entry is declared numeric, and it is not a feature, since one
    number is not more than 80% of two rows. *)
Lemma C7_declared_numeric_counterexample :
  ~ (forall (parse_number : string -> cell) (df : DataFrame value)
            (target_col : option string) (col : string) (s : Series value),
       lookup col (df_columns df) = Some s ->
       excluded df target_col col = false ->
       (In col (detect_feature_columns parse_number df target_col) <->
        spec_qualifies parse_number s)).
Proof.
  intros H.
  specialize (H (fun _ => None)
                (mkFrame 2 [("x", mkSeries float64 [VNum 1; VNaN])]) None "x"
                (mkSeries float64 [VNum 1; VNaN]) eq_refl eq_refl).
  destruct H as [_ H].
  assert (Hin : In "x" (detect_feature_columns (fun _ => None)
                          (mkFrame 2 [("x", mkSeries float64 [VNum 1; VNaN])]) None)).
  { apply H. left. reflexivity. }
  unfold detect_feature_columns in Hin. apply filter_In in Hin.
  destruct Hin as [_ Hp]. cbn in Hp.
  destruct (Rgt_dec _ _) as [Hgt|Hn]; [lra|discriminate].
Qed.

(** C7 on a text column of five numeric strings. *)
Lemma C7_feature_qualification_witness :
  In "fanout"
     (detect_feature_columns (fun s => if String.eqb s "3" then Some 3%R else None)
        (mkFrame 5
           [("slack", mkSeries float64 [VNum 1; VNum 1; VNum 1; VNum 1; VNum 1]);
            ("fanout", mkSeries object
                         [VText "3"; VText "3"; VText "3"; VText "3"; VText "3"])])
        (Some "slack")).
Proof.
  apply (C7_feature_qualification
           (fun s => if String.eqb s "3" then Some 3%R else None)
           (mkFrame 5
              [("slack", mkSeries float64 [VNum 1; VNum 1; VNum 1; VNum 1; VNum 1]);
               ("fanout", mkSeries object
                            [VText "3"; VText "3"; VText "3"; VText "3"; VText "3"])])
           (Some "slack") "fanout"
           (mkSeries object [VText "3"; VText "3"; VText "3"; VText "3"; VText "3"])).
  - reflexivity.
  - reflexivity.
  - right. reflexivity.
  - cbn. lra.
Defined.

End InspectorSpec.

(** ** The Feature Engineer and the Feature Reconstructor *)

Module FeaturesSpec.

Import PyStr PyStrFacts Frame Features.

Local Open Scope string_scope.

Lemma lookup_mem_columns {C : Type} (col : string) (df : DataFrame C) (s : Series C) :
  lookup col (df_columns df) = Some s -> mem col (columns df) = true.
Proof.
  unfold columns. induction (df_columns df) as [|[k v] rest IH]; simpl; [discriminate|].
  rewrite (String.eqb_sym col k).
  destruct (String.eqb k col); [reflexivity|]. exact IH.
Qed.

Lemma fill_median_length (xs : list cell) :
  List.length (fill_median xs) = List.length xs.
Proof.
  unfold fill_median. destruct (existsb is_nan xs); [apply length_map|reflexivity].
Qed.

Lemma fill_median_present (xs : list cell) (i : nat) (x : R) :
  nth_error xs i = Some (Some x) -> nth_error (fill_median xs) i = Some (Some x).
Proof.
  intros H. unfold fill_median. destruct (existsb is_nan xs); [|exact H].
  cbv zeta.
  exact (map_nth_error
           (fun a : cell =>
              match a with
              | Some x0 => Some x0
              | None => Some match median xs with Some m => m | None => 0%R end
              end) i xs H).
Qed.

Lemma ratio_nth (xs ys : list cell) (i : nat) (x y : R) :
  nth_error xs i = Some (Some x) ->
  nth_error ys i = Some (Some y) ->
  nth_error (ratio xs ys) i = Some (Some (x / (Rabs y + 1e-8)))%R.
Proof.
  revert ys i. induction xs as [|a xs IH]; intros ys i Hx Hy.
  - destruct i; discriminate.
  - destruct ys as [|b ys]; [destruct i; discriminate|].
    destruct i as [|i]; simpl in *.
    + inversion Hx; inversion Hy; subst. reflexivity.
    + now apply IH.
Qed.

Lemma ratio_length (xs ys : list cell) :
  List.length xs = List.length ys -> List.length (ratio xs ys) = List.length xs.
Proof.
  intros H. unfold ratio, zip_with. rewrite length_map, length_combine. lia.
Qed.

Lemma ratio_feature_name :
  contains "_ratio" "arrival_time_slack_ratio" = true /\
  split "_" (remove_all "_ratio" "arrival_time_slack_ratio")
  = ["arrival"; "time"; "slack"].
Proof. split; reflexivity. Qed.

(** C9.  Ambiguous underscores.  For the trained feature name
    "arrival_time_slack_ratio" and base columns that are exactly
    "arrival_time" and "slack", in either order, the name splits into the
    parts arrival, time, slack; the split ("arrival", "time_slack") is tried
    and rejected, and the operands found are ("arrival_time", "slack").  On a
    raw table holding both columns the Feature Reconstructor returns the
    trained columns in order, and the feature column is arrival_time /
    (|slack| + 1e-8) with the cleanup applied: on every row where both cells
    are numbers it is that quotient. *)
Theorem C9_ambiguous_underscore_split
    (df : DataFrame cell) (a s : Series cell) (base_columns : list string) :
  lookup "arrival_time" (df_columns df) = Some a ->
  lookup "slack" (df_columns df) = Some s ->
  List.length (s_values a) = df_len df ->
  List.length (s_values s) = df_len df ->
  base_columns = ["arrival_time"; "slack"] \/ base_columns = ["slack"; "arrival_time"] ->
  split "_" (remove_all "_ratio" "arrival_time_slack_ratio")
  = ["arrival"; "time"; "slack"] /\
  find_split base_columns ["arrival"; "time"; "slack"] [1%nat] = None /\
  pair_operands base_columns
    (split "_" (remove_all "_ratio" "arrival_time_slack_ratio"))
  = Some ("arrival_time", "slack") /\
  exists t column,
    recreate_trained_features df
      (base_columns ++ ["arrival_time_slack_ratio"])%list base_columns = Ok t /\
    labels t = (base_columns ++ ["arrival_time_slack_ratio"])%list /\
    get t "arrival_time_slack_ratio" = Some column /\
    column = fill_median (ratio (s_values a) (s_values s)) /\
    forall i x y,
      nth_error (s_values a) i = Some (Some x) ->
      nth_error (s_values s) i = Some (Some y) ->
      nth_error column i = Some (Some (x / (Rabs y + 1e-8)))%R.
Proof.
  intros Ha Hs Hla Hls Hbase.
  split; [reflexivity|].
  split; [destruct Hbase; subst; reflexivity|].
  split; [destruct Hbase; subst; reflexivity|].
  assert (Hma := lookup_mem_columns _ _ _ Ha).
  assert (Hms := lookup_mem_columns _ _ _ Hs).
  assert (Hlr : List.length (fill_median (ratio (s_values a) (s_values s))) = df_len df).
  { rewrite fill_median_length, ratio_length; congruence. }
  assert (Hfa : List.length (fill_median (s_values a)) = df_len df)
    by (rewrite fill_median_length; exact Hla).
  assert (Hfs : List.length (fill_median (s_values s)) = df_len df)
    by (rewrite fill_median_length; exact Hls).
  exists (mkTable (df_len df)
            (map (fun c => (c, if String.eqb c "slack" then fill_median (s_values s)
                               else if String.eqb c "arrival_time"
                                    then fill_median (s_values a)
                                    else fill_median (ratio (s_values a) (s_values s))))
                 (base_columns ++ ["arrival_time_slack_ratio"])%list)),
         (fill_median (ratio (s_values a) (s_values s))).
  split; [|split; [|split; [|split]]].
  - unfold recreate_trained_features.
    destruct Hbase; subst base_columns;
      cbn [forallb negb andb]; rewrite Hma, Hms; cbn [negb andb select];
      rewrite Ha, Hs; cbn [has_duplicates mem existsb orb String.eqb Ascii.eqb Bool.eqb];
      cbn [app filter mem existsb negb orb String.eqb Ascii.eqb Bool.eqb fold_left];
      unfold recreate_feature; rewrite (proj1 ratio_feature_name), (proj2 ratio_feature_name);
      cbn [List.length Nat.leb]; unfold recreate_pair.
    + change (pair_operands ["arrival_time"; "slack"] ["arrival"; "time"; "slack"])
        with (Some ("arrival_time", "slack")).
      cbn -[ratio fill_median Nat.ltb Nat.eqb].
      rewrite Hfa, Hfs, Hlr.
      destruct (df_len df) as [|n]; reflexivity.
    + change (pair_operands ["slack"; "arrival_time"] ["arrival"; "time"; "slack"])
        with (Some ("arrival_time", "slack")).
      cbn -[ratio fill_median Nat.ltb Nat.eqb].
      rewrite Hfa, Hfs, Hlr.
      destruct (df_len df) as [|n]; reflexivity.
  - unfold labels. cbn [cols]. rewrite map_map. cbn [fst]. apply map_id.
  - destruct Hbase; subst base_columns; reflexivity.
  - reflexivity.
  - intros i x y Hx Hy. apply fill_median_present. now apply ratio_nth.
Qed.

(** C9 on a table of one row. *)
Lemma C9_ambiguous_underscore_split_witness :
  exists t column,
    recreate_trained_features
      (mkFrame 1 [("arrival_time", mkSeries float64 [Some 2%R]);
                  ("slack", mkSeries float64 [Some (-1)%R])])
      ["arrival_time"; "slack"; "arrival_time_slack_ratio"]
      ["arrival_time"; "slack"] = Ok t /\
    get t "arrival_time_slack_ratio" = Some column /\
    nth_error column 0 = Some (Some (2 / (Rabs (-1) + 1e-8)))%R.
Proof.
  destruct (C9_ambiguous_underscore_split
              (mkFrame 1 [("arrival_time", mkSeries float64 [Some 2%R]);
                          ("slack", mkSeries float64 [Some (-1)%R])])
              (mkSeries float64 [Some 2%R]) (mkSeries float64 [Some (-1)%R])
              ["arrival_time"; "slack"]
              eq_refl eq_refl eq_refl eq_refl (or_introl eq_refl))
    as (_ & _ & _ & t & column & Ht & _ & Hget & _ & Hrows).
  exists t, column. split; [exact Ht|]. split; [exact Hget|].
  apply (Hrows 0%nat); reflexivity.
Defined.

(** *** Columns of an engineered frame *)

Lemma lookup_assign_same {A : Type} (name : string) (v : A) (l : list (string * A)) :
  lookup name (assign name v l) = Some v.
Proof.
  induction l as [|[k w] rest IH]; simpl.
  - now rewrite String.eqb_refl.
  - destruct (String.eqb k name) eqn:E; simpl; rewrite E; [reflexivity|exact IH].
Qed.

Lemma lookup_assign_other {A : Type} (name k : string) (v : A) (l : list (string * A)) :
  k <> name -> lookup k (assign name v l) = lookup k l.
Proof.
  intros Hne. induction l as [|[k' w] rest IH]; simpl.
  - apply String.eqb_neq in Hne. rewrite String.eqb_sym in Hne. now rewrite Hne.
  - destruct (String.eqb k' name) eqn:E; simpl.
    + apply String.eqb_eq in E. subst k'.
      assert (String.eqb name k = false) as -> by (apply String.eqb_neq; congruence).
      reflexivity.
    + destruct (String.eqb k' k); [reflexivity|exact IH].
Qed.

Lemma assign_labels_fresh {A : Type} (name : string) (v : A) (l : list (string * A)) :
  ~ In name (map fst l) -> map fst (assign name v l) = (map fst l ++ [name])%list.
Proof.
  induction l as [|[k w] rest IH]; simpl; intros Hn; [reflexivity|].
  destruct (String.eqb k name) eqn:E.
  - apply String.eqb_eq in E. tauto.
  - simpl. f_equal. apply IH. tauto.
Qed.

Lemma get_set_same (t : Table) (name : string) (v : list cell) :
  get (set t name v) name = Some v.
Proof. apply lookup_assign_same. Qed.

Lemma get_set_other (t : Table) (name k : string) (v : list cell) :
  k <> name -> get (set t name v) k = get t k.
Proof. apply lookup_assign_other. Qed.

(** An iteration of the reconstruction loop writes at most the column of
    its own feature. *)
Lemma recreate_feature_shape (base_columns : list string) (e : Table) (f : string) :
  recreate_feature base_columns e f = e \/
  exists v, recreate_feature base_columns e f = set e f v.
Proof.
  unfold recreate_feature, recreate_pair, recreate_combined, recreate_unary, set_scalar.
  repeat match goal with
         | |- context [if ?c then _ else _] => destruct c
         | |- context [match ?x with _ => _ end] => destruct x
         end; eauto.
Qed.

Lemma recreate_feature_index (base_columns : list string) (e : Table) (f : string) :
  index_len (recreate_feature base_columns e f) = index_len e.
Proof.
  destruct (recreate_feature_shape base_columns e f) as [->|[v ->]]; reflexivity.
Qed.

Lemma recreate_feature_other (base_columns : list string) (e : Table) (f name : string) :
  name <> f -> get (recreate_feature base_columns e f) name = get e name.
Proof.
  intros Hne.
  destruct (recreate_feature_shape base_columns e f) as [->|[v ->]];
    [reflexivity|now apply get_set_other].
Qed.

Lemma recreate_feature_gives_up (base_columns : list string) (e : Table) (f : string) :
  gives_up base_columns f = true ->
  recreate_feature base_columns e f = set_scalar e f 0.0.
Proof.
  unfold gives_up, recreate_feature, recreate_combined, recreate_unary.
  repeat match goal with
         | |- context [if ?c then _ else _] => destruct c
         end; simpl; intros H; try discriminate; reflexivity.
Qed.

Lemma set_scalar_zero (e : Table) (f : string) :
  set_scalar e f 0.0 = set e f (zeros (index_len e)).
Proof.
  unfold set_scalar, zeros. do 3 f_equal. lra.
Qed.

Lemma loop_keeps_zeros (base_columns : list string) (name : string) :
  gives_up base_columns name = true ->
  forall expected e,
    get e name = Some (zeros (index_len e)) ->
    get (fold_left (recreate_feature base_columns) expected e) name
    = Some (zeros (index_len e)).
Proof.
  intros Hg. induction expected as [|f rest IH]; intros e He; simpl; [exact He|].
  rewrite <- (recreate_feature_index base_columns e f). apply IH.
  rewrite recreate_feature_index.
  destruct (String.eqb_spec name f) as [<-|Hne].
  - rewrite (recreate_feature_gives_up _ _ _ Hg), set_scalar_zero.
    apply get_set_same.
  - now rewrite recreate_feature_other.
Qed.

Lemma loop_zero_fills (base_columns : list string) (name : string) :
  gives_up base_columns name = true ->
  forall expected e,
    In name expected ->
    get (fold_left (recreate_feature base_columns) expected e) name
    = Some (zeros (index_len e)).
Proof.
  intros Hg. induction expected as [|f rest IH]; intros e Hin; [destruct Hin|].
  simpl. rewrite <- (recreate_feature_index base_columns e f).
  destruct (String.eqb_spec name f) as [<-|Hne].
  - apply loop_keeps_zeros; [exact Hg|].
    rewrite (recreate_feature_gives_up _ _ _ Hg), set_scalar_zero.
    cbn [set index_len]. apply get_set_same.
  - apply IH. destruct Hin as [Heq|Hin]; [congruence|exact Hin].
Qed.

Lemma loop_index (base_columns expected : list string) :
  forall e, index_len (fold_left (recreate_feature base_columns) expected e) = index_len e.
Proof.
  induction expected as [|f rest IH]; intros e; simpl; [reflexivity|].
  now rewrite IH, recreate_feature_index.
Qed.

Lemma fill_median_zeros (n : nat) : fill_median (zeros n) = zeros n.
Proof.
  unfold fill_median.
  assert (existsb is_nan (zeros n) = false) as ->; [|reflexivity].
  induction n as [|n IH]; [reflexivity|exact IH].
Qed.

Lemma lookup_map_values {A B : Type} (g : A -> B) (name : string) (l : list (string * A)) :
  lookup name (map (fun kv => (fst kv, g (snd kv))) l) = option_map g (lookup name l).
Proof.
  induction l as [|[k w] rest IH]; simpl; [reflexivity|].
  destruct (String.eqb k name); [reflexivity|exact IH].
Qed.

Lemma get_clean (e : Table) (name : string) :
  get (clean e) name = option_map fill_median (get e name).
Proof. apply lookup_map_values. Qed.

(** *** The final reordering *)

Lemma final_assign_labels (eng f : Table) (col : string) :
  ~ In col (labels f) -> labels (final_assign eng f col) = (labels f ++ [col])%list.
Proof.
  intros Hn. unfold final_assign, set_scalar, set, labels in *.
  destruct (get eng col) as [v|]; cbn [cols].
  - destruct (andb _ _); cbn [cols]; rewrite assign_labels_fresh.
    + now rewrite map_map.
    + now rewrite map_map.
    + reflexivity.
    + exact Hn.
  - now apply assign_labels_fresh.
Qed.

Lemma final_labels (eng : Table) (trained : list string) :
  forall f,
    NoDup (labels f ++ trained) ->
    labels (fold_left (final_assign eng) trained f) = (labels f ++ trained)%list.
Proof.
  induction trained as [|col rest IH]; intros f Hnd; simpl.
  - now rewrite app_nil_r.
  - assert (Hfresh : ~ In col (labels f)).
    { intros Hin. apply NoDup_remove_2 in Hnd. apply Hnd.
      apply in_or_app. now left. }
    rewrite IH; rewrite final_assign_labels by exact Hfresh.
    + now rewrite <- app_assoc.
    + now rewrite <- app_assoc.
Qed.

Lemma final_keeps_column (eng : Table) (name : string) (v : list cell) :
  get eng name = Some v ->
  forall trained f,
    get f name = Some v -> index_len f <> 0%nat ->
    get (fold_left (final_assign eng) trained f) name = Some v.
Proof.
  intros Hv. induction trained as [|col rest IH]; intros f Hf Hi; simpl; [exact Hf|].
  assert (Hz : Nat.eqb (index_len f) 0 = false) by now apply Nat.eqb_neq.
  apply IH.
  - unfold final_assign. destruct (String.eqb_spec name col) as [<-|Hne].
    + rewrite Hv, Hz. apply get_set_same.
    + destruct (get eng col) as [w|].
      * rewrite Hz. cbn [andb]. now rewrite get_set_other.
      * unfold set_scalar. now rewrite get_set_other.
  - unfold final_assign. destruct (get eng col) as [w|].
    + now rewrite Hz.
    + exact Hi.
Qed.

Lemma final_takes_column (eng : Table) (name : string) (v : list cell) :
  get eng name = Some v -> v <> [] ->
  forall trained f,
    In name trained ->
    get (fold_left (final_assign eng) trained f) name = Some v.
Proof.
  intros Hv Hne. induction trained as [|col rest IH]; intros f Hin; [destruct Hin|].
  simpl. destruct (String.eqb_spec name col) as [<-|Hneq].
  - apply (final_keeps_column eng name v Hv).
    + unfold final_assign. rewrite Hv. apply get_set_same.
    + unfold final_assign. rewrite Hv.
      destruct (Nat.eqb (index_len f) 0) eqn:Hz.
      * destruct v as [|c v]; [congruence|]. cbn. discriminate.
      * cbn [andb set index_len]. now apply Nat.eqb_neq.
  - apply IH. destruct Hin as [Heq|Hin]; [congruence|exact Hin].
Qed.

Lemma select_present (df : DataFrame cell) (names : list string) :
  (forall col, In col names -> mem col (columns df) = true) ->
  exists picked, select df names = Some picked.
Proof.
  induction names as [|name rest IH]; intros H; simpl; [eauto|].
  destruct IH as [picked ->]; [intros col Hc; apply H; now right|].
  assert (Hm : mem name (columns df) = true) by (apply H; now left).
  destruct (lookup name (df_columns df)) as [s|] eqn:E; [eauto|].
  exfalso. apply mem_true_iff in Hm. unfold columns in Hm.
  induction (df_columns df) as [|[k v] l IHl]; simpl in *; [assumption|].
  destruct (String.eqb_spec k name) as [->|Hne]; [discriminate|].
  destruct Hm as [Hk|Hm]; [congruence|]. now apply IHl.
Qed.

(** *** The round trip on a table with the column "aspect_ratio" *)

Lemma create_aspect_ratio :
  create_dynamic_features
    (mkFrame 1 [("aspect_ratio", mkSeries float64 [Some 2%R])]) ["aspect_ratio"]
  = Ok (mkTable 1 [("aspect_ratio", [Some 2%R]);
                   ("aspect_ratio_squared", [Some (2 * 2)%R]);
                   ("aspect_ratio_log", [Some (ln (2 + 1e-8))])]).
Proof.
  unfold create_dynamic_features.
  cbn [select lookup df_columns String.eqb Ascii.eqb Bool.eqb s_values
       has_duplicates mem existsb orb df_len].
  change (numeric_cols (mkFrame 1 [("aspect_ratio", mkSeries float64 [Some 2%R])]))
    with ["aspect_ratio"].
  cbn [pair_features fold_left].
  change (add_combined "delay" "combined_delays" ["aspect_ratio"]
            (mkTable 1 [("aspect_ratio", [Some 2%R])]))
    with (mkTable 1 [("aspect_ratio", [Some 2%R])]).
  change (add_combined "count" "combined_counts" ["aspect_ratio"]
            (mkTable 1 [("aspect_ratio", [Some 2%R])]))
    with (mkTable 1 [("aspect_ratio", [Some 2%R])]).
  unfold add_statistical.
  cbn [mem existsb orb String.eqb Ascii.eqb Bool.eqb].
  change (get (mkTable 1 [("aspect_ratio", [Some 2%R])]) "aspect_ratio")
    with (Some [Some 2%R]).
  cbn iota.
  change (get (set (mkTable 1 [("aspect_ratio", [Some 2%R])])
                 ("aspect_ratio" ++ "_squared") (squared [Some 2%R])) "aspect_ratio")
    with (Some [Some 2%R]).
  cbn iota. unfold any_positive, is_positive, log_column. cbn [existsb map].
  destruct (Rgt_dec 2 0) as [_|Hn]; [|exfalso; lra].
  cbn [orb]. reflexivity.
Qed.

Lemma recreate_aspect_ratio :
  recreate_trained_features
    (mkFrame 1 [("aspect_ratio", mkSeries float64 [Some 2%R])])
    ["aspect_ratio"; "aspect_ratio_squared"; "aspect_ratio_log"] ["aspect_ratio"]
  = Ok (mkTable 1 [("aspect_ratio", [Some 2%R]);
                   ("aspect_ratio_squared", [Some 0.0%R]);
                   ("aspect_ratio_log", [Some 0.0%R])]).
Proof. reflexivity. Qed.

Lemma add_combined_few (word label : string) (base_columns : list string) (e : Table) :
  Nat.ltb 1 (List.length (columns_with word base_columns)) = false ->
  add_combined word label base_columns e = e.
Proof. intros H. unfold add_combined. now rewrite H. Qed.

Lemma round_trip_plain_names :
  exists t,
    create_dynamic_features
      (mkFrame 1 [("a", mkSeries float64 [Some 2%R]); ("b", mkSeries float64 [Some (-1)%R])])
      ["a"; "b"] = Ok t /\
    labels t = ["a"; "b"; "a_b_ratio"; "a_b_interaction"; "a_squared"; "a_log"; "b_squared"] /\
    recreate_trained_features
      (mkFrame 1 [("a", mkSeries float64 [Some 2%R]); ("b", mkSeries float64 [Some (-1)%R])])
      (labels t) ["a"; "b"] = Ok t.
Proof.
  assert (Hpos : is_positive (Some 2%R) = true).
  { unfold is_positive. destruct (Rgt_dec 2 0); [reflexivity|lra]. }
  assert (Hneg : is_positive (Some (-1)%R) = false).
  { unfold is_positive. destruct (Rgt_dec (-1) 0); [lra|reflexivity]. }
  assert (Hlog : log_column [Some 2%R] = [Some (ln (2 + 1e-8))]).
  { unfold log_column. cbn [map]. destruct (Rgt_dec 2 0); [reflexivity|lra]. }
  exists (mkTable 1 [("a", [Some 2%R]); ("b", [Some (-1)%R]);
                     ("a_b_ratio", ratio [Some 2%R] [Some (-1)%R]);
                     ("a_b_interaction", interaction [Some 2%R] [Some (-1)%R]);
                     ("a_squared", squared [Some 2%R]);
                     ("a_log", [Some (ln (2 + 1e-8))]);
                     ("b_squared", squared [Some (-1)%R])]).
  split; [|split].
  - unfold create_dynamic_features.
    cbn [select lookup df_columns String.eqb Ascii.eqb Bool.eqb s_values
         has_duplicates mem existsb orb df_len].
    change (numeric_cols _) with ["a"; "b"].
    cbn [pair_features fold_left mem existsb orb andb String.eqb Ascii.eqb Bool.eqb].
    unfold add_pair.
    cbn [get cols lookup String.eqb Ascii.eqb Bool.eqb].
    rewrite !add_combined_few by reflexivity.
    cbn [fold_left]. unfold add_statistical.
    cbn [mem existsb orb String.eqb Ascii.eqb Bool.eqb].
    cbn [get set cols lookup assign String.eqb Ascii.eqb Bool.eqb append].
    unfold any_positive. cbn [existsb]. rewrite Hpos. cbn [orb].
    cbn [get set cols lookup assign String.eqb Ascii.eqb Bool.eqb append index_len].
    cbn [existsb]. rewrite Hneg. cbn [orb]. rewrite Hlog.
    reflexivity.
  - reflexivity.
  - unfold recreate_trained_features.
    cbn [labels cols map fst].
    change (negb (forallb _ ["a"; "b"])) with false. cbn iota.
    cbn [select lookup df_columns String.eqb Ascii.eqb Bool.eqb s_values
         has_duplicates mem existsb orb df_len].
    cbn [filter negb mem existsb orb String.eqb Ascii.eqb Bool.eqb].
    cbn [fold_left].
    match goal with
    | |- context [clean ?e] =>
        replace e with
          (mkTable 1 [("a", [Some 2%R]); ("b", [Some (-1)%R]);
                      ("a_b_ratio", ratio [Some 2%R] [Some (-1)%R]);
                      ("a_b_interaction", interaction [Some 2%R] [Some (-1)%R]);
                      ("a_squared", squared [Some 2%R]);
                      ("a_log", log_column [Some 2%R]);
                      ("b_squared", squared [Some (-1)%R])])
          by reflexivity
    end.
    rewrite Hlog. reflexivity.
Qed.

(** C1.  The round trip fails on the code, against the docstring of
    [recreate_trained_features] ("Recreate the exact same features that were
    used during training").  On a table whose only column is "aspect_ratio"
    = 2 the Feature Engineer adds its square (4) and its log, and the Feature
    Reconstructor, given the ordered names of these columns, the unchanged
    table and the same base column, tests ['_ratio' in feature_name] before
    the suffix rules: it reads "aspect_ratio_squared" and "aspect_ratio_log"
    as ratio features, finds no operands and leaves both to the zero fill.
    The two tables have the same labels and differ in values. *)
Theorem C1_round_trip_fails_on_aspect_ratio :
  exists engineered reconstructed,
    create_dynamic_features
      (mkFrame 1 [("aspect_ratio", mkSeries float64 [Some 2%R])]) ["aspect_ratio"]
    = Ok engineered /\
    recreate_trained_features
      (mkFrame 1 [("aspect_ratio", mkSeries float64 [Some 2%R])])
      (labels engineered) ["aspect_ratio"]
    = Ok reconstructed /\
    labels reconstructed = labels engineered /\
    get engineered "aspect_ratio_squared" = Some [Some (2 * 2)%R] /\
    get reconstructed "aspect_ratio_squared" = Some [Some 0%R] /\
    reconstructed <> engineered.
Proof.
  eexists. eexists. split; [apply create_aspect_ratio|].
  split; [apply recreate_aspect_ratio|].
  split; [reflexivity|]. split; [reflexivity|]. split.
  - cbn. do 3 f_equal. lra.
  - intros H. injection H as H _. lra.
Qed.

(** *** Names that read back without ambiguity *)

Lemma append_empty_r (s : string) : s ++ "" = s.
Proof. induction s as [|c r IH]; simpl; [reflexivity|now rewrite IH]. Qed.

Lemma append_assoc (a b c : string) : (a ++ b) ++ c = a ++ b ++ c.
Proof. induction a as [|x r IH]; simpl; [reflexivity|now rewrite IH]. Qed.

(** A pattern that begins with the separator is not found inside a name
    that is free of it. *)
Lemma contains_skip (sub' c t : string) :
  free_of "_" c = true ->
  contains (String "_" sub') (c ++ t) = contains (String "_" sub') t.
Proof.
  induction c as [|a r IH]; intros Hf; [reflexivity|].
  simpl in Hf. apply andb_true_iff in Hf. destruct Hf as [Ha Hr].
  apply negb_true_iff in Ha.
  cbn [append contains String.prefix].
  destruct (ascii_dec "_" a) as [E|E].
  - subst a. rewrite Ascii.eqb_refl in Ha. discriminate.
  - now apply IH.
Qed.

Lemma prefix_before_sep (p c t : string) :
  free_of "_" p = true ->
  String.prefix p (c ++ String "_" t) = true -> String.prefix p c = true.
Proof.
  revert c. induction p as [|a p' IH]; intros c Hf H.
  - now destruct c.
  - simpl in Hf. apply andb_true_iff in Hf. destruct Hf as [Ha Hp].
    apply negb_true_iff in Ha.
    destruct c as [|b c']; cbn [append String.prefix] in *.
    + destruct (ascii_dec a "_") as [E|E]; [|discriminate].
      subst a. rewrite Ascii.eqb_refl in Ha. discriminate.
    + destruct (ascii_dec a b); [|discriminate]. now apply IH.
Qed.

Lemma remove_skip (old' c t : string) :
  free_of "_" c = true ->
  remove_all (String "_" old') (c ++ t) = c ++ remove_all (String "_" old') t.
Proof.
  unfold remove_all. induction c as [|a r IH]; intros Hf; [reflexivity|].
  simpl in Hf. apply andb_true_iff in Hf. destruct Hf as [Ha Hr].
  apply negb_true_iff in Ha.
  cbn [append remove_from String.prefix].
  destruct (ascii_dec "_" a) as [E|E].
  - subst a. rewrite Ascii.eqb_refl in Ha. discriminate.
  - now rewrite IH.
Qed.

Lemma endswith_self_append (suffix c : string) : endswith suffix (c ++ suffix) = true.
Proof.
  induction c as [|a r IH]; cbn [append].
  - destruct suffix; simpl; [reflexivity|now rewrite Ascii.eqb_refl, String.eqb_refl].
  - cbn [endswith]. destruct (String.eqb suffix (String a (r ++ suffix))); [reflexivity|exact IH].
Qed.

Lemma endswith_skip (suffix' c t : string) :
  free_of "_" c = true ->
  endswith (String "_" suffix') (c ++ t) = endswith (String "_" suffix') t.
Proof.
  induction c as [|a r IH]; intros Hf; [reflexivity|].
  simpl in Hf. apply andb_true_iff in Hf. destruct Hf as [Ha Hr].
  apply negb_true_iff in Ha.
  cbn [append endswith String.eqb].
  rewrite Ascii.eqb_sym, Ha. now apply IH.
Qed.

Lemma plain_free (c : string) : plain c = true -> free_of "_" c = true.
Proof. unfold plain. intros H. now apply andb_true_iff in H. Qed.

Lemma plain_not_ratio (c t : string) :
  plain c = true -> String.prefix "ratio" (c ++ String "_" t) = false.
Proof.
  unfold plain. rewrite !andb_true_iff, !negb_true_iff. intros (_ & Hr & _).
  destruct (String.prefix "ratio" (c ++ String "_" t)) eqn:E; [|reflexivity].
  apply prefix_before_sep in E; [congruence|reflexivity].
Qed.

Lemma plain_not_interaction (c t : string) :
  plain c = true -> String.prefix "interaction" (c ++ String "_" t) = false.
Proof.
  unfold plain. rewrite !andb_true_iff, !negb_true_iff. intros (_ & _ & Hi).
  destruct (String.prefix "interaction" (c ++ String "_" t)) eqn:E; [|reflexivity].
  apply prefix_before_sep in E; [congruence|reflexivity].
Qed.

(** The names the Feature Engineer builds from plain columns. *)

Lemma pair_name_contains_ratio (c1 c2 : string) :
  plain c1 = true -> contains "_ratio" (c1 ++ "_" ++ c2 ++ "_ratio") = true.
Proof.
  intros H1. rewrite contains_skip by now apply plain_free.
  cbn [append contains String.prefix].
  destruct (ascii_dec "_" "_"); [|congruence].
  destruct (String.prefix "ratio" (c2 ++ "_ratio")); [reflexivity|].
  clear. induction c2 as [|a r IH]; [reflexivity|].
  cbn [append contains]. destruct (String.prefix "_ratio" _); [reflexivity|exact IH].
Qed.

Lemma pair_name_remove_ratio (c1 c2 : string) :
  plain c1 = true -> plain c2 = true ->
  remove_all "_ratio" (c1 ++ "_" ++ c2 ++ "_ratio") = c1 ++ "_" ++ c2.
Proof.
  intros H1 H2. rewrite remove_skip by now apply plain_free.
  f_equal. unfold remove_all. cbn [append remove_from String.prefix].
  destruct (ascii_dec "_" "_"); [|congruence].
  change (c2 ++ "_ratio") with (c2 ++ String "_" "ratio").
  rewrite (plain_not_ratio c2 "ratio" H2).
  f_equal. fold (remove_all "_ratio" (c2 ++ String "_" "ratio")).
  rewrite remove_skip by now apply plain_free.
  change (remove_all "_ratio" "_ratio") with "". apply append_empty_r.
Qed.

Lemma pair_name_no_ratio (c1 c2 : string) :
  plain c1 = true -> plain c2 = true ->
  contains "_ratio" (c1 ++ "_" ++ c2 ++ "_interaction") = false.
Proof.
  intros H1 H2. rewrite contains_skip by now apply plain_free.
  cbn [append contains String.prefix].
  destruct (ascii_dec "_" "_"); [|congruence].
  change (c2 ++ "_interaction") with (c2 ++ String "_" "interaction").
  rewrite (plain_not_ratio c2 "interaction" H2).
  now rewrite contains_skip by now apply plain_free.
Qed.

Lemma pair_name_contains_interaction (c1 c2 : string) :
  plain c1 = true ->
  contains "_interaction" (c1 ++ "_" ++ c2 ++ "_interaction") = true.
Proof.
  intros H1. rewrite contains_skip by now apply plain_free.
  cbn [append contains String.prefix].
  destruct (ascii_dec "_" "_"); [|congruence].
  destruct (String.prefix "interaction" (c2 ++ "_interaction")); [reflexivity|].
  clear. induction c2 as [|a r IH]; [reflexivity|].
  cbn [append contains]. destruct (String.prefix "_interaction" _); [reflexivity|exact IH].
Qed.

Lemma pair_name_remove_interaction (c1 c2 : string) :
  plain c1 = true -> plain c2 = true ->
  remove_all "_interaction" (c1 ++ "_" ++ c2 ++ "_interaction") = c1 ++ "_" ++ c2.
Proof.
  intros H1 H2. rewrite remove_skip by now apply plain_free.
  f_equal. unfold remove_all. cbn [append remove_from String.prefix].
  destruct (ascii_dec "_" "_"); [|congruence].
  change (c2 ++ "_interaction") with (c2 ++ String "_" "interaction").
  rewrite (plain_not_interaction c2 "interaction" H2).
  f_equal. fold (remove_all "_interaction" (c2 ++ String "_" "interaction")).
  rewrite remove_skip by now apply plain_free.
  change (remove_all "_interaction" "_interaction") with "". apply append_empty_r.
Qed.

Lemma pair_name_split (c1 c2 : string) :
  plain c1 = true -> plain c2 = true ->
  split "_" (c1 ++ "_" ++ c2) = [c1; c2].
Proof.
  intros H1 H2. change (c1 ++ "_" ++ c2) with (c1 ++ String "_" c2).
  rewrite split_append, !split_free by now apply plain_free. reflexivity.
Qed.

Lemma pair_name_operands (base_columns : list string) (c1 c2 : string) :
  mem c1 base_columns = true -> mem c2 base_columns = true ->
  pair_operands base_columns [c1; c2] = Some (c1, c2).
Proof.
  intros H1 H2. unfold pair_operands. cbn [List.length Nat.sub seq find_split firstn skipn join String.concat].
  now rewrite H1, H2.
Qed.

Lemma assign_same_value {A : Type} (name : string) (v : A) (l : list (string * A)) :
  lookup name l = Some v -> assign name v l = l.
Proof.
  induction l as [|[k w] rest IH]; simpl; [discriminate|].
  destruct (String.eqb k name); [intros H; now inversion H|].
  intros H. now rewrite IH.
Qed.

Lemma assign_labels_present {A : Type} (name : string) (v : A) (l : list (string * A)) :
  In name (map fst l) -> map fst (assign name v l) = map fst l.
Proof.
  induction l as [|[k w] rest IH]; simpl; [tauto|].
  destruct (String.eqb_spec k name) as [->|Hne]; [reflexivity|].
  intros [H|H]; [congruence|]. simpl. now rewrite IH.
Qed.

Lemma assign_labels_NoDup {A : Type} (name : string) (v : A) (l : list (string * A)) :
  NoDup (map fst l) -> NoDup (map fst (assign name v l)).
Proof.
  intros Hnd. destruct (in_dec string_dec name (map fst l)) as [Hin|Hnin].
  - now rewrite assign_labels_present.
  - rewrite assign_labels_fresh by exact Hnin.
    apply NoDup_app; [exact Hnd|repeat constructor; simpl; tauto|].
    intros x Hx [<-|[]]. contradiction.
Qed.

Lemma assign_Forall {A : Type} (P : string * A -> Prop) (name : string) (v : A)
    (l : list (string * A)) :
  (forall k, P (k, v)) -> Forall P l -> Forall P (assign name v l).
Proof.
  intros Hv. induction 1 as [|[k w] rest Hk Hrest IH]; simpl.
  - constructor; [apply Hv|constructor].
  - destruct (String.eqb k name); constructor; auto.
Qed.

Lemma same_base_set (base_columns : list string) (e0 e : Table) (name : string)
    (v : list cell) :
  mem name base_columns = false ->
  same_base base_columns e0 e -> same_base base_columns e0 (set e name v).
Proof.
  intros Hn [Hi Hg]. split; [exact Hi|].
  intros c Hc. rewrite get_set_other; [now apply Hg|]. congruence.
Qed.

Lemma same_base_step (base_columns : list string) (e0 e : Table) (f : string) :
  mem f base_columns = false ->
  same_base base_columns e0 e ->
  same_base base_columns e0 (recreate_feature base_columns e f).
Proof.
  intros Hf Hs.
  destruct (recreate_feature_shape base_columns e f) as [->|[v ->]];
    [exact Hs|now apply same_base_set].
Qed.

(** Once written, the column of a rebuilt feature keeps its value. *)
Lemma replay_keeps (base_columns : list string) (e0 : Table) (name : string)
    (v : list cell) :
  rebuilds base_columns e0 name v ->
  forall l e,
    (forall f, In f l -> mem f base_columns = false) ->
    same_base base_columns e0 e ->
    get e name = Some v ->
    get (fold_left (recreate_feature base_columns) l e) name = Some v.
Proof.
  intros (Hn & _ & Hr). induction l as [|f rest IH]; intros e Hl Hs Hg; [exact Hg|].
  simpl. apply IH.
  - intros g Hg'. apply Hl. now right.
  - apply same_base_step; [apply Hl; now left|exact Hs].
  - destruct (String.eqb_spec name f) as [<-|Hne].
    + rewrite (Hr e Hs). apply get_set_same.
    + now rewrite recreate_feature_other.
Qed.

Lemma replay_writes (base_columns : list string) (e0 : Table) (name : string)
    (v : list cell) :
  rebuilds base_columns e0 name v ->
  forall l e,
    (forall f, In f l -> mem f base_columns = false) ->
    same_base base_columns e0 e ->
    In name l ->
    get (fold_left (recreate_feature base_columns) l e) name = Some v.
Proof.
  intros Hreb. induction l as [|f rest IH]; intros e Hl Hs Hin; [destruct Hin|].
  simpl. destruct (String.eqb_spec name f) as [<-|Hne].
  - apply (replay_keeps _ _ _ _ Hreb).
    + intros g Hg. apply Hl. now right.
    + apply same_base_step; [apply Hl; now left|exact Hs].
    + destruct Hreb as (_ & _ & Hr). rewrite (Hr e Hs). apply get_set_same.
  - apply IH.
    + intros g Hg. apply Hl. now right.
    + apply same_base_step; [apply Hl; now left|exact Hs].
    + destruct Hin as [Heq|Hin]; [congruence|exact Hin].
Qed.

Lemma filter_engineered_spec (base_columns l : list string) (f : string) :
  In f (filter (fun c => negb (mem c base_columns)) l) -> mem f base_columns = false.
Proof. intros H. apply filter_In in H. now apply negb_true_iff. Qed.

(** One assignment of the Feature Engineer, replayed by the loop. *)
Lemma replayed_set (base_columns : list string) (e0 e : Table) (name : string)
    (v : list cell) :
  replayed base_columns e0 e ->
  rebuilds base_columns e0 name v ->
  replayed base_columns e0 (set e name v).
Proof.
  intros (Hs & Hfold & Hnd & Hlen) Hreb.
  pose proof Hreb as (Hn & Hv & Hr).
  split; [now apply same_base_set|]. split; [|split].
  - destruct (in_dec string_dec name (labels e)) as [Hin|Hnin].
    + assert (Hg : get e name = Some v).
      { rewrite <- Hfold at 1. apply (replay_writes _ _ _ _ Hreb).
        - intros f. apply filter_engineered_spec.
        - split; [reflexivity|tauto].
        - apply filter_In. split; [exact Hin|now rewrite Hn]. }
      unfold set. rewrite (assign_same_value _ _ _ Hg).
      destruct e as [n c]. exact Hfold.
    + unfold labels, set in *. cbn [cols].
      rewrite assign_labels_fresh by exact Hnin.
      rewrite filter_app, fold_left_app. cbn [filter]. rewrite Hn. cbn [negb fold_left].
      rewrite Hfold. apply (Hr e Hs).
  - apply assign_labels_NoDup. exact Hnd.
  - apply assign_Forall; [intros k; exact Hv|exact Hlen].
Qed.

Lemma filter_base_nil (base_columns l : list string) :
  (forall c, In c l -> mem c base_columns = true) ->
  filter (fun c => negb (mem c base_columns)) l = [].
Proof.
  induction l as [|c rest IH]; intros H; [reflexivity|].
  simpl. rewrite (H c) by now left. simpl. apply IH.
  intros c' Hc'. apply H. now right.
Qed.

Lemma replayed_start (base_columns : list string) (e0 : Table) :
  labels e0 = base_columns ->
  NoDup base_columns ->
  Forall (fun kv => List.length (snd kv) = index_len e0) (cols e0) ->
  replayed base_columns e0 e0.
Proof.
  intros Hl Hnd Hlen. split; [split; [reflexivity|tauto]|]. split; [|split].
  - rewrite Hl, filter_base_nil; [reflexivity|].
    intros c Hc. now apply mem_true_iff.
  - now rewrite Hl.
  - exact Hlen.
Qed.

(** *** What the loop rebuilds from plain names *)

Lemma free_of_sep_append (c t : string) : free_of "_" (c ++ String "_" t) = false.
Proof.
  induction c as [|a r IH]; cbn [append free_of].
  - reflexivity.
  - rewrite IH. apply andb_false_r.
Qed.

Section Plain.

Variable base_columns : list string.
Variable e0 : Table.
Hypothesis base_plain : forall c, mem c base_columns = true -> plain c = true.
Hypothesis e0_lengths :
  Forall (fun kv => List.length (snd kv) = index_len e0) (cols e0).

Lemma engineered_name_fresh (c t : string) :
  mem (c ++ String "_" t) base_columns = false.
Proof.
  destruct (mem (c ++ String "_" t) base_columns) eqn:E; [|reflexivity].
  apply base_plain, plain_free in E. now rewrite free_of_sep_append in E.
Qed.

Lemma e0_length (c : string) (v : list cell) :
  get e0 c = Some v -> List.length v = index_len e0.
Proof.
  unfold get. intros H. revert e0_lengths.
  induction (cols e0) as [|[k w] rest IH]; simpl in *; [discriminate|].
  intros Hf. inversion Hf; subst.
  destruct (String.eqb k c); [inversion H; subst; assumption|now apply IH].
Qed.

Lemma rebuilds_ratio (c1 c2 : string) (v1 v2 : list cell) :
  mem c1 base_columns = true -> mem c2 base_columns = true ->
  get e0 c1 = Some v1 -> get e0 c2 = Some v2 ->
  rebuilds base_columns e0 (c1 ++ "_" ++ c2 ++ "_ratio") (ratio v1 v2).
Proof.
  intros H1 H2 G1 G2. split; [apply engineered_name_fresh|]. split.
  - rewrite ratio_length; [now apply (e0_length c1)|].
    rewrite (e0_length c1 v1 G1). symmetry. now apply (e0_length c2).
  - intros e [_ Hg]. unfold recreate_feature.
    rewrite pair_name_contains_ratio, pair_name_remove_ratio, pair_name_split
      by now apply base_plain.
    cbn [List.length Nat.leb]. unfold recreate_pair.
    rewrite pair_name_operands by assumption.
    now rewrite (Hg c1 H1), (Hg c2 H2), G1, G2.
Qed.

Lemma rebuilds_interaction (c1 c2 : string) (v1 v2 : list cell) :
  mem c1 base_columns = true -> mem c2 base_columns = true ->
  get e0 c1 = Some v1 -> get e0 c2 = Some v2 ->
  rebuilds base_columns e0 (c1 ++ "_" ++ c2 ++ "_interaction") (interaction v1 v2).
Proof.
  intros H1 H2 G1 G2. split; [apply engineered_name_fresh|]. split.
  - unfold interaction, zip_with. rewrite length_map, length_combine.
    rewrite (e0_length c1 v1 G1), (e0_length c2 v2 G2). apply Nat.min_id.
  - intros e [_ Hg]. unfold recreate_feature.
    rewrite pair_name_no_ratio, pair_name_contains_interaction,
      pair_name_remove_interaction, pair_name_split by now apply base_plain.
    cbn [List.length Nat.leb]. unfold recreate_pair.
    rewrite pair_name_operands by assumption.
    now rewrite (Hg c1 H1), (Hg c2 H2), G1, G2.
Qed.

Lemma unary_name_differs (c suffix' other : string) :
  endswith (String "_" suffix') other = false -> String.eqb (c ++ String "_" suffix') other = false.
Proof.
  intros H. apply String.eqb_neq. intros E. rewrite <- E in H.
  now rewrite endswith_self_append in H.
Qed.

Lemma rebuilds_squared (c : string) (v : list cell) :
  mem c base_columns = true -> get e0 c = Some v ->
  rebuilds base_columns e0 (c ++ "_squared") (squared v).
Proof.
  intros H G. split; [apply engineered_name_fresh|]. split.
  - unfold squared. rewrite length_map. now apply (e0_length c).
  - intros e [_ Hg]. unfold recreate_feature.
    pose proof (plain_free _ (base_plain _ H)) as Hf.
    rewrite !contains_skip by exact Hf.
    change (contains "_ratio" "_squared") with false.
    change (contains "_interaction" "_squared") with false.
    rewrite !(unary_name_differs c "squared") by reflexivity.
    rewrite endswith_self_append. unfold recreate_unary.
    rewrite remove_skip by exact Hf.
    change (remove_all "_squared" "_squared") with "". rewrite append_empty_r.
    now rewrite H, (Hg c H), G.
Qed.

Lemma rebuilds_log (c : string) (v : list cell) :
  mem c base_columns = true -> get e0 c = Some v ->
  rebuilds base_columns e0 (c ++ "_log") (log_column v).
Proof.
  intros H G. split; [apply engineered_name_fresh|]. split.
  - unfold log_column. rewrite length_map. now apply (e0_length c).
  - intros e [_ Hg]. unfold recreate_feature.
    pose proof (plain_free _ (base_plain _ H)) as Hf.
    rewrite !contains_skip by exact Hf.
    change (contains "_ratio" "_log") with false.
    change (contains "_interaction" "_log") with false.
    rewrite !(unary_name_differs c "log") by reflexivity.
    rewrite (endswith_skip "squared" c "_log") by exact Hf.
    change (endswith "_squared" "_log") with false. cbn iota.
    rewrite endswith_self_append. unfold recreate_unary.
    rewrite remove_skip by exact Hf.
    change (remove_all "_log" "_log") with "". rewrite append_empty_r.
    now rewrite H, (Hg c H), G.
Qed.

Lemma row_sum_same (e : Table) (names : list string) :
  (forall c, In c names -> get e c = get e0 c) ->
  forall acc, row_sum e names acc = row_sum e0 names acc.
Proof.
  induction names as [|name rest IH]; intros H acc; [reflexivity|].
  simpl. rewrite (H name) by now left.
  destruct (get e0 name); [|reflexivity]. apply IH.
  intros c Hc. apply H. now right.
Qed.

Lemma row_sum_length (names : list string) :
  forall acc out,
    List.length acc = index_len e0 ->
    row_sum e0 names acc = Some out -> List.length out = index_len e0.
Proof.
  induction names as [|name rest IH]; intros acc out Hacc H; simpl in H.
  - now inversion H; subst.
  - destruct (get e0 name) as [v|] eqn:G; [|discriminate].
    apply IH in H; [exact H|].
    rewrite length_map, length_combine, Hacc, (e0_length name v G). apply Nat.min_id.
Qed.

Lemma columns_with_base (word c : string) :
  In c (columns_with word base_columns) -> mem c base_columns = true.
Proof.
  unfold columns_with. intros H. apply filter_In in H. now apply mem_true_iff.
Qed.

Lemma rebuilds_combined (word label : string) (v : list cell) :
  (label = "combined_delays" /\ word = "delay") \/
  (label = "combined_counts" /\ word = "count") ->
  Nat.ltb 1 (List.length (columns_with word base_columns)) = true ->
  sum_axis1 e0 (columns_with word base_columns) = Some v ->
  rebuilds base_columns e0 label v.
Proof.
  intros Hl Hmany Hsum. split; [|split].
  - destruct Hl as [[-> _]|[-> _]].
    + apply (engineered_name_fresh "combined" "delays").
    + apply (engineered_name_fresh "combined" "counts").
  - unfold sum_axis1 in Hsum.
    destruct (row_sum e0 _ _) as [acc|] eqn:E; [|discriminate].
    inversion Hsum; subst. rewrite length_map.
    apply row_sum_length in E; [exact E|apply repeat_length].
  - intros e [Hi Hg].
    assert (Hs : sum_axis1 e (columns_with word base_columns) = Some v).
    { unfold sum_axis1 in *. rewrite Hi, row_sum_same; [exact Hsum|].
      intros c Hc. apply Hg. now apply (columns_with_base word). }
    destruct Hl as [[-> ->]|[-> ->]]; unfold recreate_feature;
      cbn [contains String.prefix String.eqb Ascii.eqb Bool.eqb];
      unfold recreate_combined; now rewrite Hmany, Hs.
Qed.

End Plain.

(** *** The Feature Engineer, one phase at a time *)

Section PlainEngineer.

Variable base_columns : list string.
Variable e0 : Table.
Hypothesis base_plain : forall c, mem c base_columns = true -> plain c = true.
Hypothesis e0_lengths :
  Forall (fun kv => List.length (snd kv) = index_len e0) (cols e0).

Lemma add_pair_replayed (c1 c2 : string) (e : Table) :
  mem c1 base_columns = true -> mem c2 base_columns = true ->
  replayed base_columns e0 e -> replayed base_columns e0 (add_pair c1 c2 e).
Proof.
  intros H1 H2 He. pose proof He as ((_ & Hg) & _).
  unfold add_pair. rewrite (Hg c1 H1), (Hg c2 H2).
  destruct (get e0 c1) as [v1|] eqn:G1; [|exact He].
  destruct (get e0 c2) as [v2|] eqn:G2; [|exact He].
  apply replayed_set; [apply replayed_set; [exact He|]|].
  - now apply rebuilds_ratio.
  - now apply rebuilds_interaction.
Qed.

Lemma pair_row_replayed (col1 : string) (rest : list string) :
  forall e,
    replayed base_columns e0 e ->
    replayed base_columns e0
      (fold_left
         (fun e' col2 =>
            if andb (mem col1 base_columns) (mem col2 base_columns)
            then add_pair col1 col2 e' else e')
         rest e).
Proof.
  induction rest as [|col2 rest' IHr]; intros e He; [exact He|].
  cbn [fold_left]. apply IHr.
  destruct (mem col1 base_columns) eqn:H1; [|exact He].
  destruct (mem col2 base_columns) eqn:H2; [|exact He].
  now apply add_pair_replayed.
Qed.

Lemma pair_features_replayed (numeric : list string) :
  forall e,
    replayed base_columns e0 e ->
    replayed base_columns e0 (pair_features base_columns numeric e).
Proof.
  induction numeric as [|col1 rest IH]; intros e He; [exact He|].
  cbn [pair_features]. apply IH. now apply pair_row_replayed.
Qed.

Lemma sum_axis1_same (e : Table) (names : list string) :
  same_base base_columns e0 e ->
  (forall c, In c names -> mem c base_columns = true) ->
  sum_axis1 e names = sum_axis1 e0 names.
Proof.
  intros [Hi Hg] Hn. unfold sum_axis1. rewrite Hi, (row_sum_same e0 e); [reflexivity|].
  intros c Hc. apply Hg. now apply Hn.
Qed.

Lemma add_combined_replayed (word label : string) (e : Table) :
  (label = "combined_delays" /\ word = "delay") \/
  (label = "combined_counts" /\ word = "count") ->
  replayed base_columns e0 e ->
  replayed base_columns e0 (add_combined word label base_columns e).
Proof.
  intros Hl He. pose proof He as (Hs & _). unfold add_combined.
  destruct (Nat.ltb 1 _) eqn:Hmany; [|exact He].
  rewrite (sum_axis1_same e _ Hs) by apply columns_with_base.
  destruct (sum_axis1 e0 _) as [v|] eqn:Hsum; [|exact He].
  apply replayed_set; [exact He|].
  now apply (rebuilds_combined base_columns e0 base_plain e0_lengths word label v).
Qed.

Lemma add_statistical_replayed (numeric : list string) (e : Table) (col : string) :
  mem col base_columns = true ->
  replayed base_columns e0 e ->
  replayed base_columns e0 (add_statistical numeric e col).
Proof.
  intros Hc He. pose proof He as ((_ & Hg) & _). unfold add_statistical.
  destruct (mem col numeric); [|exact He].
  rewrite (Hg col Hc). destruct (get e0 col) as [v|] eqn:G; [|exact He].
  assert (He1 : replayed base_columns e0 (set e (col ++ "_squared") (squared v))).
  { apply replayed_set; [exact He|]. now apply rebuilds_squared. }
  pose proof He1 as ((_ & Hg1) & _). rewrite (Hg1 col Hc), G.
  destruct (any_positive v); [|exact He1].
  apply replayed_set; [exact He1|]. now apply rebuilds_log.
Qed.

Lemma statistical_features_replayed (numeric l : list string) :
  (forall c, In c l -> mem c base_columns = true) ->
  forall e,
    replayed base_columns e0 e ->
    replayed base_columns e0 (fold_left (add_statistical numeric) l e).
Proof.
  induction l as [|col rest IH]; intros Hl e He; [exact He|].
  cbn [fold_left]. apply IH; [intros c Hc; apply Hl; now right|].
  apply add_statistical_replayed; [apply Hl; now left|exact He].
Qed.

End PlainEngineer.

(** *** The final reordering of a frame by its own labels *)

Lemma lookup_app_fresh {A : Type} (name : string) (v : A) (pre suf : list (string * A)) :
  ~ In name (map fst pre) -> lookup name (pre ++ (name, v) :: suf) = Some v.
Proof.
  induction pre as [|[k w] rest IH]; simpl; intros Hn.
  - now rewrite String.eqb_refl.
  - destruct (String.eqb_spec k name) as [->|Hne]; [tauto|]. apply IH. tauto.
Qed.

Lemma assign_fresh {A : Type} (name : string) (v : A) (l : list (string * A)) :
  ~ In name (map fst l) -> assign name v l = (l ++ [(name, v)])%list.
Proof.
  induction l as [|[k w] rest IH]; simpl; intros Hn; [reflexivity|].
  destruct (String.eqb_spec k name) as [->|Hne]; [tauto|]. rewrite IH; tauto.
Qed.

Lemma final_assemble_from (t : Table) (suf : list (string * list cell)) :
  forall pre,
    cols t = (pre ++ suf)%list ->
    NoDup (labels t) ->
    Forall (fun kv => List.length (snd kv) = index_len t) (cols t) ->
    fold_left (final_assign t) (map fst suf)
      (mkTable (match pre with [] => 0 | _ => index_len t end) pre)
    = mkTable (match cols t with [] => 0 | _ => index_len t end) (cols t).
Proof.
  induction suf as [|[col v] suf' IH]; intros pre Hc Hnd Hlen.
  - rewrite app_nil_r in Hc. now rewrite Hc.
  - assert (Hfresh : ~ In col (map fst pre)).
    { unfold labels in Hnd. rewrite Hc, map_app in Hnd. cbn [map fst] in Hnd.
      apply NoDup_remove_2 in Hnd. intros Hin. apply Hnd. apply in_or_app. now left. }
    assert (Hget : get t col = Some v).
    { unfold get. rewrite Hc. now apply lookup_app_fresh. }
    assert (Hv : List.length v = index_len t).
    { rewrite Hc in Hlen. apply Forall_app in Hlen. destruct Hlen as [_ Hlen].
      now inversion Hlen; subst. }
    cbn [map fst fold_left].
    replace (final_assign t _ col)
      with (mkTable (match (pre ++ [(col, v)])%list with [] => 0%nat | _ => index_len t end)
                    (pre ++ [(col, v)])%list).
    + apply IH; [now rewrite <- app_assoc|exact Hnd|exact Hlen].
    + unfold final_assign. rewrite Hget, Hv.
      destruct pre as [|p pre']; cbn [index_len cols map app].
      * destruct (index_len t) as [|n]; reflexivity.
      * destruct (index_len t) as [|n]; cbn [Nat.eqb Nat.ltb Nat.leb andb];
          unfold set; cbn [index_len cols];
          rewrite (assign_fresh col v (p :: pre')) by exact Hfresh; reflexivity.
Qed.

Lemma final_assemble (t : Table) :
  cols t <> [] ->
  NoDup (labels t) ->
  Forall (fun kv => List.length (snd kv) = index_len t) (cols t) ->
  fold_left (final_assign t) (labels t) (mkTable 0 []) = t.
Proof.
  intros Hne Hnd Hlen.
  pose proof (final_assemble_from t (cols t) [] eq_refl Hnd Hlen) as H.
  unfold labels. rewrite H.
  destruct t as [n c]. cbn [cols index_len] in *. now destruct c.
Qed.

(** *** The round trip on plain column names *)

Lemma select_spec (df : DataFrame cell) (names : list string) :
  (forall c, In c names ->
     exists s, lookup c (df_columns df) = Some s /\
               List.length (s_values s) = df_len df) ->
  exists picked,
    select df names = Some picked /\
    map fst picked = names /\
    Forall (fun kv => List.length (snd kv) = df_len df) picked.
Proof.
  induction names as [|name rest IH]; intros H.
  - exists []. repeat split; constructor.
  - destruct IH as (picked & Hsel & Hl & Hf); [intros c Hc; apply H; now right|].
    destruct (H name (or_introl eq_refl)) as (s & Hs & Hlen).
    exists ((name, s_values s) :: picked). cbn [select]. rewrite Hs, Hsel.
    repeat split; [cbn; now rewrite Hl|]. constructor; assumption.
Qed.

Lemma lookup_of_labels {A : Type} (c : string) (l : list (string * A)) :
  In c (map fst l) -> lookup c l <> None.
Proof.
  induction l as [|[k w] rest IH]; simpl; [tauto|].
  destruct (String.eqb_spec k c) as [->|Hne]; [discriminate|].
  intros [H|H]; [congruence|now apply IH].
Qed.

(** X22.  Where the round trip does hold: names without underscore.  For
    every table and every non-empty list of distinct base columns of that
    table (one cell per row) whose names have no underscore and do not begin
    with "ratio" or "interaction", the Feature Engineer returns an
    engineered table, and the Feature Reconstructor, given the ordered
    column list of that table, the unchanged raw table and the same base
    columns, returns the same table: same values, same column order. *)
Theorem round_trip_on_plain_names (df : DataFrame cell) (base_columns : list string) :
  base_columns <> [] ->
  NoDup base_columns ->
  (forall c, In c base_columns -> plain c = true) ->
  (forall c, In c base_columns ->
     exists s, lookup c (df_columns df) = Some s /\
               List.length (s_values s) = df_len df) ->
  exists t,
    create_dynamic_features df base_columns = Ok t /\
    recreate_trained_features df (labels t) base_columns = Ok t.
Proof.
  intros Hne Hnd Hplain Hcols.
  destruct (select_spec df base_columns Hcols) as (picked & Hsel & Hlab & Hlen).
  set (e0 := mkTable (df_len df) picked).
  assert (Hplain' : forall c, mem c base_columns = true -> plain c = true)
    by (intros c Hc; apply Hplain; now apply mem_true_iff).
  assert (H0 : replayed base_columns e0 e0) by now apply replayed_start.
  set (e4 := fold_left (add_statistical (numeric_cols df)) base_columns
               (add_combined "count" "combined_counts" base_columns
                  (add_combined "delay" "combined_delays" base_columns
                     (pair_features base_columns (numeric_cols df) e0)))).
  assert (H4 : replayed base_columns e0 e4).
  { apply statistical_features_replayed; try assumption.
    - intros c Hc. now apply mem_true_iff.
    - apply add_combined_replayed; try assumption; [right; now split|].
      apply add_combined_replayed; try assumption; [left; now split|].
      now apply pair_features_replayed. }
  exists (clean e4). split.
  - unfold create_dynamic_features. rewrite Hsel, (has_duplicates_NoDup _ Hnd).
    reflexivity.
  - unfold recreate_trained_features.
    assert (E : forallb (fun c => mem c (columns df)) base_columns = true).
    { apply forallb_forall. intros c Hc. destruct (Hcols c Hc) as (s & Hs & _).
      now apply (lookup_mem_columns c df s). }
    rewrite E, Hsel, (has_duplicates_NoDup _ Hnd). cbn [negb]. fold e0.
    assert (Hl : labels (clean e4) = labels e4).
    { unfold labels, clean. cbn [cols]. now rewrite map_map. }
    destruct H4 as ((Hi & Hg) & Hfold & Hnd4 & Hlen4).
    rewrite Hl, Hfold. f_equal. rewrite <- Hl. apply final_assemble.
    + assert (Hin : exists c, In c base_columns)
        by (destruct base_columns as [|c r]; [congruence|exists c; now left]).
      destruct Hin as [c Hc].
      assert (Hgc : get e4 c = get e0 c) by (apply Hg; now apply mem_true_iff).
      destruct (Hcols c Hc) as (s & Hs & _).
      assert (G0 : get e0 c <> None).
      { apply lookup_of_labels. unfold e0. cbn [cols]. now rewrite Hlab. }
      unfold clean. cbn [cols]. intros Hnil. apply map_eq_nil in Hnil.
      apply G0. rewrite <- Hgc. unfold get. now rewrite Hnil.
    + now rewrite Hl.
    + unfold clean. cbn [cols index_len]. rewrite Hi.
      apply Forall_map. cbn [snd]. revert Hlen4. apply Forall_impl.
      intros kv Hkv. now rewrite fill_median_length.
Qed.

(** The round trip on a table with the columns "a" and "b". *)
Lemma round_trip_on_plain_names_witness :
  exists t,
    create_dynamic_features
      (mkFrame 1 [("a", mkSeries float64 [Some 2%R]); ("b", mkSeries float64 [Some (-1)%R])])
      ["a"; "b"] = Ok t /\
    recreate_trained_features
      (mkFrame 1 [("a", mkSeries float64 [Some 2%R]); ("b", mkSeries float64 [Some (-1)%R])])
      (labels t) ["a"; "b"] = Ok t.
Proof.
  apply round_trip_on_plain_names.
  - discriminate.
  - repeat constructor; simpl; intuition discriminate.
  - intros c [<-|[<-|[]]]; reflexivity.
  - intros c [<-|[<-|[]]]; eexists; split; reflexivity.
Defined.

(** *** A derived name that is also a base column *)

Lemma create_on_colliding_names :
  create_dynamic_features
    (mkFrame 1 [("a", mkSeries float64 [Some 2%R]);
                ("a_squared", mkSeries float64 [Some 5%R])])
    ["a"; "a_squared"]
  = Ok (mkTable 1
          [("a", [Some 2%R]);
           ("a_squared", [Some (2 * 2)%R]);
           ("a_a_squared_ratio", ratio [Some 2%R] [Some 5%R]);
           ("a_a_squared_interaction", interaction [Some 2%R] [Some 5%R]);
           ("a_log", [Some (ln (2 + 1e-8))]);
           ("a_squared_squared", [Some (2 * 2 * (2 * 2))%R]);
           ("a_squared_log", [Some (ln (2 * 2 + 1e-8))])]).
Proof.
  assert (Hpos : is_positive (Some 2%R) = true).
  { unfold is_positive. destruct (Rgt_dec 2 0); [reflexivity|lra]. }
  assert (Hpos4 : is_positive (Some (2 * 2)%R) = true).
  { unfold is_positive. destruct (Rgt_dec (2 * 2) 0); [reflexivity|lra]. }
  assert (Hlog : log_column [Some 2%R] = [Some (ln (2 + 1e-8))]).
  { unfold log_column. cbn [map]. destruct (Rgt_dec 2 0); [reflexivity|lra]. }
  assert (Hlog4 : log_column [Some (2 * 2)%R] = [Some (ln (2 * 2 + 1e-8))]).
  { unfold log_column. cbn [map]. destruct (Rgt_dec (2 * 2) 0); [reflexivity|lra]. }
  unfold create_dynamic_features.
  cbn [select lookup df_columns String.eqb Ascii.eqb Bool.eqb s_values
       has_duplicates mem existsb orb df_len].
  change (numeric_cols _) with ["a"; "a_squared"].
  cbn [pair_features fold_left mem existsb orb andb String.eqb Ascii.eqb Bool.eqb].
  unfold add_pair.
  cbn [get cols lookup String.eqb Ascii.eqb Bool.eqb].
  rewrite !add_combined_few by reflexivity.
  cbn [fold_left]. unfold add_statistical.
  cbn [mem existsb orb String.eqb Ascii.eqb Bool.eqb].
  cbn [get set cols lookup assign String.eqb Ascii.eqb Bool.eqb append index_len].
  unfold any_positive. cbn [existsb]. rewrite Hpos. cbn [orb].
  cbn [get set cols lookup assign String.eqb Ascii.eqb Bool.eqb append index_len squared map].
  cbn [existsb]. rewrite Hpos4. cbn [orb]. rewrite Hlog, Hlog4.
  reflexivity.
Qed.

Lemma recreate_on_colliding_names :
  exists t,
    recreate_trained_features
      (mkFrame 1 [("a", mkSeries float64 [Some 2%R]);
                  ("a_squared", mkSeries float64 [Some 5%R])])
      ["a"; "a_squared"; "a_a_squared_ratio"; "a_a_squared_interaction";
       "a_log"; "a_squared_squared"; "a_squared_log"]
      ["a"; "a_squared"] = Ok t /\
    get t "a_squared" = Some [Some 5%R].
Proof.
  assert (Hlog : log_column [Some 2%R] = [Some (ln (2 + 1e-8))]).
  { unfold log_column. cbn [map]. destruct (Rgt_dec 2 0); [reflexivity|lra]. }
  unfold recreate_trained_features.
  change (negb (forallb _ ["a"; "a_squared"])) with false. cbn iota.
  cbn [select lookup df_columns String.eqb Ascii.eqb Bool.eqb s_values
       has_duplicates mem existsb orb df_len].
  cbn [filter negb mem existsb orb String.eqb Ascii.eqb Bool.eqb].
  cbn [fold_left].
  match goal with
  | |- context [clean ?e] =>
      replace e with
        (mkTable 1 [("a", [Some 2%R]); ("a_squared", [Some 5%R]);
                    ("a_a_squared_ratio", ratio [Some 2%R] [Some 5%R]);
                    ("a_a_squared_interaction", interaction [Some 2%R] [Some 5%R]);
                    ("a_log", log_column [Some 2%R]);
                    ("a_squared_squared", squared [Some 2%R]);
                    ("a_squared_log", log_column [Some 5%R])])
        by reflexivity
  end.
  assert (Hlog5 : log_column [Some 5%R] = [Some (ln (5 + 1e-8))]).
  { unfold log_column. cbn [map]. destruct (Rgt_dec 5 0); [reflexivity|lra]. }
  rewrite Hlog, Hlog5. eexists. split; reflexivity.
Qed.

(** The round trip also fails where a derived name is the name of a base
    column: with base columns "a" = 2 and "a_squared" = 5 the Feature
    Engineer overwrites the column "a_squared" with the square of "a" (4),
    and the Feature Reconstructor copies the base column through (5). *)
Lemma round_trip_fails_on_colliding_names :
  ~ (forall (df : DataFrame cell) (base_columns : list string) (t : Table),
       create_dynamic_features df base_columns = Ok t ->
       recreate_trained_features df (labels t) base_columns = Ok t).
Proof.
  intros H.
  specialize (H _ _ _ create_on_colliding_names).
  destruct recreate_on_colliding_names as (t & Ht & Hget).
  cbn [labels cols map fst] in H. rewrite Ht in H.
  inversion H; subst t. cbn in Hget. inversion Hget. lra.
Qed.

End FeaturesSpec.

(** ** The Ensemble Corrector: intervals around the two input slacks *)

Module CorrectorBounds.

Import PyLoop PyLoopFacts Corrector.

Lemma Rmin_le_Rmax (A B : R) : Rmin A B <= Rmax A B.
Proof. unfold Rmin, Rmax. destruct (Rle_dec A B); lra. Qed.

Lemma min_plus_max (A B : R) : Rmin A B + Rmax A B = A + B.
Proof. unfold Rmin, Rmax. destruct (Rle_dec A B); lra. Qed.

Lemma abs_diff_range (A B : R) : Rabs (A - B) = Rmax A B - Rmin A B.
Proof.
  unfold Rmin, Rmax, Rabs. destruct (Rle_dec A B); destruct (Rcase_abs (A - B)); lra.
Qed.

Lemma clamp_between (x lo hi : R) : lo <= hi -> lo <= Rmin (Rmax x lo) hi <= hi.
Proof.
  intros H. unfold Rmin, Rmax. destruct (Rle_dec x lo); destruct (Rle_dec _ hi); lra.
Qed.

Lemma clamp_inside (x lo hi : R) : lo <= x <= hi -> Rmin (Rmax x lo) hi = x.
Proof.
  intros H. unfold Rmin, Rmax. destruct (Rle_dec x lo); destruct (Rle_dec _ hi); lra.
Qed.

(** The physics estimate before its clamp: between the two inputs. *)
Lemma realistic_unclamped (A B : R) :
  let m := Rmin A B in
  let M := Rmax A B in
  m <= realistic_base_route A B
       + Rmin (Rabs (A - B) * 0.1) (snd (realistic_tier m)) <= M.
Proof.
  intros m M. unfold realistic_base_route. fold m.
  pose proof (Rmin_le_Rmax A B) as Hle. fold m M in Hle.
  pose proof (min_plus_max A B) as Hsum. fold m M in Hsum.
  rewrite abs_diff_range. fold m M.
  replace ((A + B) / 2) with ((m + M) / 2) by lra.
  unfold realistic_tier.
  destruct (Rgt_dec (Rabs m) 1.0); [|destruct (Rgt_dec (Rabs m) 0.5);
    [|destruct (Rgt_dec (Rabs m) 0.2)]]; cbn [fst snd];
    unfold Rmin; destruct (Rle_dec _ _); lra.
Qed.

Lemma realistic_between (A B : R) :
  Rmin A B <= calculate_realistic_route_slack A B <= Rmax A B.
Proof.
  pose proof (realistic_unclamped A B) as H. cbv zeta in H.
  unfold calculate_realistic_route_slack. cbv zeta.
  rewrite clamp_inside; [exact H|].
  pose proof (Rmin_le_Rmax A B). lra.
Qed.

Lemma synthetic_clamped (timing_hash : R -> R -> Z) (A B : R) :
  Rmin A B - 0.08 <= calculate_synthetic_route_slack timing_hash A B <= Rmax A B + 0.06.
Proof.
  unfold calculate_synthetic_route_slack. cbv zeta.
  apply clamp_between. pose proof (Rmin_le_Rmax A B). lra.
Qed.

Lemma statistical_between (A B : R) :
  Rmin A B <= statistical_row A B <= Rmax A B.
Proof.
  unfold statistical_row. cbv zeta.
  pose proof (Rmin_le_Rmax A B) as Hle.
  set (m := Rmin A B) in *. set (M := Rmax A B) in *.
  destruct (Rgt_dec (Rabs m) 0.5); [|destruct (Rgt_dec (Rabs m) 0.2)];
    unfold Rmin at 1; destruct (Rle_dec _ _); unfold Rmin; try destruct (Rle_dec _ _); lra.
Qed.

Lemma ensemble_row_between (r ph syn st : R) :
  Rmin (Rmin r ph) (Rmin syn st) <= ensemble_row r ph syn st
  <= Rmax (Rmax r ph) (Rmax syn st).
Proof.
  set (lo := Rmin (Rmin r ph) (Rmin syn st)).
  set (hi := Rmax (Rmax r ph) (Rmax syn st)).
  assert (Hlo : lo <= r /\ lo <= ph /\ lo <= syn /\ lo <= st).
  { unfold lo, Rmin. repeat destruct (Rle_dec _ _); lra. }
  assert (Hhi : r <= hi /\ ph <= hi /\ syn <= hi /\ st <= hi).
  { unfold hi, Rmax. repeat destruct (Rle_dec _ _); lra. }
  unfold ensemble_row, ensemble_weights. cbv zeta.
  destruct (Rlt_dec _ 0.01); [|destruct (Rlt_dec _ 0.03); [|destruct (Rlt_dec _ 0.06)]];
    simpl nth; lra.
Qed.

Lemma final_bounds_contain_inputs (s : TrainingStats) (A B : R) :
  final_lower s A B <= Rmin A B /\ Rmax A B <= final_upper s A B.
Proof.
  unfold final_lower, final_upper. cbv zeta.
  pose proof (Rabs_pos (Rmin A B)). pose proof (Rabs_pos (Rmax A B)).
  pose proof (Rmin_l (Rmin A B - Rabs (Rmin A B) * 0.5) (stat_min s - stat_std s * 1.0)).
  pose proof (Rmax_l (Rmax A B + Rabs (Rmax A B) * 0.2) (stat_max s + stat_std s * 1.0)).
  lra.
Qed.

(** The bounds step keeps a prediction that the improvement step has
    clamped inside its interval. *)
Lemma bounds_row_keeps_interval (s : TrainingStats) (p A B : R) :
  Rmin A B - 0.1 <= p <= Rmax A B + 0.05 ->
  Rmin A B - 0.1 <= bounds_row s p A B <= Rmax A B + 0.05.
Proof.
  intros Hp. pose proof (final_bounds_contain_inputs s A B) as [Hlo Hhi].
  pose proof (Rmin_le_Rmax A B) as Hle.
  pose proof (realistic_between A B) as Hreal.
  unfold bounds_row, clamped. cbv zeta.
  destruct (Rgt_dec _ 2.0); [lra|].
  set (m := Rmin A B) in *. set (M := Rmax A B) in *.
  set (lo := final_lower s A B) in *. set (hi := final_upper s A B) in *.
  unfold Rmin, Rmax. repeat destruct (Rle_dec _ _); lra.
Qed.

Lemma apply_training_data_bounds_nth
    (predictions place_slacks cts_slacks out : list R)
    (route_stats place_stats cts_stats : TrainingStats) (i : nat) (v : R) :
  apply_training_data_bounds predictions place_slacks cts_slacks
    route_stats place_stats cts_stats = Some out ->
  nth_error out i = Some v ->
  exists p A B,
    nth_error predictions i = Some p /\
    nth_error place_slacks i = Some A /\
    nth_error cts_slacks i = Some B /\
    v = bounds_row route_stats p A B.
Proof.
  unfold apply_training_data_bounds. intros H Hv.
  destruct (for_range_spec _ _ _ H) as [Hlen Hnth].
  assert (Hi : (i < List.length predictions)%nat)
    by (rewrite <- Hlen; apply nth_error_Some; congruence).
  destruct (Hnth i Hi) as (w & Hw & Hwi). unfold item in Hw.
  destruct (nth_error predictions i) as [p|]; [|discriminate].
  destruct (nth_error place_slacks i) as [A|]; [|discriminate].
  destruct (nth_error cts_slacks i) as [B|]; [|discriminate].
  exists p, A, B. repeat split. congruence.
Qed.

Lemma served_interval_of_result
    (raw slack_place slack_cts out : list R)
    (training_stats : option (TrainingStats * TrainingStats * TrainingStats)) :
  predict_route_correction raw slack_place slack_cts training_stats = Some out ->
  forall i v A B,
    nth_error out i = Some v ->
    nth_error slack_place i = Some A ->
    nth_error slack_cts i = Some B ->
    Rmin A B - 0.1 <= v <= Rmax A B + 0.05.
Proof.
  unfold predict_route_correction, improve_and_bound. intros H i v A B Hv HA HB.
  destruct (replace_garbage raw slack_place slack_cts) as [cleaned|]; [|discriminate].
  destruct (improve_route_predictions cleaned slack_place slack_cts)
    as [improved|] eqn:Himp; [|discriminate].
  pose proof (CorrectorSpec.improve_route_predictions_clamp _ _ _ _ Himp) as Hclamp.
  destruct training_stats as [[[rs ps] cs]|].
  - destruct (apply_training_data_bounds_nth _ _ _ _ _ _ _ _ _ H Hv)
      as (p & A' & B' & Hp & HA' & HB' & ->).
    assert (A' = A) by congruence. assert (B' = B) by congruence. subst A' B'.
    apply bounds_row_keeps_interval. now apply (Hclamp i).
  - inversion H; subst out. now apply (Hclamp i).
Qed.

Lemma bounds_row_near (s : TrainingStats) (p A B : R) :
  Rmin A B - 2.0 <= bounds_row s p A B <= Rmax (Rmin A B + 2.0) (Rmax A B).
Proof.
  pose proof (realistic_between A B) as Hreal.
  pose proof (Rmin_le_Rmax A B) as Hle.
  unfold bounds_row. cbv zeta.
  destruct (Rgt_dec _ 2.0) as [Hgt|Hn].
  - split; [lra|]. eapply Rle_trans; [apply Hreal|apply Rmax_r].
  - set (c := clamped s p A B) in *.
    assert (Habs : - 2.0 <= c - Rmin A B <= 2.0).
    { unfold Rabs in Hn. destruct (Rcase_abs (c - Rmin A B)); lra. }
    split; [lra|]. eapply Rle_trans; [|apply Rmax_l]. lra.
Qed.

(** *** [np.min] and [np.max] *)

Lemma fold_min_le (rest : list R) :
  forall x, fold_left Rmin rest x <= x /\
            forall y, In y rest -> fold_left Rmin rest x <= y.
Proof.
  induction rest as [|z rest IH]; intros x; simpl.
  - split; [lra|tauto].
  - destruct (IH (Rmin x z)) as [H1 H2]. split.
    + eapply Rle_trans; [exact H1|apply Rmin_l].
    + intros y [<-|Hy]; [eapply Rle_trans; [exact H1|apply Rmin_r]|now apply H2].
Qed.

Lemma fold_max_ge (rest : list R) :
  forall x, x <= fold_left Rmax rest x /\
            forall y, In y rest -> y <= fold_left Rmax rest x.
Proof.
  induction rest as [|z rest IH]; intros x; simpl.
  - split; [lra|tauto].
  - destruct (IH (Rmax x z)) as [H1 H2]. split.
    + eapply Rle_trans; [apply Rmax_l|exact H1].
    + intros y [<-|Hy]; [eapply Rle_trans; [apply Rmax_r|exact H1]|now apply H2].
Qed.

Lemma np_min_le (xs : list R) (m x : R) : np_min xs = Some m -> In x xs -> m <= x.
Proof.
  destruct xs as [|x0 rest]; [discriminate|]. simpl. intros H Hin.
  inversion H; subst m. destruct (fold_min_le rest x0) as [H1 H2].
  destruct Hin as [<-|Hin]; [exact H1|now apply H2].
Qed.

Lemma np_max_ge (xs : list R) (m x : R) : np_max xs = Some m -> In x xs -> x <= m.
Proof.
  destruct xs as [|x0 rest]; [discriminate|]. simpl. intros H Hin.
  inversion H; subst m. destruct (fold_max_ge rest x0) as [H1 H2].
  destruct Hin as [<-|Hin]; [exact H1|now apply H2].
Qed.

Lemma replace_garbage_of_result (raw slack_place slack_cts cleaned : list R)
    (min_p min_c max_p max_c : R) :
  replace_garbage raw slack_place slack_cts = Some cleaned ->
  np_min slack_place = Some min_p -> np_min slack_cts = Some min_c ->
  np_max slack_place = Some max_p -> np_max slack_cts = Some max_c ->
  List.length cleaned = List.length raw /\
  forall i v,
    nth_error cleaned i = Some v ->
    Rmin min_p min_c - 0.1 - 1.0 <= v <= Rmax max_p max_c + 0.1 + 1.0.
Proof.
  unfold replace_garbage. intros H Hminp Hminc Hmaxp Hmaxc.
  rewrite Hminp, Hminc, Hmaxp, Hmaxc in H. cbv zeta in H.
  destruct (for_range_spec _ _ _ H) as [Hlen Hnth]. split; [exact Hlen|].
  intros i v Hv.
  assert (Hi : (i < List.length raw)%nat)
    by (rewrite <- Hlen; apply nth_error_Some; congruence).
  destruct (Hnth i Hi) as (w & Hw & Hwi).
  assert (w = v) by congruence. subst w. unfold item in Hw.
  destruct (nth_error raw i) as [r|]; [|discriminate].
  destruct (Rlt_dec r _) as [Hlt|Hnlt]; destruct (Rgt_dec r _) as [Hgt|Hngt];
    cbn [orb] in Hw;
    try (destruct (nth_error slack_place i) as [A|] eqn:HA; [|discriminate];
         destruct (nth_error slack_cts i) as [B|] eqn:HB; [|discriminate];
         injection Hw as <-;
         pose proof (realistic_between A B) as Hreal;
         pose proof (np_min_le _ _ _ Hminp (nth_error_In _ _ HA));
         pose proof (np_max_ge _ _ _ Hmaxp (nth_error_In _ _ HA));
         pose proof (np_min_le _ _ _ Hminc (nth_error_In _ _ HB));
         pose proof (np_max_ge _ _ _ Hmaxc (nth_error_In _ _ HB));
         assert (Rmin min_p min_c <= Rmin A B)
           by (unfold Rmin; repeat destruct (Rle_dec _ _); lra);
         assert (Rmax A B <= Rmax max_p max_c)
           by (unfold Rmax; repeat destruct (Rle_dec _ _); lra);
         lra).
  injection Hw as <-. lra.
Qed.



Lemma training_bounds_of_result
    (predictions place_slacks cts_slacks out : list R)
    (route_stats place_stats cts_stats : TrainingStats) :
  apply_training_data_bounds predictions place_slacks cts_slacks
    route_stats place_stats cts_stats = Some out ->
  List.length out = List.length predictions /\
  forall i v A B,
    nth_error out i = Some v ->
    nth_error place_slacks i = Some A ->
    nth_error cts_slacks i = Some B ->
    Rmin A B - 2.0 <= v <= Rmax (Rmin A B + 2.0) (Rmax A B).
Proof.
  intros H. split.
  - unfold apply_training_data_bounds in H. now destruct (for_range_spec _ _ _ H).
  - intros i v A B Hv HA HB.
    destruct (apply_training_data_bounds_nth _ _ _ _ _ _ _ _ _ H Hv)
      as (p & A' & B' & _ & HA' & HB' & ->).
    assert (A' = A) by congruence. assert (B' = B) by congruence. subst A' B'.
    apply bounds_row_near.
Qed.

Lemma ensemble_interval_of_result (timing_hash : R -> R -> Z)
    (raw place_slacks cts_slacks out : list R) :
  ensemble_route_predictions timing_hash raw place_slacks cts_slacks = Some out ->
  List.length out = List.length raw /\
  forall i e r A B,
    nth_error out i = Some e ->
    nth_error raw i = Some r ->
    nth_error place_slacks i = Some A ->
    nth_error cts_slacks i = Some B ->
    Rmin r (Rmin A B - 0.1) <= e <= Rmax r (Rmax A B + 0.06).
Proof.
  unfold ensemble_route_predictions. intros H.
  destruct (improve_route_predictions raw place_slacks cts_slacks)
    as [physics|] eqn:Hphys; [|discriminate].
  destruct (for_range (List.length place_slacks) _) as [syns|] eqn:Hsyn; [|discriminate].
  destruct (for_range (List.length raw) _) as [stats|] eqn:Hstat; [|discriminate].
  destruct (for_range_spec _ _ _ H) as [Hlen Hnth]. split; [exact Hlen|].
  intros i e r A B He Hr HA HB.
  assert (Hi : (i < List.length raw)%nat) by (apply nth_error_Some; congruence).
  destruct (Hnth i Hi) as (w & Hw & Hwi).
  assert (w = e) by congruence. subst w. unfold item in Hw. rewrite Hr in Hw.
  destruct (nth_error physics i) as [ph|] eqn:Hph; [|discriminate].
  destruct (nth_error syns i) as [sy|] eqn:Hsy; [|discriminate].
  destruct (nth_error stats i) as [st|] eqn:Hst; [|discriminate].
  injection Hw as <-.
  pose proof (CorrectorSpec.improve_route_predictions_clamp _ _ _ _ Hphys i ph A B Hph HA HB)
    as Hphb.
  assert (Hsyb : Rmin A B - 0.08 <= sy <= Rmax A B + 0.06).
  { destruct (for_range_spec _ _ _ Hsyn) as [Hl Hn].
    assert (Hi' : (i < List.length place_slacks)%nat)
      by (apply nth_error_Some; congruence).
    destruct (Hn i Hi') as (w & Hw & Hwi'). unfold item in Hw.
    rewrite HA, HB in Hw. injection Hw as <-.
    assert (sy = calculate_synthetic_route_slack timing_hash A B) as -> by congruence.
    apply synthetic_clamped. }
  assert (Hstb : Rmin A B <= st <= Rmax A B).
  { destruct (for_range_spec _ _ _ Hstat) as [Hl Hn].
    destruct (Hn i Hi) as (w & Hw & Hwi'). unfold item in Hw.
    rewrite HA, HB in Hw. injection Hw as <-.
    assert (st = statistical_row A B) as -> by congruence.
    apply statistical_between. }
  pose proof (ensemble_row_between r ph sy st) as Hens.
  set (m := Rmin A B) in *. set (M := Rmax A B) in *.
  assert (Hlo : Rmin r (m - 0.1) <= Rmin (Rmin r ph) (Rmin sy st))
    by (unfold Rmin; repeat destruct (Rle_dec _ _); lra).
  assert (Hhi : Rmax (Rmax r ph) (Rmax sy st) <= Rmax r (M + 0.06))
    by (unfold Rmax; repeat destruct (Rle_dec _ _); lra).
  lra.
Qed.

Lemma signature_factor_range (z : Z) :
  0 <= IZR (Z.modulo (Z.abs z) 10000) / 10000.0 < 1.
Proof.
  destruct (Z.mod_pos_bound (Z.abs z) 10000 ltac:(lia)) as [H1 H2].
  apply IZR_le in H1. apply IZR_lt in H2. lra.
Qed.

Lemma soft_clamp_lipschitz (lb ub alo ahi x y : R) :
  lb <= ub -> x <= y ->
  let g := fun v =>
    Rmin (Rmax (if Rgt_dec v ub then ub + (v - ub) * 0.15
                else if Rlt_dec v lb then lb - (lb - v) * 0.15 else v) alo) ahi in
  g x <= g y <= g x + (y - x).
Proof.
  intros Hb Hxy g. unfold g.
  destruct (Rgt_dec x ub); destruct (Rgt_dec y ub);
    try destruct (Rlt_dec x lb); try destruct (Rlt_dec y lb);
    unfold Rmin, Rmax; repeat destruct (Rle_dec _ _); lra.
Qed.

Lemma synthetic_margins (d p : R) :
  0 < synthetic_improvement_margin d /\ 0 < synthetic_degradation_margin p.
Proof.
  unfold synthetic_improvement_margin, synthetic_degradation_margin.
  repeat destruct (Rgt_dec _ _); lra.
Qed.

Lemma synthetic_optimization_range (A B : R) :
  let slack_difference := Rabs (A - B) in
  let slack_magnitude := Rabs ((A + B) / 2) in
  let flexibility_factor := snd (synthetic_tier (Rabs (Rmin A B))) in
  0 <= Rmin (flexibility_factor * (slack_difference / (slack_magnitude + 0.05))
             * optimization_multiplier slack_difference) 0.045 <= 0.045.
Proof.
  intros d mag flex. split; [|apply Rmin_r].
  apply Rmin_glb; [|lra].
  assert (0 <= d) by apply Rabs_pos.
  assert (0 <= mag) by apply Rabs_pos.
  assert (0 < flex).
  { unfold flex, synthetic_tier. repeat destruct (Rgt_dec _ _); cbn [snd]; lra. }
  assert (0 < optimization_multiplier d).
  { unfold optimization_multiplier. repeat destruct (Rgt_dec _ _); lra. }
  assert (0 <= d / (mag + 0.05)).
  { apply Rmult_le_pos; [assumption|]. left. apply Rinv_0_lt_compat. lra. }
  apply Rmult_le_pos; [apply Rmult_le_pos|]; lra.
Qed.

(** *** Results on arrays of equal length *)

Lemma np_min_some (xs : list R) : (0 < List.length xs)%nat -> exists m, np_min xs = Some m.
Proof. destruct xs as [|x rest]; simpl; [lia|eauto]. Qed.

Lemma np_max_some (xs : list R) : (0 < List.length xs)%nat -> exists m, np_max xs = Some m.
Proof. destruct xs as [|x rest]; simpl; [lia|eauto]. Qed.

Lemma replace_garbage_total (raw slack_place slack_cts : list R) :
  (0 < List.length raw)%nat ->
  List.length slack_place = List.length raw ->
  List.length slack_cts = List.length raw ->
  exists cleaned, replace_garbage raw slack_place slack_cts = Some cleaned.
Proof.
  intros Hpos Hp Hc. unfold replace_garbage.
  destruct (np_min_some slack_place ltac:(lia)) as [min_p ->].
  destruct (np_min_some slack_cts ltac:(lia)) as [min_c ->].
  destruct (np_max_some slack_place ltac:(lia)) as [max_p ->].
  destruct (np_max_some slack_cts ltac:(lia)) as [max_c ->].
  cbv zeta. apply for_range_total. intros i Hi.
  destruct (item_some raw i Hi) as [r ->].
  destruct (item_some slack_place i ltac:(lia)) as [A ->].
  destruct (item_some slack_cts i ltac:(lia)) as [B ->].
  destruct (orb _ _); eauto.
Qed.

Lemma replace_garbage_keeps (raw slack_place slack_cts cleaned : list R)
    (min_p min_c max_p max_c : R) (i : nat) (r : R) :
  replace_garbage raw slack_place slack_cts = Some cleaned ->
  np_min slack_place = Some min_p -> np_min slack_cts = Some min_c ->
  np_max slack_place = Some max_p -> np_max slack_cts = Some max_c ->
  nth_error raw i = Some r ->
  Rmin min_p min_c - 0.1 - 1.0 <= r <= Rmax max_p max_c + 0.1 + 1.0 ->
  nth_error cleaned i = Some r.
Proof.
  unfold replace_garbage. intros H Hminp Hminc Hmaxp Hmaxc Hr Hin.
  rewrite Hminp, Hminc, Hmaxp, Hmaxc in H. cbv zeta in H.
  destruct (for_range_spec _ _ _ H) as [Hlen Hnth].
  assert (Hi : (i < List.length raw)%nat) by (apply nth_error_Some; congruence).
  destruct (Hnth i Hi) as (w & Hw & Hwi). unfold item in Hw. rewrite Hr in Hw.
  destruct (Rlt_dec r _) as [Hlt|Hnlt]; [lra|].
  destruct (Rgt_dec r _) as [Hgt|Hngt]; [lra|].
  cbn [orb] in Hw. congruence.
Qed.

(** X1.  The fallback of [predict] when no route model is loaded, and the value
    put in place of a garbage prediction: [calculate_realistic_route_slack]
    gives the critical-path blend plus its optimization term, the final clamp
    to [min - 0.03, max + 0.02] never acts, and the result lies between the
    two inputs; equal inputs are returned as they are. *)
Theorem realistic_slack_between_inputs (A B : R) :
  calculate_realistic_route_slack A B
  = realistic_base_route A B
    + Rmin (Rabs (A - B) * 0.1) (snd (realistic_tier (Rmin A B))) /\
  Rmin A B <= calculate_realistic_route_slack A B <= Rmax A B /\
  calculate_realistic_route_slack A A = A.
Proof.
  split; [|split].
  - pose proof (realistic_unclamped A B) as H. cbv zeta in H.
    unfold calculate_realistic_route_slack. cbv zeta.
    apply clamp_inside. pose proof (Rmin_le_Rmax A B). lra.
  - apply realistic_between.
  - pose proof (realistic_between A A) as H.
    rewrite Rmin_left, Rmax_left in H by lra. lra.
Qed.

(** X2.  [calculate_synthetic_route_slack] reads Python's string hash, which
    changes from one process to the next.  Whatever the hash, the estimate
    lies within [min(A,B) - 0.08, max(A,B) + 0.06], and two hash functions
    move it by at most 0.018 (0.4 of the optimization term, itself capped at
    0.045). *)
Theorem synthetic_slack_hash_influence (h1 h2 : R -> R -> Z) (A B : R) :
  Rmin A B - 0.08 <= calculate_synthetic_route_slack h1 A B <= Rmax A B + 0.06 /\
  Rabs (calculate_synthetic_route_slack h1 A B
        - calculate_synthetic_route_slack h2 A B) <= 0.018.
Proof.
  split.
  { unfold calculate_synthetic_route_slack. cbv zeta.
    assert (Hc : forall x lo hi, lo <= hi -> lo <= Rmin (Rmax x lo) hi <= hi).
    { intros x lo hi Hle. unfold Rmin, Rmax.
      destruct (Rle_dec x lo); destruct (Rle_dec _ hi); lra. }
    apply Hc. unfold Rmin, Rmax. destruct (Rle_dec A B); lra. }
  pose proof (synthetic_optimization_range A B) as Hopt. cbv zeta in Hopt.
  pose proof (signature_factor_range (h1 A B)) as Hs1.
  pose proof (signature_factor_range (h2 A B)) as Hs2.
  destruct (synthetic_margins (Rabs (A - B)) (Rabs (Rmin A B))) as [Him Hdm].
  assert (Hmm : Rmin A B <= Rmax A B)
    by (unfold Rmin, Rmax; destruct (Rle_dec A B); lra).
  unfold calculate_synthetic_route_slack. cbv zeta.
  set (opt := Rmin _ 0.045) in *.
  set (s1 := IZR (Z.modulo (Z.abs (h1 A B)) 10000) / 10000.0) in *.
  set (s2 := IZR (Z.modulo (Z.abs (h2 A B)) 10000) / 10000.0) in *.
  set (base := Rmin A B * fst (synthetic_tier (Rabs (Rmin A B))) + _).
  set (corr := 0.002 * tanh _).
  set (ub := Rmax A B + _) in *. set (lb := Rmin A B - synthetic_degradation_margin _) in *.
  set (x1 := base + opt * (0.6 + 0.4 * s1) + corr).
  set (x2 := base + opt * (0.6 + 0.4 * s2) + corr).
  assert (Hb : lb <= ub) by (unfold lb, ub; lra).
  assert (Hd : x1 - x2 = opt * 0.4 * (s1 - s2)) by (unfold x1, x2; ring).
  assert (Hx : - 0.018 <= x1 - x2 <= 0.018).
  { rewrite Hd. split; nra. }
  destruct (Rle_or_lt x1 x2) as [Hle|Hlt].
  - pose proof (soft_clamp_lipschitz lb ub (Rmin A B - 0.08) (Rmax A B + 0.06) x1 x2 Hb Hle) as H.
    cbv zeta beta in H. unfold Rabs. destruct (Rcase_abs _); lra.
  - pose proof (soft_clamp_lipschitz lb ub (Rmin A B - 0.08) (Rmax A B + 0.06) x2 x1 Hb
                  (Rlt_le _ _ Hlt)) as H.
    cbv zeta beta in H. unfold Rabs. destruct (Rcase_abs _); lra.
Qed.

(** X3.  [ensemble_route_predictions] on arrays of equal length returns one value
    per row, and that value lies between the raw prediction and the interval
    [min(A,B) - 0.1, max(A,B) + 0.06] around the two input slacks: the
    weights are non-negative and sum to 1, and the three derived estimates
    are each clamped around the inputs. *)
Theorem ensemble_predictions_within_inputs (timing_hash : R -> R -> Z)
    (raw place_slacks cts_slacks : list R) :
  List.length place_slacks = List.length raw ->
  List.length cts_slacks = List.length raw ->
  exists out,
    ensemble_route_predictions timing_hash raw place_slacks cts_slacks = Some out /\
    List.length out = List.length raw /\
    forall i e r A B,
      nth_error out i = Some e ->
      nth_error raw i = Some r ->
      nth_error place_slacks i = Some A ->
      nth_error cts_slacks i = Some B ->
      Rmin r (Rmin A B - 0.1) <= e <= Rmax r (Rmax A B + 0.06).
Proof.
  intros Hp Hc.
  assert (Hex : exists out,
             ensemble_route_predictions timing_hash raw place_slacks cts_slacks = Some out).
  { unfold ensemble_route_predictions.
    destruct (CorrectorSpec.improve_route_predictions_rows raw place_slacks cts_slacks
                ltac:(lia) ltac:(lia)) as (physics & -> & Hlph & _).
    destruct (for_range_total (List.length place_slacks) (fun i =>
                match item place_slacks i, item cts_slacks i with
                | Some p, Some c => Some (calculate_synthetic_route_slack timing_hash p c)
                | _, _ => None
                end)) as [syns Hsyn].
    { intros i Hi. destruct (item_some place_slacks i Hi) as [A ->].
      destruct (item_some cts_slacks i ltac:(lia)) as [B ->]. eauto. }
    rewrite Hsyn.
    destruct (for_range_total (List.length raw) (fun i =>
                match item place_slacks i, item cts_slacks i with
                | Some p, Some c => Some (statistical_row p c)
                | _, _ => None
                end)) as [stats Hstat].
    { intros i Hi. destruct (item_some place_slacks i ltac:(lia)) as [A ->].
      destruct (item_some cts_slacks i ltac:(lia)) as [B ->]. eauto. }
    rewrite Hstat.
    destruct (for_range_spec _ _ _ Hsyn) as [Hlsyn _].
    destruct (for_range_spec _ _ _ Hstat) as [Hlstat _].
    apply for_range_total. intros i Hi.
    destruct (item_some raw i Hi) as [r ->].
    destruct (item_some physics i ltac:(lia)) as [ph ->].
    destruct (item_some syns i ltac:(lia)) as [sy ->].
    destruct (item_some stats i ltac:(lia)) as [st ->]. eauto. }
  destruct Hex as [out Hout]. exists out. split; [exact Hout|].
  apply (ensemble_interval_of_result _ _ _ _ _ Hout).
Qed.

Lemma ensemble_predictions_within_inputs_witness :
  exists out,
    ensemble_route_predictions (fun _ _ => 0%Z) [1] [0] [0] = Some out /\
    List.length out = 1%nat /\
    forall i e r A B,
      nth_error out i = Some e ->
      nth_error [1] i = Some r ->
      nth_error [0] i = Some A ->
      nth_error [0] i = Some B ->
      Rmin r (Rmin A B - 0.1) <= e <= Rmax r (Rmax A B + 0.06).
Proof.
  apply (ensemble_predictions_within_inputs (fun _ _ => 0%Z) [1] [0] [0]);
    reflexivity.
Defined.

Lemma predict_route_correction_returns (raw slack_place slack_cts : list R)
    (training_stats : option (TrainingStats * TrainingStats * TrainingStats)) :
  (0 < List.length raw)%nat ->
  List.length slack_place = List.length raw ->
  List.length slack_cts = List.length raw ->
  exists out,
    predict_route_correction raw slack_place slack_cts training_stats = Some out /\
    List.length out = List.length raw.
Proof.
  intros Hpos Hp Hc.
  unfold predict_route_correction, improve_and_bound.
  destruct (replace_garbage_total raw slack_place slack_cts Hpos Hp Hc)
    as [cleaned Hcl]. rewrite Hcl.
  assert (Hlen : List.length cleaned = List.length raw).
  { unfold replace_garbage in Hcl.
    destruct (np_min slack_place), (np_min slack_cts), (np_max slack_place),
      (np_max slack_cts); try discriminate.
    now destruct (for_range_spec _ _ _ Hcl). }
  destruct (CorrectorSpec.improve_route_predictions_rows cleaned slack_place slack_cts
              ltac:(lia) ltac:(lia)) as (improved & -> & Hli & _).
  destruct training_stats as [[[rs ps] cs]|].
  - destruct (CorrectorSpec.apply_training_data_bounds_rows improved slack_place
                slack_cts rs ps cs ltac:(lia) ltac:(lia)) as (out & -> & Hlo & _).
    exists out. split; [reflexivity|lia].
  - exists improved. split; [reflexivity|lia].
Qed.

(** X4.  The correction served by [predict], on the merged rows (at least one,
    with one raw prediction per row): a value is returned for every row, and
    it lies within [min(A,B) - 0.1, max(A,B) + 0.05] of the row's place and
    CTS slacks, whatever the raw prediction and whatever training statistics
    the model carries, since [apply_training_data_bounds] never moves a
    value out of that interval. *)
Theorem served_route_slack_interval (raw slack_place slack_cts : list R)
    (training_stats : option (TrainingStats * TrainingStats * TrainingStats)) :
  (0 < List.length raw)%nat ->
  List.length slack_place = List.length raw ->
  List.length slack_cts = List.length raw ->
  exists out,
    predict_route_correction raw slack_place slack_cts training_stats = Some out /\
    List.length out = List.length raw /\
    forall i v A B,
      nth_error out i = Some v ->
      nth_error slack_place i = Some A ->
      nth_error slack_cts i = Some B ->
      Rmin A B - 0.1 <= v <= Rmax A B + 0.05.
Proof.
  intros Hpos Hp Hc.
  destruct (predict_route_correction_returns raw slack_place slack_cts training_stats
              Hpos Hp Hc) as (out & Hout & Hlen).
  exists out. split; [exact Hout|].
  split; [exact Hlen|]. apply (served_interval_of_result _ _ _ _ _ Hout).
Qed.

Lemma served_route_slack_interval_witness :
  exists out,
    predict_route_correction [5; 0.2] [0; 0.1] [0; 0.3]
      (Some (mkStats (-1) 1 0 0.5, mkStats (-1) 1 0 0.5, mkStats (-1) 1 0 0.5))
    = Some out /\
    List.length out = 2%nat /\
    forall i v A B,
      nth_error out i = Some v ->
      nth_error [0; 0.1] i = Some A ->
      nth_error [0; 0.3] i = Some B ->
      Rmin A B - 0.1 <= v <= Rmax A B + 0.05.
Proof.
  apply (served_route_slack_interval [5; 0.2] [0; 0.1] [0; 0.3]);
    [simpl; lia|reflexivity|reflexivity].
Defined.

(** X5.  [apply_training_data_bounds] taken alone, on any predictions: every
    value it returns is within 2.0 of the worse input slack from below, and
    at most the larger of [min(A,B) + 2.0] and [max(A,B)] from above,
    whatever the training statistics are. *)
Theorem training_bounds_near_worse_input
    (predictions place_slacks cts_slacks : list R)
    (route_stats place_stats cts_stats : TrainingStats) :
  (List.length predictions <= List.length place_slacks)%nat ->
  (List.length predictions <= List.length cts_slacks)%nat ->
  exists out,
    apply_training_data_bounds predictions place_slacks cts_slacks
      route_stats place_stats cts_stats = Some out /\
    List.length out = List.length predictions /\
    forall i v A B,
      nth_error out i = Some v ->
      nth_error place_slacks i = Some A ->
      nth_error cts_slacks i = Some B ->
      Rmin A B - 2.0 <= v <= Rmax (Rmin A B + 2.0) (Rmax A B).
Proof.
  intros Hp Hc.
  destruct (CorrectorSpec.apply_training_data_bounds_rows predictions place_slacks
              cts_slacks route_stats place_stats cts_stats Hp Hc) as (out & Hout & _).
  exists out. split; [exact Hout|].
  apply (training_bounds_of_result _ _ _ _ _ _ _ Hout).
Qed.

Lemma training_bounds_near_worse_input_witness :
  exists out,
    apply_training_data_bounds [100] [0.5] [0.25]
      (mkStats (-1000) 1000 0 1) (mkStats 0 0 0 0) (mkStats 0 0 0 0) = Some out /\
    List.length out = 1%nat /\
    forall i v A B,
      nth_error out i = Some v ->
      nth_error [0.5] i = Some A ->
      nth_error [0.25] i = Some B ->
      Rmin A B - 2.0 <= v <= Rmax (Rmin A B + 2.0) (Rmax A B).
Proof.
  apply (training_bounds_near_worse_input [100] [0.5] [0.25]); simpl; lia.
Defined.

(** X6.  The garbage cleanup of [predict].  With [lo] the smallest and [hi] the
    largest input slack of the batch, a raw prediction within
    [lo - 1.1, hi + 1.1] is kept as it is, any other is replaced, and every
    value that leaves the cleanup lies in that range. *)
Theorem garbage_cleanup_range (raw slack_place slack_cts : list R) :
  (0 < List.length raw)%nat ->
  List.length slack_place = List.length raw ->
  List.length slack_cts = List.length raw ->
  exists cleaned min_p min_c max_p max_c,
    replace_garbage raw slack_place slack_cts = Some cleaned /\
    np_min slack_place = Some min_p /\ np_min slack_cts = Some min_c /\
    np_max slack_place = Some max_p /\ np_max slack_cts = Some max_c /\
    List.length cleaned = List.length raw /\
    (forall i v,
       nth_error cleaned i = Some v ->
       Rmin min_p min_c - 1.1 <= v <= Rmax max_p max_c + 1.1) /\
    (forall i r,
       nth_error raw i = Some r ->
       Rmin min_p min_c - 1.1 <= r <= Rmax max_p max_c + 1.1 ->
       nth_error cleaned i = Some r).
Proof.
  intros Hpos Hp Hc.
  destruct (replace_garbage_total raw slack_place slack_cts Hpos Hp Hc) as [cleaned Hcl].
  destruct (np_min_some slack_place ltac:(lia)) as [min_p Hminp].
  destruct (np_min_some slack_cts ltac:(lia)) as [min_c Hminc].
  destruct (np_max_some slack_place ltac:(lia)) as [max_p Hmaxp].
  destruct (np_max_some slack_cts ltac:(lia)) as [max_c Hmaxc].
  exists cleaned, min_p, min_c, max_p, max_c.
  destruct (replace_garbage_of_result _ _ _ _ _ _ _ _ Hcl Hminp Hminc Hmaxp Hmaxc)
    as [Hlen Hrange].
  repeat (split; [assumption|]). split.
  - intros i v Hv. specialize (Hrange i v Hv). lra.
  - intros i r Hr Hin.
    apply (replace_garbage_keeps _ _ _ _ _ _ _ _ _ _ Hcl Hminp Hminc Hmaxp Hmaxc Hr).
    lra.
Qed.

Lemma garbage_cleanup_range_witness :
  exists cleaned min_p min_c max_p max_c,
    replace_garbage [5; 0.2] [0; 0.1] [0; 0.3] = Some cleaned /\
    np_min [0; 0.1] = Some min_p /\ np_min [0; 0.3] = Some min_c /\
    np_max [0; 0.1] = Some max_p /\ np_max [0; 0.3] = Some max_c /\
    List.length cleaned = 2%nat /\
    (forall i v,
       nth_error cleaned i = Some v ->
       Rmin min_p min_c - 1.1 <= v <= Rmax max_p max_c + 1.1) /\
    (forall i r,
       nth_error [5; 0.2] i = Some r ->
       Rmin min_p min_c - 1.1 <= r <= Rmax max_p max_c + 1.1 ->
       nth_error cleaned i = Some r).
Proof.
  apply (garbage_cleanup_range [5; 0.2] [0; 0.1] [0; 0.3]);
    [simpl; lia|reflexivity|reflexivity].
Defined.

(** X7.  [improve_route_predictions] loops over the raw predictions and reads the
    two slack arrays at the same index: it raises [IndexError] exactly when
    one of them is shorter than the predictions, and never otherwise. *)
Theorem improve_route_predictions_raises
    (raw place_slacks cts_slacks : list R) :
  improve_route_predictions raw place_slacks cts_slacks = None <->
  (List.length place_slacks < List.length raw)%nat \/
  (List.length cts_slacks < List.length raw)%nat.
Proof.
  split.
  - intros H.
    destruct (le_lt_dec (List.length raw) (List.length place_slacks)) as [Hp|Hp];
      [|now left].
    destruct (le_lt_dec (List.length raw) (List.length cts_slacks)) as [Hc|Hc];
      [|now right].
    destruct (CorrectorSpec.improve_route_predictions_rows raw place_slacks cts_slacks Hp Hc)
      as (out & Hout & _). congruence.
  - intros Hshort.
    destruct (improve_route_predictions raw place_slacks cts_slacks) as [out|] eqn:E;
      [|reflexivity].
    exfalso. unfold improve_route_predictions in E. cbv zeta in E.
    destruct (for_range_spec _ _ _ E) as [_ Hnth].
    destruct Hshort as [Hp|Hc].
    + destruct (Hnth (List.length place_slacks) Hp) as (w & Hw & _).
      unfold item in Hw.
      assert (Hnone : nth_error place_slacks (List.length place_slacks) = None)
        by (apply nth_error_None; lia).
      rewrite Hnone in Hw. destruct (nth_error raw _); discriminate.
    + destruct (Hnth (List.length cts_slacks) Hc) as (w & Hw & _).
      unfold item in Hw.
      assert (Hnone : nth_error cts_slacks (List.length cts_slacks) = None)
        by (apply nth_error_None; lia).
      rewrite Hnone in Hw.
      destruct (nth_error raw _); [|discriminate].
      destruct (nth_error place_slacks _); discriminate.
Qed.

Lemma improve_route_predictions_raises_witness :
  improve_route_predictions [1; 2] [0] [0; 0] = None.
Proof.
  apply (improve_route_predictions_raises [1; 2] [0] [0; 0]). left. simpl. lia.
Defined.

End CorrectorBounds.

(** ** The Alignment Engine: what the checks after deduplication can see *)

Module AlignmentChecksSpec.

Import PyStr PyStrFacts Alignment AlignmentChecks.

Local Open Scope string_scope.

Lemma leb_trans (a b c : string) :
  String.leb a b = true -> String.leb b c = true -> String.leb a c = true.
Proof.
  unfold String.leb. intros Hab Hbc.
  destruct (String.compare a b) eqn:Eab; [| |discriminate].
  - apply String.compare_eq_iff in Eab. now subst b.
  - destruct (String.compare b c) eqn:Ebc; [| |discriminate].
    + apply String.compare_eq_iff in Ebc. subst c. now rewrite Eab.
    + assert (Hlt : OrderedTypeEx.String_as_OT.lt a c).
      { eapply OrderedTypeEx.String_as_OT.lt_trans;
          apply OrderedTypeEx.String_as_OT.cmp_lt; eassumption. }
      apply OrderedTypeEx.String_as_OT.cmp_lt in Hlt.
      unfold OrderedTypeEx.String_as_OT.cmp in Hlt. now rewrite Hlt.
Qed.

(** Two lists of names without repetition, in non-decreasing order and with
    the same members, are the same list. *)
Lemma sorted_names_unique (l1 : list string) :
  forall l2,
    StronglySorted (fun a b => String.leb a b = true) l1 ->
    StronglySorted (fun a b => String.leb a b = true) l2 ->
    NoDup l1 -> NoDup l2 ->
    (forall k, In k l1 <-> In k l2) ->
    l1 = l2.
Proof.
  induction l1 as [|a1 t1 IH]; intros [|a2 t2] S1 S2 N1 N2 Hset.
  - reflexivity.
  - exfalso. apply (proj2 (Hset a2)). now left.
  - exfalso. apply (proj1 (Hset a1)). now left.
  - apply StronglySorted_inv in S1. destruct S1 as [S1 F1].
    apply StronglySorted_inv in S2. destruct S2 as [S2 F2].
    rewrite Forall_forall in F1, F2.
    inversion N1 as [|? ? Hn1 N1']; subst. inversion N2 as [|? ? Hn2 N2']; subst.
    assert (Heq : a1 = a2).
    { destruct (proj1 (Hset a1) (or_introl eq_refl)) as [E|Hin1]; [now symmetry|].
      destruct (proj2 (Hset a2) (or_introl eq_refl)) as [E|Hin2]; [assumption|].
      apply String.leb_antisym; [now apply F1|now apply F2]. }
    subst a2. f_equal. apply IH; try assumption.
    intros k. split; intros Hk.
    + destruct (proj1 (Hset k) (or_intror Hk)) as [E|Hk']; [subst k; contradiction|assumption].
    + destruct (proj2 (Hset k) (or_intror Hk)) as [E|Hk']; [subst k; contradiction|assumption].
Qed.

Section Rows.

Context {Row : Type}.
Variable endpoint : Row -> string.

#[local] Abbreviation key := (key endpoint).
#[local] Abbreviation keys := (keys endpoint).
#[local] Abbreviation first_row := (first_row endpoint).
#[local] Abbreviation isin := (isin endpoint).
#[local] Abbreviation drop_from := (drop_from endpoint).
#[local] Abbreviation drop_duplicates := (drop_duplicates endpoint).
#[local] Abbreviation merge_inner := (merge_inner endpoint).

Lemma drop_from_sub (t : list Row) :
  forall seen r, In r (drop_from seen t) -> In r t.
Proof.
  induction t as [|r0 rest IH]; intros seen r; simpl; [tauto|].
  destruct (mem (key r0) seen).
  - intros H. right. now apply (IH seen).
  - intros [<-|H]; [now left|right; now apply (IH _ _ H)].
Qed.

Lemma drop_from_keeps_keys (t : list Row) :
  forall seen k, In k (keys t) -> ~ In k seen -> In k (keys (drop_from seen t)).
Proof.
  induction t as [|r0 rest IH]; intros seen k; simpl; [tauto|].
  intros [E|Hin] Hns.
  - subst k. destruct (mem (key r0) seen) eqn:Hm.
    + apply mem_true_iff in Hm. contradiction.
    + now left.
  - destruct (mem (key r0) seen) eqn:Hm.
    + now apply IH.
    + destruct (String.eqb_spec (key r0) k) as [E|Hne]; [now left|].
      right. apply IH; [assumption|]. intros [E|H]; [now apply Hne|contradiction].
Qed.

Lemma keys_in (t : list Row) (k : string) :
  In k (keys t) <-> exists r, In r t /\ key r = k.
Proof.
  unfold Alignment.keys. rewrite in_map_iff. split; intros (r & H1 & H2); eauto.
Qed.

(** The keys of a filtered and deduplicated table: each common endpoint of
    the table, once. *)
Lemma filtered_keys (common : list string) (t t' : list Row) :
  (forall r, In r t' <-> In r (isin common t)) ->
  forall k, In k (keys (drop_duplicates t')) <-> mem k common = true /\ In k (keys t).
Proof.
  intros Hperm k. split.
  - intros Hk. apply keys_in in Hk. destruct Hk as (r & Hr & <-).
    apply drop_from_sub in Hr. apply Hperm in Hr.
    unfold Alignment.isin in Hr. apply filter_In in Hr. destruct Hr as [Hr Hm].
    split; [exact Hm|]. apply keys_in. eauto.
  - intros [Hm Hk]. apply drop_from_keeps_keys; [|tauto].
    pose proof (AlignmentSpec.in_keys_isin endpoint common k t Hm Hk) as Hin.
    apply keys_in in Hin. destruct Hin as (r & Hr & <-).
    apply keys_in. exists r. split; [now apply Hperm|reflexivity].
Qed.

Lemma NoDup_same_length (l1 l2 : list string) :
  NoDup l1 -> NoDup l2 -> (forall k, In k l1 <-> In k l2) ->
  List.length l1 = List.length l2.
Proof.
  intros N1 N2 H. apply Nat.le_antisymm; apply NoDup_incl_length; try assumption;
    intros k Hk; now apply H.
Qed.

Lemma first_row_unique (t : list Row) (l : Row) :
  NoDup (keys t) -> In l t -> first_row (key l) t = Some l.
Proof.
  induction t as [|r0 rest IH]; simpl; [tauto|].
  intros N [E|Hin]; inversion N as [|? ? Hn N']; subst.
  - unfold Alignment.first_row. simpl. now rewrite String.eqb_refl.
  - unfold Alignment.first_row. simpl.
    destruct (String.eqb_spec (key r0) (key l)) as [E|Hne].
    + exfalso. apply Hn. rewrite E. now apply in_map.
    + now apply IH.
Qed.

Lemma filter_key_absent (t : list Row) (k : string) :
  ~ In k (keys t) -> filter (fun r => String.eqb (key r) k) t = [].
Proof.
  induction t as [|r0 rest IH]; simpl; [reflexivity|]. intros Hn.
  destruct (String.eqb_spec (key r0) k) as [E|Hne]; [exfalso; apply Hn; now left|].
  apply IH. intros H. apply Hn. now right.
Qed.

Lemma filter_key_unique (t : list Row) (k : string) :
  NoDup (keys t) -> In k (keys t) ->
  exists r, filter (fun r => String.eqb (key r) k) t = [r] /\ first_row k t = Some r.
Proof.
  induction t as [|r0 rest IH]; simpl; [tauto|].
  intros N Hin. inversion N as [|? ? Hn N']; subst.
  unfold Alignment.first_row. simpl.
  destruct (String.eqb_spec (key r0) k) as [E|Hne].
  - exists r0. split; [|reflexivity]. f_equal.
    apply filter_key_absent. now rewrite <- E.
  - destruct Hin as [E|Hin]; [contradiction|].
    destruct (IH N' Hin) as (r & Hf & Hr). exists r. split; assumption.
Qed.

(** An inner join on a key that is unique on the right and always found
    there keeps the left rows, each once and in order. *)
Lemma merge_inner_unique (right : list Row) :
  NoDup (keys right) ->
  forall left,
    (forall l, In l left -> In (key l) (keys right)) ->
    map fst (merge_inner left right) = left /\
    forall l r, In (l, r) (merge_inner left right) ->
                In l left /\ key r = key l /\ first_row (key l) right = Some r.
Proof.
  intros N. induction left as [|l0 rest IH]; intros Hin.
  - split; [reflexivity|]. intros l r [].
  - destruct (IH (fun l Hl => Hin l (or_intror Hl))) as [IH1 IH2].
    destruct (filter_key_unique right (key l0) N (Hin l0 (or_introl eq_refl)))
      as (r0 & Hf & Hr0).
    unfold AlignmentChecks.merge_inner in *. simpl. rewrite Hf. simpl. split.
    + now rewrite IH1.
    + intros l r [E|H].
      * inversion E; subst. split; [now left|]. split; [|assumption].
        now destruct (AlignmentSpec.first_row_some endpoint _ _ _ Hr0).
      * destruct (IH2 l r H) as (H1 & H2 & H3). split; [now right|]. now split.
Qed.


Lemma common2_mem (place_data cts_data : list Row) (k : string) :
  mem k (common2 endpoint place_data cts_data) = true
  <-> In k (keys place_data) /\ In k (keys cts_data).
Proof.
  rewrite mem_true_iff. unfold common2. rewrite filter_In, mem_true_iff. tauto.
Qed.

Lemma common3_mem (place_data cts_data route_data : list Row) (k : string) :
  mem k (common3 endpoint place_data cts_data route_data) = true
  <-> In k (keys place_data) /\ In k (keys cts_data) /\ In k (keys route_data).
Proof.
  rewrite mem_true_iff. unfold common3.
  rewrite filter_In, andb_true_iff, !mem_true_iff. tauto.
Qed.

Lemma predict_filtered_first_row (common : list string) (t : list Row) (l : Row) :
  In l (predict_filtered endpoint common t) ->
  mem (key l) common = true /\ first_row (key l) t = Some l.
Proof.
  intros Hl. unfold predict_filtered in *.
  assert (Hm : mem (key l) common = true).
  { apply drop_from_sub in Hl. unfold Alignment.isin in Hl.
    now apply filter_In in Hl. }
  split; [exact Hm|].
  pose proof (first_row_unique _ l
                (proj1 (AlignmentSpec.drop_from_keys endpoint _ []) ) Hl) as H.
  fold (drop_duplicates (isin common t)) in H.
  rewrite AlignmentSpec.first_row_drop_duplicates, AlignmentSpec.first_row_isin, Hm in H.
  exact H.
Qed.

Lemma predict_merged_cases (place_data cts_data : list Row) :
  match predict_merged endpoint place_data cts_data with
  | inl e =>
      e = NoCommonEndpoints /\
      forall k, ~ (In k (keys place_data) /\ In k (keys cts_data))
  | inr merged_data =>
      let common_endpoints := common2 endpoint place_data cts_data in
      map fst merged_data = predict_filtered endpoint common_endpoints place_data /\
      List.length merged_data
      = List.length (predict_filtered endpoint common_endpoints cts_data) /\
      NoDup (keys (map fst merged_data)) /\
      (forall k, In k (keys (map fst merged_data))
                 <-> In k (keys place_data) /\ In k (keys cts_data)) /\
      forall l r, In (l, r) merged_data ->
        key r = key l /\
        first_row (key l) place_data = Some l /\
        first_row (key l) cts_data = Some r
  end.
Proof.
  unfold predict_merged. cbv zeta.
  set (common := common2 endpoint place_data cts_data).
  set (pf := predict_filtered endpoint common place_data).
  set (cf := predict_filtered endpoint common cts_data).
  assert (Hpk : forall k, In k (keys pf) <-> In k (keys place_data) /\ In k (keys cts_data)).
  { intros k. unfold pf, predict_filtered.
    rewrite (filtered_keys common place_data (isin common place_data)) by tauto.
    unfold common. rewrite common2_mem. tauto. }
  assert (Hck : forall k, In k (keys cf) <-> In k (keys place_data) /\ In k (keys cts_data)).
  { intros k. unfold cf, predict_filtered.
    rewrite (filtered_keys common cts_data (isin common cts_data)) by tauto.
    unfold common. rewrite common2_mem. tauto. }
  assert (Np : NoDup (keys pf))
    by apply (AlignmentSpec.drop_from_keys endpoint (isin common place_data) []).
  assert (Nc : NoDup (keys cf))
    by apply (AlignmentSpec.drop_from_keys endpoint (isin common cts_data) []).
  destruct (merge_inner_unique cf Nc pf) as [Hfst Hpairs].
  { intros l Hl. apply Hck, Hpk. now apply in_map. }
  destruct (Nat.eqb_spec (List.length common) 0) as [Hz|Hnz].
  - split; [reflexivity|]. intros k Hk.
    apply common2_mem in Hk. fold common in Hk.
    destruct common; [discriminate|discriminate].
  - assert (Hlen : List.length (merge_inner pf cf) = List.length pf)
      by (rewrite <- Hfst at 2; now rewrite length_map).
    destruct (Nat.eqb_spec (List.length (merge_inner pf cf)) 0) as [Hmz|Hmnz].
    + exfalso. destruct common as [|k0 rest] eqn:Ec; [now apply Hnz|].
      assert (Hk0 : In k0 (keys pf)).
      { apply Hpk. apply common2_mem. fold common. rewrite Ec.
        apply mem_true_iff. now left. }
      unfold Alignment.keys in Hk0. destruct pf; [destruct Hk0|]. simpl in *. lia.
    + rewrite Hfst. split; [reflexivity|]. split.
      { rewrite Hlen. unfold Alignment.keys in *.
        rewrite <- (length_map key pf), <- (length_map key cf).
        apply NoDup_same_length; try assumption.
        intros k. rewrite (Hpk k), (Hck k). tauto. }
      split; [exact Np|]. split; [exact Hpk|].
      intros l r Hlr. destruct (Hpairs l r Hlr) as (Hl & Hkey & Hr).
      split; [exact Hkey|].
      destruct (predict_filtered_first_row common place_data l Hl) as [Hm Hfirst].
      split; [exact Hfirst|].
      destruct (AlignmentSpec.first_row_some endpoint _ _ _ Hr) as [Hrin _].
      destruct (predict_filtered_first_row common cts_data r Hrin) as [_ Hrfirst].
      now rewrite Hkey in Hrfirst.
Qed.

(** X8.  The alignment of [predict].  It stops only when the two tables share no
    normalized endpoint; the check made after the merge never fires.
    Otherwise the merged table is the filtered place table row by row, in
    its order, it has as many rows as the filtered CTS table, one for each
    normalized endpoint present in both tables, and each of its rows pairs
    the first place row with the first CTS row of that endpoint. *)
Theorem predict_merge_one_row_per_endpoint (place_data cts_data : list Row) :
  (forall e,
     predict_merged endpoint place_data cts_data = inl e ->
     e = NoCommonEndpoints /\
     forall k, ~ (In k (keys place_data) /\ In k (keys cts_data))) /\
  (forall merged_data,
     predict_merged endpoint place_data cts_data = inr merged_data ->
     let common_endpoints := common2 endpoint place_data cts_data in
     map fst merged_data = predict_filtered endpoint common_endpoints place_data /\
     List.length merged_data
     = List.length (predict_filtered endpoint common_endpoints cts_data) /\
     NoDup (keys (map fst merged_data)) /\
     (forall k, In k (keys (map fst merged_data))
                <-> In k (keys place_data) /\ In k (keys cts_data)) /\
     forall l r, In (l, r) merged_data ->
       key r = key l /\
       first_row (key l) place_data = Some l /\
       first_row (key l) cts_data = Some r).
Proof.
  pose proof (predict_merged_cases place_data cts_data) as H.
  destruct (predict_merged endpoint place_data cts_data) as [e|merged_data].
  - split; [|discriminate]. intros e' E. injection E as <-. exact H.
  - split; [discriminate|]. intros merged' E. injection E as <-. exact H.
Qed.

(** *** The training path *)

#[local] Abbreviation le_key := (fun r1 r2 : Row => String.leb (key r1) (key r2) = true).

Lemma drop_from_sorted (t : list Row) :
  StronglySorted le_key t -> forall seen, StronglySorted le_key (drop_from seen t).
Proof.
  induction t as [|r0 rest IH]; intros S seen; simpl; [constructor|].
  apply StronglySorted_inv in S. destruct S as [S F].
  destruct (mem (key r0) seen); [now apply IH|].
  constructor; [now apply IH|].
  rewrite Forall_forall in *. intros r Hr. apply F. now apply drop_from_sub in Hr.
Qed.

Lemma keys_sorted (t : list Row) :
  StronglySorted le_key t ->
  StronglySorted (fun a b => String.leb a b = true) (keys t).
Proof.
  induction t as [|r0 rest IH]; intros S; simpl; [constructor|].
  apply StronglySorted_inv in S. destruct S as [S F].
  constructor; [now apply IH|].
  unfold Alignment.keys. rewrite Forall_map. exact F.
Qed.

Section Training.

Variable sort_values : list Row -> list Row.
Hypothesis sort_ok : sorts_by_key endpoint sort_values.

Lemma train_filtered_keys (common : list string) (t : list Row) :
  NoDup (keys (train_filtered endpoint sort_values common t)) /\
  StronglySorted (fun a b => String.leb a b = true)
    (keys (train_filtered endpoint sort_values common t)) /\
  forall k, In k (keys (train_filtered endpoint sort_values common t))
            <-> mem k common = true /\ In k (keys t).
Proof.
  unfold train_filtered. destruct (sort_ok (isin common t)) as [Hperm Hsorted].
  split; [apply (AlignmentSpec.drop_from_keys endpoint _ [])|]. split.
  - apply keys_sorted. apply drop_from_sorted.
    apply Sorted_StronglySorted; [|exact Hsorted].
    intros a b c Hab Hbc. now apply (leb_trans _ (key b)).
  - apply filtered_keys. intros r. split; intros H.
    + now apply (Permutation_in _ Hperm).
    + now apply (Permutation_in _ (Permutation_sym Hperm)).
Qed.

(** X9.  The alignment of [train_model], for any sort that orders the rows by
    normalized endpoint.  It stops only when the three tables share no
    normalized endpoint; the size check made after deduplication never
    fires.  Otherwise the three tables carry the same normalized endpoints at
    the same positions, each common endpoint once, so that pairing their rows
    by position pairs rows of one endpoint. *)
Theorem train_tables_aligned_by_position (place_data cts_data route_data : list Row) :
  match train_aligned endpoint sort_values place_data cts_data route_data with
  | inl e =>
      e = NoCommonEndpoints /\
      forall k, ~ (In k (keys place_data) /\ In k (keys cts_data)
                   /\ In k (keys route_data))
  | inr (place_rows, cts_rows, route_rows) =>
      keys place_rows = keys cts_rows /\
      keys cts_rows = keys route_rows /\
      NoDup (keys place_rows) /\
      forall k, In k (keys place_rows)
                <-> In k (keys place_data) /\ In k (keys cts_data)
                    /\ In k (keys route_data)
  end.
Proof.
  unfold train_aligned. cbv zeta.
  set (common := common3 endpoint place_data cts_data route_data).
  destruct (train_filtered_keys common place_data) as (Np & Sp & Kp).
  destruct (train_filtered_keys common cts_data) as (Nc & Sc & Kc).
  destruct (train_filtered_keys common route_data) as (Nr & Sr & Kr).
  set (p := train_filtered endpoint sort_values common place_data) in *.
  set (c := train_filtered endpoint sort_values common cts_data) in *.
  set (r := train_filtered endpoint sort_values common route_data) in *.
  assert (Hm : forall k, mem k common = true
                         <-> In k (keys place_data) /\ In k (keys cts_data)
                             /\ In k (keys route_data))
    by (intros k; apply common3_mem).
  assert (Hpc : keys p = keys c).
  { apply sorted_names_unique; try assumption.
    intros k. rewrite (Kp k), (Kc k), (Hm k). tauto. }
  assert (Hcr : keys c = keys r).
  { apply sorted_names_unique; try assumption.
    intros k. rewrite (Kc k), (Kr k), (Hm k). tauto. }
  destruct (Nat.eqb_spec (List.length common) 0) as [Hz|Hnz].
  - split; [reflexivity|]. intros k Hk. apply Hm in Hk.
    destruct common; discriminate.
  - assert (Hlpc : List.length p = List.length c).
    { unfold Alignment.keys in Hpc.
      now rewrite <- (length_map key p), Hpc, length_map. }
    assert (Hlcr : List.length c = List.length r).
    { unfold Alignment.keys in Hcr.
      now rewrite <- (length_map key c), Hcr, length_map. }
    rewrite Hlpc, Hlcr, !Nat.eqb_refl. cbn [negb orb].
    split; [exact Hpc|]. split; [exact Hcr|]. split; [exact Np|].
    intros k. rewrite (Kp k), (Hm k). tauto.
Qed.

End Training.

End Rows.

Lemma train_tables_aligned_by_position_witness :
  match train_aligned fst (stable_sort fst)
          [("top/b/q", 1%nat); ("a/d", 2%nat); ("x/b/q", 3%nat)]
          [("a/d", 4%nat); ("b/q", 5%nat)]
          [("b/q", 6%nat); ("u/a/d", 7%nat); ("z", 8%nat)] with
  | inl e =>
      e = NoCommonEndpoints /\
      forall k, ~ (In k (keys fst [("top/b/q", 1%nat); ("a/d", 2%nat); ("x/b/q", 3%nat)])
                   /\ In k (keys fst [("a/d", 4%nat); ("b/q", 5%nat)])
                   /\ In k (keys fst [("b/q", 6%nat); ("u/a/d", 7%nat); ("z", 8%nat)]))
  | inr (place_rows, cts_rows, route_rows) =>
      keys fst place_rows = keys fst cts_rows /\
      keys fst cts_rows = keys fst route_rows /\
      NoDup (keys fst place_rows) /\
      forall k, In k (keys fst place_rows)
                <-> In k (keys fst [("top/b/q", 1%nat); ("a/d", 2%nat); ("x/b/q", 3%nat)])
                    /\ In k (keys fst [("a/d", 4%nat); ("b/q", 5%nat)])
                    /\ In k (keys fst [("b/q", 6%nat); ("u/a/d", 7%nat); ("z", 8%nat)])
  end.
Proof.
  apply (train_tables_aligned_by_position fst (stable_sort fst)
           (AlignmentSpec.stable_sort_sorts fst)).
Defined.

(** *** [normalize_endpoint] *)

Lemma split_parts_free (sep : ascii) (s : string) :
  Forall (fun part => free_of sep part = true) (split sep s).
Proof.
  induction s as [|ch rest IH]; simpl.
  - constructor; [reflexivity|constructor].
  - destruct (Ascii.eqb ch sep) eqn:E.
    + constructor; [reflexivity|exact IH].
    + destruct (split sep rest) as [|part parts].
      * constructor; [simpl; now rewrite E|constructor].
      * inversion IH; subst. constructor; [simpl; now rewrite E|assumption].
Qed.

Lemma normalize_two_segments (seg1 seg2 : string) :
  free_of "/" seg1 = true -> free_of "/" seg2 = true ->
  normalize_endpoint (seg1 ++ "/" ++ seg2) = seg1 ++ "/" ++ seg2.
Proof.
  intros H1 H2. unfold normalize_endpoint. cbv zeta.
  change (seg1 ++ "/" ++ seg2) with (seg1 ++ String "/" seg2).
  rewrite split_append, (split_free _ _ H1), (split_free _ _ H2). reflexivity.
Qed.

(** X10.  [normalize_endpoint] is idempotent: normalizing a normalized
    endpoint returns it unchanged, and the normal form holds at most one
    slash. *)
Theorem normalize_endpoint_idempotent (endpoint : string) :
  normalize_endpoint (normalize_endpoint endpoint) = normalize_endpoint endpoint /\
  (List.length (split "/" (normalize_endpoint endpoint)) <= 2)%nat.
Proof.
  pose proof (split_parts_free "/" endpoint) as Hfree.
  rewrite Forall_forall in Hfree.
  destruct (Nat.leb_spec 2 (List.length (split "/" endpoint))) as [Hge|Hlt].
  - set (parts := split "/" endpoint) in *.
    set (seg1 := nth (List.length parts - 2) parts "").
    set (seg2 := nth (List.length parts - 1) parts "").
    assert (H1 : free_of "/" seg1 = true) by (apply Hfree, nth_In; lia).
    assert (H2 : free_of "/" seg2 = true) by (apply Hfree, nth_In; lia).
    assert (Hn : normalize_endpoint endpoint = seg1 ++ String "/" seg2).
    { unfold normalize_endpoint. cbv zeta. fold parts.
      destruct (Nat.leb_spec 2 (List.length parts)); [reflexivity|lia]. }
    rewrite Hn. split; [exact (normalize_two_segments seg1 seg2 H1 H2)|].
    rewrite split_append, (split_free _ _ H1), (split_free _ _ H2). simpl. lia.
  - assert (Hn : normalize_endpoint endpoint = endpoint).
    { unfold normalize_endpoint. cbv zeta.
      destruct (Nat.leb_spec 2 (List.length (split "/" endpoint))); [lia|reflexivity]. }
    rewrite !Hn. split; [reflexivity|lia].
Qed.

End AlignmentChecksSpec.

(** ** The Schema Inspector: target and base columns *)

Module SchemaSpec.

Import PyStr PyStrFacts Frame Schema.

Local Open Scope string_scope.

Section Tables.

Context {C : Type}.

Lemma last_in (l : list string) (d : string) : l <> [] -> In (last l d) l.
Proof.
  induction l as [|a [|b t] IH]; intros H; [contradiction|now left|].
  right. apply IH. discriminate.
Qed.

Lemma numeric_is_column (df : DataFrame C) (col : string) :
  is_numeric_column df col = true -> In col (columns df).
Proof.
  unfold is_numeric_column, columns.
  induction (df_columns df) as [|[k v] rest IH]; simpl; [discriminate|].
  destruct (String.eqb_spec k col) as [->|Hne]; [now left|].
  intros H. right. now apply IH.
Qed.

(** X11.  The target is always a column of one of the four numeric types, and it
    is missing exactly when the table has no such column. *)
Theorem get_target_column_numeric (df : DataFrame C) :
  (forall target, get_target_column df = Some target ->
                  In target (columns df) /\ is_numeric_column df target = true) /\
  (get_target_column df = None
   <-> forall col, In col (columns df) -> is_numeric_column df col = false) /\
  (forall col, In col (columns df) -> names_a_target col = true ->
               is_numeric_column df col = true ->
               exists target, get_target_column df = Some target /\
                              names_a_target target = true).
Proof.
  unfold get_target_column. cbv zeta.
  set (keyed := filter (fun col => andb (names_a_target col) (is_numeric_column df col))
                       (columns df)).
  set (numeric := filter (is_numeric_column df) (columns df)).
  assert (Hkeyed : forall col, In col keyed ->
             In col (columns df) /\ names_a_target col = true
             /\ is_numeric_column df col = true).
  { intros col H. unfold keyed in H. apply filter_In in H.
    destruct H as [H1 H2]. apply andb_true_iff in H2. tauto. }
  split; [|split].
  - intros target H. destruct keyed as [|k0 rest] eqn:Ek.
    + destruct numeric as [|n0 nrest] eqn:En; [discriminate|].
      injection H as <-.
      assert (Hin : In (last (n0 :: nrest) "") numeric)
        by (rewrite En; apply last_in; discriminate).
      unfold numeric in Hin. apply filter_In in Hin. exact Hin.
    + injection H as <-. destruct (Hkeyed k0 (or_introl eq_refl)) as (H1 & _ & H3).
      now split.
  - split.
    + intros H col Hcol. destruct keyed as [|k0 rest]; [|discriminate].
      destruct numeric as [|n0 nrest] eqn:En; [|discriminate].
      destruct (is_numeric_column df col) eqn:E; [|reflexivity].
      assert (Hin : In col numeric) by (apply filter_In; now split).
      rewrite En in Hin. destruct Hin.
    + intros H. destruct keyed as [|k0 rest] eqn:Ek.
      * destruct numeric as [|n0 nrest] eqn:En; [reflexivity|].
        assert (Hin : In n0 numeric) by (rewrite En; now left).
        apply filter_In in Hin. destruct Hin as [H1 H2].
        rewrite (H n0 H1) in H2. discriminate.
      * destruct (Hkeyed k0 (or_introl eq_refl)) as (H1 & _ & H3).
        rewrite (H k0 H1) in H3. discriminate.
  - intros col Hcol Hk Hn.
    assert (Hin : In col keyed).
    { apply filter_In. split; [assumption|]. now rewrite Hk, Hn. }
    destruct keyed as [|k0 rest] eqn:Ek; [destruct Hin|].
    exists k0. split; [reflexivity|].
    now destruct (Hkeyed k0 (or_introl eq_refl)) as (_ & H2 & _).
Qed.


(** X12.  A table passes [validate_table_for_slack_prediction] exactly when it has
    a row, a column named endpoint and a target for [get_target_column]; the
    list of missing columns is then empty.  So after the validation made by
    [train_model], target detection on the same columns finds a column. *)
Theorem validated_table_has_target (df : DataFrame C) :
  (fst (validate_table_for_slack_prediction (Some df)) = true
   <-> (0 < df_len df)%nat /\ In "endpoint" (columns df) /\
       exists target, get_target_column df = Some target) /\
  (fst (validate_table_for_slack_prediction (Some df)) = true ->
   snd (validate_table_for_slack_prediction (Some df)) = []) /\
  fst (validate_table_for_slack_prediction (@None (DataFrame C))) = false.
Proof.
  destruct (get_target_column_numeric df) as (_ & Hnone & _).
  assert (Htarget : (exists target, get_target_column df = Some target)
                    <-> filter (is_numeric_column df) (columns df) <> []).
  { split.
    - intros [target Ht] Hnil.
      assert (Hn : get_target_column df = None).
      { apply Hnone. intros col Hcol.
        destruct (is_numeric_column df col) eqn:E; [|reflexivity].
        assert (Hin : In col (filter (is_numeric_column df) (columns df)))
          by (apply filter_In; now split).
        rewrite Hnil in Hin. destruct Hin. }
      congruence.
    - intros Hne. destruct (get_target_column df) as [t|] eqn:E; [eauto|].
      exfalso. apply Hne.
      destruct (filter (is_numeric_column df) (columns df)) as [|n0 rest] eqn:En;
        [reflexivity|].
      assert (Hin : In n0 (filter (is_numeric_column df) (columns df)))
        by (rewrite En; now left).
      apply filter_In in Hin. destruct Hin as [H1 H2].
      rewrite (proj1 Hnone eq_refl n0 H1) in H2. discriminate. }
  unfold validate_table_for_slack_prediction, MINIMUM_REQUIRED_COLUMNS.
  cbv zeta. cbn [filter].
  split; [|split; [|reflexivity]].
  - destruct (Nat.eqb_spec (df_len df) 0) as [Hz|Hnz].
    + cbn [fst]. split; [discriminate|]. intros [H _]. lia.
    + destruct (mem "endpoint" (columns df)) eqn:Hm; cbn [negb];
        destruct (filter (is_numeric_column df) (columns df)) as [|n0 rest] eqn:En;
        cbn [fst List.length app Nat.eqb].
      * split; [discriminate|]. intros (_ & _ & Ht). apply Htarget in Ht. congruence.
      * split; [|reflexivity]. intros _. split; [lia|].
        split; [now apply mem_true_iff|]. apply Htarget. discriminate.
      * split; [discriminate|]. intros (_ & He & _).
        apply mem_true_iff in He. congruence.
      * split; [discriminate|]. intros (_ & He & _).
        apply mem_true_iff in He. congruence.
  - destruct (Nat.eqb (df_len df) 0); cbn [fst snd]; [discriminate|].
    destruct (mem "endpoint" (columns df)); cbn [negb];
      destruct (filter (is_numeric_column df) (columns df));
      cbn [List.length app Nat.eqb]; intros H; try discriminate. reflexivity.
Qed.

(** *** Adding a text column *)

Lemma with_column_numeric (df : DataFrame C) (name : string) (s : Series C)
    (col : string) :
  is_numeric_column df name = false ->
  Features.numeric_dtype (s_dtype s) = false ->
  is_numeric_column (with_column df name s) col = is_numeric_column df col.
Proof.
  intros Hold Hnew. unfold is_numeric_column, with_column in *. cbn [df_columns].
  destruct (String.eqb_spec col name) as [->|Hne].
  - rewrite FeaturesSpec.lookup_assign_same. now rewrite Hnew, Hold.
  - now rewrite FeaturesSpec.lookup_assign_other.
Qed.

Lemma with_column_filter (df : DataFrame C) (name : string) (s : Series C)
    (f : string -> bool) :
  f name = false ->
  filter f (columns (with_column df name s)) = filter f (columns df).
Proof.
  intros Hf. unfold columns, with_column. cbn [df_columns].
  destruct (in_dec string_dec name (map fst (df_columns df))) as [Hin|Hnin].
  - now rewrite FeaturesSpec.assign_labels_present.
  - rewrite FeaturesSpec.assign_labels_fresh by exact Hnin.
    rewrite filter_app. cbn [filter]. rewrite Hf. apply app_nil_r.
Qed.

(** X13.  [train_model] writes the column [normalized_endpoint] into each
    table before the target and the base columns are detected.  Writing a column
    of a non-numeric type, new or in place of a non-numeric one, changes
    neither the detected target nor the base columns. *)
Theorem text_column_keeps_target (df : DataFrame C) (name : string) (s : Series C) :
  is_numeric_column df name = false ->
  Features.numeric_dtype (s_dtype s) = false ->
  get_target_column (with_column df name s) = get_target_column df /\
  get_available_feature_columns (with_column df name s)
  = get_available_feature_columns df.
Proof.
  intros Hold Hnew.
  assert (Hnum : forall col, is_numeric_column (with_column df name s) col
                             = is_numeric_column df col)
    by (intros col; now apply with_column_numeric).
  assert (Ht : get_target_column (with_column df name s) = get_target_column df).
  { unfold get_target_column. cbv zeta.
    rewrite (filter_ext _ (fun col => andb (names_a_target col) (is_numeric_column df col)))
      by (intros col; now rewrite Hnum).
    rewrite (filter_ext (is_numeric_column (with_column df name s))
               (is_numeric_column df)) by exact Hnum.
    rewrite !with_column_filter; [reflexivity|assumption|].
    rewrite Hold. apply andb_false_r. }
  split; [exact Ht|].
  unfold get_available_feature_columns, exclude_cols. rewrite Ht.
  rewrite (filter_ext _ (fun col =>
             andb (negb (mem col match get_target_column df with
                                 | Some target_col =>
                                     if String.eqb target_col ""
                                     then ["endpoint"] else ["endpoint"; target_col]
                                 | None => ["endpoint"]
                                 end))
                  (is_numeric_column df col)))
    by (intros col; now rewrite Hnum).
  apply with_column_filter. rewrite Hold. apply andb_false_r.
Qed.

End Tables.

Lemma text_column_keeps_target_witness :
  get_target_column
    (with_column
       (mkFrame 1 [("endpoint", mkSeries object [VText "a/b"]);
                   ("slack", mkSeries float64 [VNum 0.5])])
       "normalized_endpoint" (mkSeries object [VText "a/b"]))
  = get_target_column
      (mkFrame 1 [("endpoint", mkSeries object [VText "a/b"]);
                  ("slack", mkSeries float64 [VNum 0.5])]) /\
  get_available_feature_columns
    (with_column
       (mkFrame 1 [("endpoint", mkSeries object [VText "a/b"]);
                   ("slack", mkSeries float64 [VNum 0.5])])
       "normalized_endpoint" (mkSeries object [VText "a/b"]))
  = get_available_feature_columns
      (mkFrame 1 [("endpoint", mkSeries object [VText "a/b"]);
                  ("slack", mkSeries float64 [VNum 0.5])]).
Proof.
  apply (text_column_keeps_target
           (mkFrame 1 [("endpoint", mkSeries object [VText "a/b"]);
                       ("slack", mkSeries float64 [VNum 0.5])])
           "normalized_endpoint" (mkSeries object [VText "a/b"])); reflexivity.
Defined.

(** *** The base columns of training and of prediction *)

Section Bases.

Variable parse_number : string -> cell.

#[local] Abbreviation detect_feature_columns :=
  (Inspector.detect_feature_columns parse_number).
#[local] Abbreviation passes := (Inspector.passes parse_number).

(** X14.  [train_model] engineers the place features from
    [detect_feature_columns(place_data, target_col)] and stores
    [get_available_feature_columns(place_data)] as the base columns that
    [predict] hands to the reconstruction.  The two lists are the same when
    the excluded target is the table's own detected target, every column of
    one of the four numeric types passes the coverage test and is not named
    endpoint, and no other column passes it. *)
Theorem base_columns_agree (df : DataFrame value) (target_col : string) :
  get_target_column df = Some target_col ->
  target_col <> "" ->
  (forall col s,
     lookup col (df_columns df) = Some s -> col <> target_col ->
     (Features.numeric_dtype (s_dtype s) = true ->
      col <> "endpoint" /\ passes df s = true) /\
     (Features.numeric_dtype (s_dtype s) = false -> passes df s = false)) ->
  detect_feature_columns df (Some target_col) = get_available_feature_columns df.
Proof.
  intros Ht Hne Hcols.
  destruct (get_target_column_numeric df) as (Hsome & _ & _).
  destruct (Hsome target_col Ht) as [Hin _].
  unfold Inspector.detect_feature_columns, get_available_feature_columns, exclude_cols.
  rewrite Ht. destruct (String.eqb_spec target_col "") as [E|_]; [contradiction|].
  apply filter_ext_in. intros col Hcol.
  unfold Inspector.excluded, is_numeric_column.
  assert (Hnotempty : String.eqb target_col "" = false) by now apply String.eqb_neq.
  rewrite Hnotempty. cbn [negb andb].
  assert (Hm : mem target_col (columns df) = true) by now apply mem_true_iff.
  rewrite Hm. cbn [andb]. cbn [mem existsb]. rewrite orb_false_r.
  destruct (String.eqb_spec col target_col) as [->|Hct].
  - rewrite orb_true_r. reflexivity.
  - rewrite orb_false_r. cbn [negb andb].
    destruct (lookup col (df_columns df)) as [s|] eqn:Hs.
    + destruct (Hcols col s Hs Hct) as [Hnum Hoth].
      destruct (Features.numeric_dtype (s_dtype s)) eqn:En.
      * destruct (Hnum eq_refl) as [Hnep Hp]. rewrite Hp.
        assert (String.eqb col "endpoint" = false) as -> by now apply String.eqb_neq.
        reflexivity.
      * rewrite (Hoth eq_refl). now rewrite andb_false_r.
    + now rewrite andb_false_r.
Qed.

(** X15.  Where they differ.  A column of type int16, int8 or object that passes
    the coverage test, and a numeric column named endpoint, are engineered
    at training time but are not base columns at prediction time; the
    table's own target is a base column at training time whenever it is not
    the excluded one. *)
Theorem base_columns_differ (df : DataFrame value) (target_col : option string)
    (col : string) (s : Series value) :
  lookup col (df_columns df) = Some s ->
  passes df s = true ->
  Inspector.excluded df target_col col = false ->
  In col (detect_feature_columns df target_col) /\
  (Features.numeric_dtype (s_dtype s) = false \/ col = "endpoint"
   \/ (get_target_column df = Some col /\ col <> "") ->
   ~ In col (get_available_feature_columns df)).
Proof.
  intros Hs Hp Hex. split.
  - apply (InspectorSpec.detect_feature_columns_iff parse_number df target_col col s Hs).
    now split.
  - intros Hcase Hin. unfold get_available_feature_columns in Hin.
    apply filter_In in Hin. destruct Hin as [_ Hin].
    apply andb_true_iff in Hin. destruct Hin as [Hx Hn].
    unfold is_numeric_column in Hn. rewrite Hs in Hn.
    apply negb_true_iff in Hx.
    destruct Hcase as [Hd|[He|[Ht Hne]]].
    + congruence.
    + subst col. unfold exclude_cols in Hx.
      destruct (get_target_column df) as [t|]; [destruct (String.eqb t "")|];
        cbn [mem existsb] in Hx; rewrite String.eqb_refl in Hx; discriminate.
    + unfold exclude_cols in Hx. rewrite Ht in Hx.
      destruct (String.eqb_spec col "") as [E|_]; [contradiction|].
      cbn [mem existsb] in Hx. rewrite String.eqb_refl in Hx.
      rewrite orb_true_r in Hx. discriminate.
Qed.

End Bases.

Lemma base_columns_agree_witness :
  Inspector.detect_feature_columns (fun _ => None)
    (mkFrame 1 [("endpoint", mkSeries object [VText "a/b"]);
                ("fanout", mkSeries int64 [VNum 3]);
                ("slack", mkSeries float64 [VNum 0.5])])
    (Some "slack")
  = get_available_feature_columns
      (mkFrame 1 [("endpoint", mkSeries object [VText "a/b"]);
                  ("fanout", mkSeries int64 [VNum 3]);
                  ("slack", mkSeries float64 [VNum 0.5])]).
Proof.
  apply (base_columns_agree (fun _ => None)
           (mkFrame 1 [("endpoint", mkSeries object [VText "a/b"]);
                       ("fanout", mkSeries int64 [VNum 3]);
                       ("slack", mkSeries float64 [VNum 0.5])])
           "slack").
  - reflexivity.
  - discriminate.
  - intros col s Hs Hne. cbn [lookup df_columns] in Hs.
    destruct (String.eqb_spec "endpoint" col) as [<-|_].
    { injection Hs as <-. split; [discriminate|]. intros _.
      unfold Inspector.passes, Inspector.numeric_count. cbn.
      destruct (Rgt_dec 0 (1 * 0.8)); [lra|reflexivity]. }
    destruct (String.eqb_spec "fanout" col) as [<-|_].
    { injection Hs as <-. split; [|discriminate]. intros _.
      split; [discriminate|].
      unfold Inspector.passes, Inspector.numeric_count. cbn.
      destruct (Rgt_dec 1 (1 * 0.8)); [reflexivity|lra]. }
    destruct (String.eqb_spec "slack" col) as [<-|_]; [congruence|discriminate].
Defined.

Lemma base_columns_differ_witness :
  In "cells"
    (Inspector.detect_feature_columns (fun _ => None)
       (mkFrame 1 [("cells", mkSeries int16 [VNum 3]);
                   ("slack", mkSeries float64 [VNum 0.5])])
       (Some "slack")) /\
  (Features.numeric_dtype int16 = false \/ "cells" = "endpoint"
   \/ (get_target_column
         (mkFrame 1 [("cells", mkSeries int16 [VNum 3]);
                     ("slack", mkSeries float64 [VNum 0.5])]) = Some "cells"
       /\ "cells" <> "") ->
   ~ In "cells"
       (get_available_feature_columns
          (mkFrame 1 [("cells", mkSeries int16 [VNum 3]);
                      ("slack", mkSeries float64 [VNum 0.5])]))).
Proof.
  apply (base_columns_differ (fun _ => None)
           (mkFrame 1 [("cells", mkSeries int16 [VNum 3]);
                       ("slack", mkSeries float64 [VNum 0.5])])
           (Some "slack") "cells" (mkSeries int16 [VNum 3])).
  - reflexivity.
  - unfold Inspector.passes, Inspector.numeric_count. cbn.
    destruct (Rgt_dec 1 (1 * 0.8)); [reflexivity|lra].
  - reflexivity.
Defined.

End SchemaSpec.

(** ** The Feature Engineer: the shape of the engineered frame *)

Module EngineeredShape.

Import PyStr PyStrFacts Frame Features FrameShape.

Local Open Scope string_scope.

Lemma lookup_Forall {A : Type} (P : string * A -> Prop) (l : list (string * A))
    (name : string) (v : A) :
  Forall P l -> lookup name l = Some v -> exists k, P (k, v).
Proof.
  induction 1 as [|[k w] rest Hk Hrest IH]; simpl; [discriminate|].
  destruct (String.eqb k name); [|exact IH].
  intros E. injection E as <-. now exists k.
Qed.

Lemma shaped_get (n : nat) (base : list string) (e : Table) (name : string)
    (v : list cell) :
  shaped n base e -> get e name = Some v -> List.length v = n.
Proof.
  intros (_ & Hall & _) Hg.
  destruct (lookup_Forall _ _ _ _ Hall Hg) as [k Hk]. exact Hk.
Qed.

Lemma shaped_set (n : nat) (base : list string) (e : Table) (name : string)
    (v : list cell) :
  shaped n base e -> List.length v = n -> shaped n base (set e name v).
Proof.
  intros (Hi & Hall & Hnd & extra & Hl) Hv. unfold shaped, set, labels in *.
  cbn [index_len cols]. split; [exact Hi|]. split.
  - apply FeaturesSpec.assign_Forall; [intros k; exact Hv|exact Hall].
  - split; [now apply FeaturesSpec.assign_labels_NoDup|].
    destruct (in_dec string_dec name (map fst (cols e))) as [Hin|Hnin].
    + exists extra. now rewrite FeaturesSpec.assign_labels_present.
    + exists (extra ++ [name])%list.
      rewrite FeaturesSpec.assign_labels_fresh by exact Hnin.
      now rewrite Hl, app_assoc.
Qed.

Lemma zip_with_length (f : cell -> cell -> cell) (xs ys : list cell) (n : nat) :
  List.length xs = n -> List.length ys = n -> List.length (zip_with f xs ys) = n.
Proof.
  intros Hx Hy. unfold zip_with. rewrite length_map, length_combine. lia.
Qed.

Lemma shaped_add_pair (n : nat) (base : list string) (col1 col2 : string) (e : Table) :
  shaped n base e -> shaped n base (add_pair col1 col2 e).
Proof.
  intros H. unfold add_pair.
  destruct (get e col1) as [v1|] eqn:G1; [|exact H].
  destruct (get e col2) as [v2|] eqn:G2; [|exact H].
  pose proof (shaped_get _ _ _ _ _ H G1). pose proof (shaped_get _ _ _ _ _ H G2).
  apply shaped_set; [apply shaped_set; [exact H|]|]; now apply zip_with_length.
Qed.

Lemma shaped_pair_features (n : nat) (base base_columns : list string)
    (numeric : list string) :
  forall e, shaped n base e -> shaped n base (pair_features base_columns numeric e).
Proof.
  induction numeric as [|col1 rest IH]; intros e H; simpl; [exact H|].
  apply IH. clear IH. generalize dependent e.
  induction rest as [|col2 rest' IHr]; intros e H; simpl; [exact H|].
  apply IHr. destruct (andb _ _); [now apply shaped_add_pair|exact H].
Qed.

Lemma row_sum_shaped (n : nat) (base : list string) (e : Table) (names : list string) :
  shaped n base e ->
  forall acc out,
    List.length acc = n -> row_sum e names acc = Some out -> List.length out = n.
Proof.
  intros H. induction names as [|name rest IH]; intros acc out Hacc Hs; simpl in Hs.
  - now injection Hs as <-.
  - destruct (get e name) as [v|] eqn:G; [|discriminate].
    apply IH in Hs; [exact Hs|].
    rewrite length_map, length_combine, Hacc, (shaped_get _ _ _ _ _ H G).
    apply Nat.min_id.
Qed.

Lemma shaped_add_combined (n : nat) (base : list string) (word label : string)
    (base_columns : list string) (e : Table) :
  shaped n base e -> shaped n base (add_combined word label base_columns e).
Proof.
  intros H. unfold add_combined. destruct (Nat.ltb 1 _); [|exact H].
  unfold sum_axis1.
  destruct (row_sum e _ _) as [acc|] eqn:Hs; [|exact H].
  apply shaped_set; [exact H|]. rewrite length_map.
  apply (row_sum_shaped n base e (columns_with word base_columns) H
           (repeat 0%R (index_len e))); [|exact Hs].
  rewrite repeat_length. now destruct H.
Qed.

Lemma shaped_add_statistical (n : nat) (base : list string) (numeric : list string)
    (e : Table) (col : string) :
  shaped n base e -> shaped n base (add_statistical numeric e col).
Proof.
  intros H. unfold add_statistical. destruct (mem col numeric); [|exact H].
  destruct (get e col) as [v|] eqn:G; [|exact H].
  assert (Hsq : shaped n base (set e (col ++ "_squared") (squared v))).
  { apply shaped_set; [exact H|]. unfold squared. rewrite length_map.
    exact (shaped_get _ _ _ _ _ H G). }
  destruct (get (set e (col ++ "_squared") (squared v)) col) as [v'|] eqn:G';
    [|exact Hsq].
  destruct (any_positive v'); [|exact Hsq].
  apply shaped_set; [exact Hsq|]. unfold log_column. rewrite length_map.
  exact (shaped_get _ _ _ _ _ Hsq G').
Qed.

Lemma shaped_fold_statistical (n : nat) (base : list string) (numeric : list string)
    (names : list string) :
  forall e, shaped n base e -> shaped n base (fold_left (add_statistical numeric) names e).
Proof.
  induction names as [|col rest IH]; intros e H; simpl; [exact H|].
  apply IH. now apply shaped_add_statistical.
Qed.

Lemma fill_median_no_nan (xs : list cell) : existsb is_nan (fill_median xs) = false.
Proof.
  unfold fill_median. destruct (existsb is_nan xs) eqn:E; [|exact E].
  cbv zeta. generalize (match median xs with Some m => m | None => 0%R end).
  intros m. clear E. induction xs as [|[x|] rest IH]; [reflexivity| |]; exact IH.
Qed.

Lemma shaped_clean (n : nat) (base : list string) (e : Table) :
  shaped n base e ->
  shaped n base (clean e) /\
  Forall (fun kv => existsb is_nan (snd kv) = false) (cols (clean e)).
Proof.
  intros (Hi & Hall & Hnd & Hex). unfold shaped, clean, labels in *.
  cbn [index_len cols].
  assert (Hl : map fst (map (fun kv : string * list cell =>
                               (fst kv, fill_median (snd kv))) (cols e))
               = map fst (cols e)).
  { rewrite map_map. reflexivity. }
  rewrite Hl. repeat split; try assumption.
  - rewrite Forall_map. eapply Forall_impl; [|exact Hall].
    intros kv Hkv. cbn [snd]. now rewrite FeaturesSpec.fill_median_length.
  - rewrite Forall_map. apply Forall_forall. intros kv _. apply fill_median_no_nan.
Qed.

(** X16.  [create_dynamic_features] on base columns that are distinct columns of
    the table, each with one cell per row: an engineered frame is returned,
    with the rows of the table, distinct labels of which the base columns
    come first and in their order, one cell per row in every column, and no
    NaN left in any cell. *)
Theorem engineered_frame_shape (df : DataFrame cell) (base_columns : list string) :
  NoDup base_columns ->
  (forall col, In col base_columns ->
     exists s, lookup col (df_columns df) = Some s /\
               List.length (s_values s) = df_len df) ->
  exists engineered_df engineered,
    create_dynamic_features df base_columns = Ok engineered_df /\
    index_len engineered_df = df_len df /\
    labels engineered_df = (base_columns ++ engineered)%list /\
    NoDup (labels engineered_df) /\
    Forall (fun kv => List.length (snd kv) = df_len df /\
                      existsb is_nan (snd kv) = false) (cols engineered_df).
Proof.
  intros Hnd Hcols.
  destruct (FeaturesSpec.select_spec df base_columns Hcols) as (picked & Hsel & Hl & Hlen).
  unfold create_dynamic_features. rewrite Hsel, (has_duplicates_NoDup _ Hnd). cbv zeta.
  assert (H0 : shaped (df_len df) base_columns (mkTable (df_len df) picked)).
  { unfold shaped, labels. cbn [index_len cols]. rewrite Hl.
    repeat split; try assumption. exists []. now rewrite app_nil_r. }
  set (e := fold_left _ _ _).
  assert (He : shaped (df_len df) base_columns e).
  { unfold e. apply shaped_fold_statistical.
    do 2 apply shaped_add_combined. now apply shaped_pair_features. }
  destruct (shaped_clean _ _ _ He) as [(Hi & Hall & Hnd' & extra & Hex) Hnan].
  exists (clean e), extra. repeat split; try assumption.
  rewrite Forall_forall in *. intros kv Hkv. split; [now apply Hall|now apply Hnan].
Qed.

Lemma engineered_frame_shape_witness :
  exists engineered_df engineered,
    create_dynamic_features
      (mkFrame 2 [("wire_delay", mkSeries float64 [Some 2%R; None]);
                  ("cell_delay", mkSeries float64 [Some 1%R; Some 3%R])])
      ["wire_delay"; "cell_delay"] = Ok engineered_df /\
    index_len engineered_df = 2%nat /\
    labels engineered_df = (["wire_delay"; "cell_delay"] ++ engineered)%list /\
    NoDup (labels engineered_df) /\
    Forall (fun kv => List.length (snd kv) = 2%nat /\
                      existsb is_nan (snd kv) = false) (cols engineered_df).
Proof.
  apply (engineered_frame_shape
           (mkFrame 2 [("wire_delay", mkSeries float64 [Some 2%R; None]);
                       ("cell_delay", mkSeries float64 [Some 1%R; Some 3%R])])
           ["wire_delay"; "cell_delay"]).
  - repeat constructor; simpl; intuition discriminate.
  - intros col [<-|[<-|[]]]; eexists; (split; [reflexivity|reflexivity]).
Defined.

End EngineeredShape.

(** ** Column names cleaned for SQL *)

Module SqlNamesSpec.

Import SqlNames.

Local Open Scope string_scope.

Section Names.

Variable isalnum : ascii -> bool.

#[local] Abbreviation clean_col := (clean_col isalnum).
#[local] Abbreviation kept := (fun c : ascii => orb (isalnum c) (Ascii.eqb c "_")).

Lemma replace_char_absent (old new : ascii) (s : string) :
  all_chars (fun c => negb (Ascii.eqb c old)) s = true -> replace_char old new s = s.
Proof.
  induction s as [|c rest IH]; simpl; [reflexivity|].
  intros H. apply andb_true_iff in H. destruct H as [Hc Hrest].
  apply negb_true_iff in Hc. rewrite Hc. now rewrite IH.
Qed.

Lemma join_if_all (keep : ascii -> bool) (s : string) :
  all_chars keep s = true -> join_if keep s = s.
Proof.
  induction s as [|c rest IH]; simpl; [reflexivity|].
  intros H. apply andb_true_iff in H. destruct H as [Hc Hrest].
  rewrite Hc. now rewrite IH.
Qed.

Lemma join_if_kept (keep : ascii -> bool) (s : string) :
  all_chars keep (join_if keep s) = true.
Proof.
  induction s as [|c rest IH]; simpl; [reflexivity|].
  destruct (keep c) eqn:E; [simpl; now rewrite E|exact IH].
Qed.

Lemma join_if_preserves (keep p : ascii -> bool) (s : string) :
  all_chars p s = true -> all_chars p (join_if keep s) = true.
Proof.
  induction s as [|c rest IH]; simpl; [reflexivity|].
  intros H. apply andb_true_iff in H. destruct H as [Hc Hrest].
  destruct (keep c); [simpl; rewrite Hc; now apply IH|now apply IH].
Qed.

Lemma replace_char_removes (old new : ascii) (s : string) :
  old <> new -> all_chars (fun c => negb (Ascii.eqb c old)) (replace_char old new s) = true.
Proof.
  intros Hne. induction s as [|c rest IH]; simpl; [reflexivity|].
  rewrite IH, andb_true_r.
  destruct (Ascii.eqb_spec c old) as [->|Hc].
  - apply negb_true_iff. apply Ascii.eqb_neq. congruence.
  - apply negb_true_iff. now apply Ascii.eqb_neq.
Qed.

Lemma replace_char_preserves (old new : ascii) (p : ascii -> bool) (s : string) :
  p new = true -> all_chars p s = true -> all_chars p (replace_char old new s) = true.
Proof.
  intros Hn. induction s as [|c rest IH]; simpl; [reflexivity|].
  intros H. apply andb_true_iff in H. destruct H as [Hc Hrest].
  rewrite (IH Hrest), andb_true_r. now destruct (Ascii.eqb c old).
Qed.

Lemma replace_char_twice (old new : ascii) (s : string) :
  old <> new -> replace_char old new (replace_char old new s) = replace_char old new s.
Proof.
  intros Hne. apply replace_char_absent. now apply replace_char_removes.
Qed.

Lemma replace_char_append (old new : ascii) (s1 s2 : string) :
  replace_char old new (s1 ++ s2) = replace_char old new s1 ++ replace_char old new s2.
Proof. induction s1 as [|c rest IH]; simpl; [reflexivity|now rewrite IH]. Qed.

Lemma clean_col_free (col : string) (sep : ascii) :
  sep = " "%char \/ sep = "-"%char \/ sep = "."%char ->
  all_chars (fun c => negb (Ascii.eqb c sep)) (clean_col col) = true.
Proof.
  intros Hsep. unfold SqlNames.clean_col. cbv zeta. apply join_if_preserves.
  destruct Hsep as [ -> | [ -> | -> ] ].
  - apply replace_char_preserves; [reflexivity|].
    apply replace_char_preserves; [reflexivity|].
    apply replace_char_removes. discriminate.
  - apply replace_char_preserves; [reflexivity|].
    apply replace_char_removes. discriminate.
  - apply replace_char_removes. discriminate.
Qed.

(** X17.  The cleaning applied to column names before they are written into SQL:
    the result holds only characters that are alphanumeric or the
    underscore, cleaning a cleaned name changes nothing, and the cleaning is
    not injective: two names that differ by a separator (space, hyphen or
    dot against underscore) are given the same cleaned name. *)
Theorem clean_col_idempotent (col : string) :
  all_chars kept (clean_col col) = true /\
  clean_col (clean_col col) = clean_col col /\
  forall prefix suffix,
    clean_col (prefix ++ " " ++ suffix) = clean_col (prefix ++ "_" ++ suffix) /\
    clean_col (prefix ++ "-" ++ suffix) = clean_col (prefix ++ "_" ++ suffix) /\
    clean_col (prefix ++ "." ++ suffix) = clean_col (prefix ++ "_" ++ suffix).
Proof.
  split; [|split].
  - unfold SqlNames.clean_col. cbv zeta. apply join_if_kept.
  - assert (H1 := clean_col_free col " " (or_introl eq_refl)).
    assert (H2 := clean_col_free col "-" (or_intror (or_introl eq_refl))).
    assert (H3 := clean_col_free col "." (or_intror (or_intror eq_refl))).
    set (name := clean_col col) in *.
    unfold SqlNames.clean_col at 1. cbv zeta.
    rewrite (replace_char_absent " " "_" name H1).
    rewrite (replace_char_absent "-" "_" name H2).
    rewrite (replace_char_absent "." "_" name H3).
    apply join_if_all. unfold name, SqlNames.clean_col. cbv zeta. apply join_if_kept.
  - intros prefix suffix. unfold SqlNames.clean_col. cbv zeta.
    rewrite !replace_char_append. cbn [replace_char Ascii.eqb Bool.eqb].
    repeat split; reflexivity.
Qed.

End Names.

End SqlNamesSpec.

(** ** The chat command [train] *)

Module ChatSpec.

Import Chat.

Local Open Scope string_scope.

Section Command.

Variable isspace : ascii -> bool.

#[local] Abbreviation split_whitespace := (split_whitespace isspace).
#[local] Abbreviation handle_train_command := (handle_train_command isspace).
#[local] Abbreviation is_word := (is_word isspace).
#[local] Abbreviation no_space := (no_space isspace).

Lemma split_word_then (word : string) (c : ascii) (rest : string) :
  is_word word = true -> isspace c = true ->
  split_whitespace (word ++ String c rest) = word :: split_whitespace rest.
Proof.
  intros Hw Hc. unfold Chat.is_word in Hw. apply andb_true_iff in Hw.
  destruct Hw as [Hne Hns]. apply negb_true_iff in Hne.
  destruct word as [|a word]; [discriminate|]. clear Hne.
  revert a Hns. induction word as [|b word IH]; intros a Hns.
  - simpl in Hns. rewrite andb_true_r in Hns. apply negb_true_iff in Hns.
    simpl. now rewrite Hns, Hc.
  - simpl in Hns. apply andb_true_iff in Hns. destruct Hns as [Ha Hrest].
    apply negb_true_iff in Ha.
    assert (Hb : isspace b = false).
    { apply andb_true_iff in Hrest. now apply negb_true_iff. }
    assert (Hrest' : no_space (String b word) = true)
      by (simpl; now rewrite Hrest).
    specialize (IH b Hrest').
    change (String a (String b word) ++ String c rest)
      with (String a (String b (word ++ String c rest))).
    change (String b word ++ String c rest)
      with (String b (word ++ String c rest)) in IH.
    remember (String b (word ++ String c rest)) as tail eqn:Et.
    cbn [Chat.split_whitespace]. rewrite Ha. rewrite Et at 1. rewrite Hb.
    now rewrite IH.
Qed.

Lemma split_last_word (word : string) :
  is_word word = true -> split_whitespace word = [word].
Proof.
  intros Hw. unfold Chat.is_word in Hw. apply andb_true_iff in Hw.
  destruct Hw as [Hne Hns]. apply negb_true_iff in Hne.
  destruct word as [|a word]; [discriminate|]. clear Hne.
  revert a Hns. induction word as [|b word IH]; intros a Hns.
  - simpl in Hns. rewrite andb_true_r in Hns. apply negb_true_iff in Hns.
    simpl. now rewrite Hns.
  - simpl in Hns. apply andb_true_iff in Hns. destruct Hns as [Ha Hrest].
    apply negb_true_iff in Ha.
    assert (Hb : isspace b = false).
    { apply andb_true_iff in Hrest. now apply negb_true_iff. }
    assert (Hrest' : no_space (String b word) = true)
      by (simpl; now rewrite Hrest).
    specialize (IH b Hrest').
    remember (String b word) as tail eqn:Et.
    cbn [Chat.split_whitespace]. rewrite Ha. rewrite Et at 1. rewrite Hb.
    now rewrite IH.
Qed.

(** Words joined by single spaces are split back into the same words. *)
Lemma split_join_words (words : list string) :
  isspace " " = true ->
  forallb is_word words = true ->
  split_whitespace (String.concat " " words) = words.
Proof.
  intros Hsp. induction words as [|w [|w' rest] IH]; intros Hw.
  - reflexivity.
  - simpl in Hw. rewrite andb_true_r in Hw. simpl. now apply split_last_word.
  - cbn [forallb] in Hw. apply andb_true_iff in Hw. destruct Hw as [Hw Hrest].
    change (String.concat " " (w :: w' :: rest))
      with (w ++ String " " (String.concat " " (w' :: rest))).
    rewrite (split_word_then w " " _ Hw Hsp). f_equal. now apply IH.
Qed.

(** X18.  [handle_train_command] on a message of words separated by single
    spaces: an error when there are fewer than three words; otherwise the
    second and third words are the place and CTS tables, the route table is
    the fourth word when there is one and the CTS table when there is none.
    The first word is not read, and words after the fourth are ignored. *)
Theorem handle_train_command_words (words : list string) :
  isspace " " = true ->
  forallb is_word words = true ->
  handle_train_command (String.concat " " words)
  = match words with
    | _ :: place_table :: cts_table :: [] =>
        Training place_table cts_table cts_table
    | _ :: place_table :: cts_table :: route_table :: _ =>
        Training place_table cts_table route_table
    | _ => CommandError
    end.
Proof.
  intros Hsp Hw. unfold Chat.handle_train_command.
  rewrite (split_join_words words Hsp Hw). cbv zeta.
  destruct words as [|w0 [|w1 [|w2 [|w3 rest]]]]; try reflexivity.
  cbn [List.length Nat.ltb Nat.leb nth].
  cbn [forallb] in Hw. repeat (apply andb_true_iff in Hw; destruct Hw as [? Hw]).
  assert (Hne : String.eqb w3 "" = false).
  { unfold Chat.is_word in *.
    match goal with H : andb (negb (String.eqb w3 "")) _ = true |- _ =>
      apply andb_true_iff in H; destruct H as [H' _]; now apply negb_true_iff in H' end. }
  now rewrite Hne.
Qed.

End Command.

Lemma handle_train_command_words_witness :
  Chat.handle_train_command (fun c => Ascii.eqb c " ")
    (String.concat " " ["train"; "place_csv"; "cts_csv"])
  = Training "place_csv" "cts_csv" "cts_csv".
Proof.
  apply (handle_train_command_words (fun c => Ascii.eqb c " ")
           ["train"; "place_csv"; "cts_csv"]); reflexivity.
Defined.

End ChatSpec.

(** ** The statistics stored with the trained route model *)

Module TrainingStatisticsSpec.

Import PyLoop PyLoopFacts Corrector TrainingStatistics.

Lemma np_sum_between (values : list R) (lo hi : R) :
  (forall x, In x values -> lo <= x <= hi) ->
  INR (List.length values) * lo <= np_sum values <= INR (List.length values) * hi.
Proof.
  induction values as [|x rest IH]; intros H.
  - simpl. lra.
  - assert (Hx : lo <= x <= hi) by (apply H; now left).
    assert (Hrest : forall y, In y rest -> lo <= y <= hi) by (intros y Hy; apply H; now right).
    specialize (IH Hrest). change (np_sum (x :: rest)) with (x + np_sum rest).
    change (List.length (x :: rest)) with (S (List.length rest)). rewrite S_INR. lra.
Qed.

(** X19.  The statistics that [train_model] stores are ordered, min <= mean <= max
    and 0 <= std, so the bounds that [apply_training_data_bounds] derives
    from them contain the training range: a prediction inside the range of
    the training targets that is within 2.0 of the worse input slack is
    returned unchanged. *)
Theorem training_range_prediction_kept (values : list R) (s : TrainingStats)
    (pred place_slack cts_slack : R) :
  training_stats values = Some s ->
  stat_min s <= pred <= stat_max s ->
  Rabs (pred - Rmin place_slack cts_slack) <= 2.0 ->
  stat_min s <= stat_mean s <= stat_max s /\
  0 <= stat_std s /\
  bounds_row s pred place_slack cts_slack = pred.
Proof.
  unfold training_stats. intros Hs Hp Hnear.
  destruct (np_min values) as [lo|] eqn:Hlo; [|discriminate].
  destruct (np_max values) as [hi|] eqn:Hhi; [|discriminate].
  injection Hs as <-. cbn [stat_min stat_max stat_mean stat_std] in *.
  assert (Hstd : 0 <= np_std values) by (unfold np_std; apply sqrt_pos).
  split; [|split; [exact Hstd|]].
  - assert (Hall : forall x, In x values -> lo <= x <= hi).
    { intros x Hx. split;
        [apply (CorrectorBounds.np_min_le values lo x Hlo Hx)
        |apply (CorrectorBounds.np_max_ge values hi x Hhi Hx)]. }
    pose proof (np_sum_between values lo hi Hall) as Hsum.
    assert (Hn : 0 < INR (List.length values)).
    { destruct values; [discriminate|]. apply lt_0_INR. simpl. lia. }
    unfold np_mean. split.
    + apply Rmult_le_reg_r with (r := INR (List.length values)); [exact Hn|].
      unfold Rdiv. rewrite Rmult_assoc, Rinv_l by lra. lra.
    + apply Rmult_le_reg_r with (r := INR (List.length values)); [exact Hn|].
      unfold Rdiv. rewrite Rmult_assoc, Rinv_l by lra. lra.
  - unfold bounds_row, clamped, final_lower, final_upper. cbv zeta.
    cbn [stat_min stat_max stat_std].
    set (m := Rmin place_slack cts_slack) in *.
    set (M := Rmax place_slack cts_slack) in *.
    assert (Hlow : Rmin (m - Rabs m * 0.5) (lo - np_std values * 1.0) <= pred).
    { eapply Rle_trans; [apply Rmin_r|]. lra. }
    assert (Hup : pred <= Rmax (M + Rabs M * 0.2) (hi + np_std values * 1.0)).
    { eapply Rle_trans; [|apply Rmax_r]. lra. }
    rewrite (Rmax_left pred _ Hlow), (Rmin_left pred _ Hup).
    destruct (Rgt_dec (Rabs (pred - m)) 2.0); [lra|reflexivity].
Qed.

Lemma training_range_prediction_kept_witness :
  stat_min (mkStats 0 1 (np_mean [0; 1]) (np_std [0; 1]))
  <= stat_mean (mkStats 0 1 (np_mean [0; 1]) (np_std [0; 1]))
  <= stat_max (mkStats 0 1 (np_mean [0; 1]) (np_std [0; 1])) /\
  0 <= stat_std (mkStats 0 1 (np_mean [0; 1]) (np_std [0; 1])) /\
  bounds_row (mkStats 0 1 (np_mean [0; 1]) (np_std [0; 1])) 0.5 0.25 0.75 = 0.5.
Proof.
  apply (training_range_prediction_kept [0; 1]
           (mkStats 0 1 (np_mean [0; 1]) (np_std [0; 1])) 0.5 0.25 0.75).
  - unfold training_stats, np_min, np_max. cbn [fold_left].
    rewrite Rmin_left, Rmax_right by lra. reflexivity.
  - cbn [stat_min stat_max]. lra.
  - rewrite Rmin_left by lra. unfold Rabs. destruct (Rcase_abs _); lra.
Defined.

End TrainingStatisticsSpec.

(** ** The columns of the merged table *)

Module MergedColumnsSpec.

Import PyStr PyStrFacts Frame Features MergedColumns.

Local Open Scope string_scope.

Lemma endswith_append (suffix s : string) : endswith suffix (s ++ suffix) = true.
Proof.
  induction s as [|c rest IH]; simpl.
  - destruct suffix; simpl; [reflexivity|]. now rewrite Ascii.eqb_refl, String.eqb_refl.
  - destruct (String.eqb suffix (String c (rest ++ suffix))); [reflexivity|exact IH].
Qed.

Lemma endswith_split (suffix s : string) :
  endswith suffix s = true -> exists prefix, s = prefix ++ suffix.
Proof.
  induction s as [|c rest IH]; simpl.
  - destruct (String.eqb_spec suffix "") as [->|_]; [|discriminate].
    intros _. now exists "".
  - destruct (String.eqb_spec suffix (String c rest)) as [->|_].
    + intros _. now exists "".
    + intros H. destruct (IH H) as [prefix ->]. now exists (String c prefix).
Qed.

Lemma last_char_append (s t : string) :
  t <> "" -> last_char (s ++ t) = last_char t.
Proof.
  intros Ht. induction s as [|c rest IH]; [reflexivity|].
  change (String c rest ++ t) with (String c (rest ++ t)).
  cbn [last_char]. destruct (rest ++ t) eqn:E; [|exact IH].
  destruct rest; [simpl in E; contradiction|discriminate].
Qed.

Lemma cts_suffix_not_place (col : string) : endswith "_place" (col ++ "_cts") = false.
Proof.
  destruct (endswith "_place" (col ++ "_cts")) eqn:E; [|reflexivity].
  apply endswith_split in E. destruct E as [prefix E].
  apply (f_equal last_char) in E.
  rewrite !last_char_append in E by discriminate. discriminate.
Qed.

Lemma place_suffix_not_cts (col : string) : endswith "_cts" (col ++ "_place") = false.
Proof.
  destruct (endswith "_cts" (col ++ "_place")) eqn:E; [|reflexivity].
  apply endswith_split in E. destruct E as [prefix E].
  apply (f_equal last_char) in E.
  rewrite !last_char_append in E by discriminate. discriminate.
Qed.

Lemma length_append (s t : string) :
  String.length (s ++ t) = (String.length s + String.length t)%nat.
Proof. induction s as [|c rest IH]; simpl; [reflexivity|now rewrite IH]. Qed.

Lemma substring_prefix (s t : string) : String.substring 0 (String.length s) (s ++ t) = s.
Proof.
  induction s as [|c rest IH]; simpl.
  - now destruct t.
  - now rewrite IH.
Qed.

Lemma drop_last_append (s suffix : string) :
  drop_last (String.length suffix) (s ++ suffix) = s.
Proof.
  unfold drop_last. rewrite length_append, Nat.add_sub. apply substring_prefix.
Qed.

(** Extraction over a list of merged labels built from the columns [cols] of
    one side: the labels that took the suffix come out, in order. *)
Lemma extract_side (suffix : string) (shared : string -> bool) (cols : list string) :
  (forall col, In col cols -> endswith suffix col = false) ->
  forall labels,
    NoDup (labels ++ filter shared cols) ->
    fold_left
      (fun labels col =>
         if endswith suffix col
         then add_label labels (drop_last (String.length suffix) col)
         else labels)
      (map (fun col => if shared col then col ++ suffix else col) cols) labels
    = (labels ++ filter shared cols)%list.
Proof.
  induction cols as [|c rest IH]; intros Hplain labels Hnd; simpl.
  - now rewrite app_nil_r.
  - simpl in Hnd. destruct (shared c) eqn:Es.
    + rewrite endswith_append, drop_last_append. unfold add_label.
      assert (Hfresh : mem c labels = false).
      { destruct (mem c labels) eqn:Em; [|reflexivity]. exfalso.
        apply mem_true_iff in Em. apply NoDup_remove_2 in Hnd.
        apply Hnd. apply in_or_app. now left. }
      rewrite Hfresh. rewrite IH.
      * now rewrite <- app_assoc.
      * intros col Hc. apply Hplain. now right.
      * now rewrite <- app_assoc.
    + rewrite (Hplain c (or_introl eq_refl)). apply IH; [|exact Hnd].
      intros col Hc. apply Hplain. now right.
Qed.

Lemma extract_none (suffix : string) (cols : list string) :
  (forall col, In col cols -> endswith suffix col = false) ->
  forall labels,
    fold_left
      (fun labels col =>
         if endswith suffix col
         then add_label labels (drop_last (String.length suffix) col)
         else labels)
      cols labels
    = labels.
Proof.
  induction cols as [|c rest IH]; intros Hplain labels; simpl; [reflexivity|].
  rewrite (Hplain c (or_introl eq_refl)). apply IH.
  intros col Hc. apply Hplain. now right.
Qed.

(** X21.  The place frame that [predict] rebuilds from the merged table holds
    the key and those place columns whose label is also a label of the CTS
    table, and no other: pandas gives the suffix [_place] only to labels
    found on both sides, and the extraction keeps only suffixed labels.  (The
    labels of the place table are distinct, and no label of either table ends
    with [_place].)  A base column of the place table that the CTS table
    lacks is therefore missing from the frame, and
    [recreate_trained_features] raises [ValueError] on it. *)
Theorem extracted_place_columns_shared (left right : list string) :
  NoDup left ->
  (forall col, In col left \/ In col right -> endswith "_place" col = false) ->
  extracted_place_columns left right
  = key_column
    :: filter (fun col => andb (negb (String.eqb col key_column)) (mem col right)) left /\
  forall (df : DataFrame cell) (trained_feature_columns base_columns : list string)
         (col : string),
    columns df = extracted_place_columns left right ->
    In col base_columns -> col <> key_column -> ~ In col right ->
    recreate_trained_features df trained_feature_columns base_columns
    = Raise ValueError.
Proof.
  intros Hnd Hplain.
  set (shared := fun col => andb (negb (String.eqb col key_column)) (mem col right)).
  assert (Hleft : map (fun col =>
                         if String.eqb col key_column then col
                         else if mem col right then col ++ "_place" else col) left
                  = map (fun col => if shared col then col ++ "_place" else col) left).
  { apply map_ext. intros col. unfold shared.
    now destruct (String.eqb col key_column). }
  assert (Hext : extracted_place_columns left right = key_column :: filter shared left).
  { unfold extracted_place_columns, extracted_columns, merged_columns.
    rewrite Hleft, fold_left_app.
    rewrite (extract_side "_place" shared left).
    - apply extract_none. intros col Hc. apply in_map_iff in Hc.
      destruct Hc as (c & <- & Hc). apply filter_In in Hc. destruct Hc as [Hc _].
      destruct (mem c left); [apply cts_suffix_not_place|apply Hplain; now right].
    - intros col Hc. apply Hplain. now left.
    - cbn [app]. constructor.
      + intros Hin. apply filter_In in Hin. destruct Hin as [_ Hin].
        unfold shared in Hin. now rewrite String.eqb_refl in Hin.
      + apply NoDup_filter. exact Hnd. }
  split; [exact Hext|].
  intros df trained base col Hcols Hbase Hk Hr.
  unfold recreate_trained_features.
  assert (Hmiss : forallb (fun c => mem c (columns df)) base = false).
  { destruct (forallb (fun c => mem c (columns df)) base) eqn:E; [|reflexivity].
    exfalso. rewrite forallb_forall in E. specialize (E col Hbase).
    apply mem_true_iff in E. rewrite Hcols, Hext in E.
    destruct E as [E|E].
    - now apply Hk.
    - apply filter_In in E. destruct E as [_ E]. unfold shared in E.
      apply andb_true_iff in E. destruct E as [_ E].
      apply mem_true_iff in E. contradiction. }
  now rewrite Hmiss.
Qed.

Lemma extracted_place_columns_shared_witness :
  extracted_place_columns
    ["endpoint"; "slack"; "fanout"; "normalized_endpoint"]
    ["endpoint"; "slack"; "skew"; "normalized_endpoint"]
  = key_column
    :: filter (fun col =>
                 andb (negb (String.eqb col key_column))
                      (mem col ["endpoint"; "slack"; "skew"; "normalized_endpoint"]))
         ["endpoint"; "slack"; "fanout"; "normalized_endpoint"] /\
  forall (df : DataFrame cell) (trained_feature_columns base_columns : list string)
         (col : string),
    columns df
    = extracted_place_columns
        ["endpoint"; "slack"; "fanout"; "normalized_endpoint"]
        ["endpoint"; "slack"; "skew"; "normalized_endpoint"] ->
    In col base_columns -> col <> key_column ->
    ~ In col ["endpoint"; "slack"; "skew"; "normalized_endpoint"] ->
    recreate_trained_features df trained_feature_columns base_columns
    = Raise ValueError.
Proof.
  apply (extracted_place_columns_shared
           ["endpoint"; "slack"; "fanout"; "normalized_endpoint"]
           ["endpoint"; "slack"; "skew"; "normalized_endpoint"]).
  - repeat constructor; simpl; intuition discriminate.
  - intros col [H|H]; simpl in H;
      repeat (destruct H as [<-|H]; [reflexivity|]); destruct H.
Defined.

End MergedColumnsSpec.

(** ** The predicted route table *)

Module ServedSpec.

Import PyStr PyStrFacts Corrector Alignment AlignmentChecks MergedColumns Served.

Local Open Scope string_scope.





Section Table.

Context {Row : Type}.
Variable endpoint : Row -> string.
Variable slack : Row -> R.
Variable beginpoint : Row -> string.



End Table.


End ServedSpec.

(** ** The outcome of the Feature Reconstructor, with its warnings *)

Module ReconstructorOutcome.

Import PyStr PyStrFacts Frame Features FrameShape ReconstructorLog.

Local Open Scope string_scope.

Lemma logged_loop_frame (base_columns expected : list string) :
  forall state,
    fst (fold_left (recreate_feature_logged base_columns) expected state)
    = fold_left (recreate_feature base_columns) expected (fst state).
Proof.
  induction expected as [|f rest IH]; intros state; simpl; [reflexivity|].
  now rewrite IH.
Qed.

Lemma logged_loop_keeps (base_columns expected : list string) (w : warning) :
  forall state,
    In w (snd state) ->
    In w (snd (fold_left (recreate_feature_logged base_columns) expected state)).
Proof.
  induction expected as [|f rest IH]; intros state Hw; simpl; [exact Hw|].
  apply IH. cbn [recreate_feature_logged snd]. apply in_or_app. now left.
Qed.

Lemma iteration_warning_gives_up (base_columns : list string) (e : Table) (f : string) :
  gives_up base_columns f = true ->
  iteration_warning base_columns e f = Some (CouldNotRecreate f).
Proof.
  unfold gives_up, iteration_warning, combined_warning, unary_warning.
  repeat match goal with
         | |- context [if ?c then _ else _] => destruct c
         end; simpl; intros H; try discriminate; reflexivity.
Qed.

Lemma logged_loop_warns (base_columns : list string) (name : string) :
  gives_up base_columns name = true ->
  forall expected state,
    In name expected ->
    In (CouldNotRecreate name)
       (snd (fold_left (recreate_feature_logged base_columns) expected state)).
Proof.
  intros Hg. induction expected as [|f rest IH]; intros state Hin; [destruct Hin|].
  simpl. destruct Hin as [->|Hin]; [|now apply IH].
  apply logged_loop_keeps. cbn [recreate_feature_logged snd].
  rewrite (iteration_warning_gives_up _ _ _ Hg). apply in_or_app. right. now left.
Qed.

Lemma logged_agrees (df : DataFrame cell) (trained_feature_columns base_columns : list string) :
  recreate_trained_features df trained_feature_columns base_columns
  = match recreate_trained_features_logged df trained_feature_columns base_columns with
    | Ok (t, _) => Ok t
    | Raise e => Raise e
    end.
Proof.
  unfold recreate_trained_features, recreate_trained_features_logged.
  destruct (negb _); [reflexivity|].
  destruct (select df base_columns) as [picked|]; [|reflexivity].
  destruct (has_duplicates base_columns); [reflexivity|].
  cbv zeta. now rewrite logged_loop_frame.
Qed.

(** *** Names left without a column *)

Lemma left_out_unassigned (base_columns : list string) (e : Table) (f : string) :
  left_out base_columns f = true -> recreate_feature base_columns e f = e.
Proof.
  unfold left_out, recreate_feature, recreate_pair.
  destruct (contains "_ratio" f).
  - destruct (Nat.leb 2 _); [|discriminate].
    destruct (pair_operands _ _) as [[col1 col2]|]; [discriminate|reflexivity].
  - destruct (contains "_interaction" f); [|discriminate].
    destruct (Nat.leb 2 _); [|discriminate].
    destruct (pair_operands _ _) as [[col1 col2]|]; [discriminate|reflexivity].
Qed.

Lemma assigned_unless_left_out (base_columns : list string) (e : Table) (f : string) :
  left_out base_columns f = false ->
  exists v, recreate_feature base_columns e f = set e f v.
Proof.
  unfold left_out, recreate_feature, recreate_pair, recreate_combined, recreate_unary,
    set_scalar.
  repeat match goal with
         | |- context [if ?c then _ else _] => destruct c
         | |- context [match ?x with _ => _ end] => destruct x
         end; simpl; intros H; try discriminate; eauto.
Qed.

Lemma loop_leaves_out (base_columns : list string) (name : string) :
  left_out base_columns name = true ->
  forall expected e,
    get e name = None ->
    get (fold_left (recreate_feature base_columns) expected e) name = None.
Proof.
  intros Hl. induction expected as [|f rest IH]; intros e He; simpl; [exact He|].
  apply IH. destruct (String.eqb_spec name f) as [<-|Hne].
  - now rewrite left_out_unassigned.
  - now rewrite FeaturesSpec.recreate_feature_other.
Qed.

Lemma loop_keeps_present (base_columns : list string) (c : string) :
  forall expected e,
    get e c <> None ->
    get (fold_left (recreate_feature base_columns) expected e) c <> None.
Proof.
  induction expected as [|f rest IH]; intros e He; simpl; [exact He|].
  apply IH.
  destruct (FeaturesSpec.recreate_feature_shape base_columns e f) as [->|[v ->]];
    [exact He|].
  destruct (String.eqb_spec c f) as [->|Hne].
  - rewrite FeaturesSpec.get_set_same. discriminate.
  - now rewrite FeaturesSpec.get_set_other.
Qed.

Lemma loop_assigns (base_columns : list string) (c : string) :
  left_out base_columns c = false ->
  forall expected e,
    In c expected ->
    get (fold_left (recreate_feature base_columns) expected e) c <> None.
Proof.
  intros Hl. induction expected as [|f rest IH]; intros e Hin; [destruct Hin|].
  simpl. destruct Hin as [->|Hin]; [|now apply IH].
  apply loop_keeps_present.
  destruct (assigned_unless_left_out base_columns e c Hl) as [v ->].
  rewrite FeaturesSpec.get_set_same. discriminate.
Qed.

Lemma lookup_labels {A : Type} (name : string) (l : list (string * A)) :
  lookup name l = None <-> ~ In name (map fst l).
Proof.
  induction l as [|[k w] rest IH]; simpl; [tauto|].
  destruct (String.eqb_spec k name) as [->|Hne].
  - split; [discriminate|tauto].
  - rewrite IH. tauto.
Qed.

(** *** One cell per row *)

Lemma shaped_recreate_feature (n : nat) (base base_columns : list string) (e : Table)
    (f : string) :
  shaped n base e -> shaped n base (recreate_feature base_columns e f).
Proof.
  intros H.
  assert (Hi : index_len e = n) by now destruct H.
  assert (Hz : shaped n base (set_scalar e f 0.0)).
  { apply EngineeredShape.shaped_set; [exact H|]. now rewrite repeat_length. }
  assert (Hpair : forall op parts,
             (forall xs ys, List.length xs = n -> List.length ys = n ->
                            List.length (op xs ys) = n) ->
             shaped n base (recreate_pair op base_columns parts f e)).
  { intros op parts Hop. unfold recreate_pair.
    destruct (pair_operands _ _) as [[col1 col2]|]; [|exact H].
    destruct (get e col1) as [v1|] eqn:G1; [|exact Hz].
    destruct (get e col2) as [v2|] eqn:G2; [|exact Hz].
    apply EngineeredShape.shaped_set; [exact H|].
    apply Hop; [exact (EngineeredShape.shaped_get _ _ _ _ _ H G1)
               |exact (EngineeredShape.shaped_get _ _ _ _ _ H G2)]. }
  assert (Hcomb : forall word, shaped n base (recreate_combined word base_columns f e)).
  { intros word. unfold recreate_combined. destruct (Nat.ltb 1 _); [|exact Hz].
    unfold sum_axis1. destruct (row_sum e _ _) as [acc|] eqn:Hs; [|exact Hz].
    apply EngineeredShape.shaped_set; [exact H|]. rewrite length_map.
    apply (EngineeredShape.row_sum_shaped n base e (columns_with word base_columns) H
             (repeat 0%R (index_len e))); [|exact Hs].
    now rewrite repeat_length. }
  assert (Hun : forall op suffix,
             (forall xs, List.length (op xs) = List.length xs) ->
             shaped n base (recreate_unary op suffix base_columns f e)).
  { intros op suffix Hop. unfold recreate_unary. destruct (mem _ _); [|exact Hz].
    destruct (get e _) as [v|] eqn:G; [|exact Hz].
    apply EngineeredShape.shaped_set; [exact H|].
    rewrite Hop. exact (EngineeredShape.shaped_get _ _ _ _ _ H G). }
  unfold recreate_feature.
  repeat match goal with
         | |- context [if ?c then _ else _] => destruct c
         end; try exact Hz; try apply Hcomb.
  - apply Hpair. intros xs ys. apply EngineeredShape.zip_with_length.
  - apply Hpair. intros xs ys. apply EngineeredShape.zip_with_length.
  - apply Hun. intros xs. apply length_map.
  - apply Hun. intros xs. apply length_map.
Qed.

Lemma shaped_loop (n : nat) (base base_columns expected : list string) :
  forall e, shaped n base e ->
            shaped n base (fold_left (recreate_feature base_columns) expected e).
Proof.
  induction expected as [|f rest IH]; intros e H; simpl; [exact H|].
  apply IH. now apply shaped_recreate_feature.
Qed.

(** *** The final loop on a frame with rows *)

Lemma final_assign_index (n : nat) (base : list string) (eng f : Table) (col : string) :
  shaped n base eng -> (0 < n)%nat ->
  index_len f = 0%nat \/ index_len f = n ->
  (index_len (final_assign eng f col) = 0%nat \/ index_len (final_assign eng f col) = n) /\
  (get eng col <> None -> index_len (final_assign eng f col) = n) /\
  (index_len f = n -> index_len (final_assign eng f col) = n).
Proof.
  intros Hs Hn Hf. unfold final_assign.
  destruct (get eng col) as [v|] eqn:G.
  - assert (Hv : List.length v = n) by exact (EngineeredShape.shaped_get _ _ _ _ _ Hs G).
    rewrite Hv. assert (Nat.ltb 0 n = true) as -> by (apply Nat.ltb_lt; exact Hn).
    destruct Hf as [Hf|Hf]; rewrite Hf.
    + cbn. tauto.
    + assert (Nat.eqb n 0 = false) as -> by (apply Nat.eqb_neq; lia).
      cbn. rewrite Hf. tauto.
  - cbn. repeat split; [exact Hf|congruence|tauto].
Qed.

Lemma final_index (n : nat) (base : list string) (eng : Table) (c : string) :
  shaped n base eng -> (0 < n)%nat -> get eng c <> None ->
  forall trained f,
    index_len f = 0%nat \/ index_len f = n ->
    In c trained ->
    index_len (fold_left (final_assign eng) trained f) = n.
Proof.
  intros Hs Hn Hc.
  assert (Hkeep : forall trained f,
             index_len f = n -> index_len (fold_left (final_assign eng) trained f) = n).
  { induction trained as [|col rest IH]; intros f Hf; simpl; [exact Hf|].
    apply IH. apply (final_assign_index n base eng f col Hs Hn); [now right|exact Hf]. }
  induction trained as [|col rest IH]; intros f Hf Hin; [destruct Hin|].
  simpl. destruct (final_assign_index n base eng f col Hs Hn Hf) as (Hcases & Hpresent & _).
  destruct Hin as [->|Hin].
  - apply Hkeep. now apply Hpresent.
  - now apply IH.
Qed.

Lemma final_keeps_other (eng : Table) (name : string) :
  forall trained f,
    index_len f <> 0%nat -> ~ In name trained ->
    get (fold_left (final_assign eng) trained f) name = get f name /\
    index_len (fold_left (final_assign eng) trained f) = index_len f.
Proof.
  induction trained as [|col rest IH]; intros f Hi Hn; simpl; [tauto|].
  assert (Hz : Nat.eqb (index_len f) 0 = false) by now apply Nat.eqb_neq.
  assert (Hne : name <> col) by (intros ->; apply Hn; now left).
  assert (Hstep : get (final_assign eng f col) name = get f name /\
                  index_len (final_assign eng f col) = index_len f).
  { unfold final_assign. destruct (get eng col) as [w|].
    - rewrite Hz. cbn [andb]. now rewrite FeaturesSpec.get_set_other.
    - unfold set_scalar. now rewrite FeaturesSpec.get_set_other. }
  destruct Hstep as [Hg Hidx].
  destruct (IH (final_assign eng f col)) as [IHg IHi].
  - now rewrite Hidx.
  - intros Hin. apply Hn. now right.
  - rewrite IHg, IHi. now rewrite Hg, Hidx.
Qed.

Lemma final_warns (eng : Table) (name : string) (trained : list string) :
  In name trained -> get eng name = None ->
  In (MissingExpected name) (final_warnings eng trained).
Proof.
  intros Hin Hg. unfold final_warnings. apply in_flat_map.
  exists name. split; [exact Hin|]. rewrite Hg. now left.
Qed.

(** C2 (as amended).  [recreate_trained_features] is the table of
    [recreate_trained_features_logged], which also gives the warnings.  It
    raises [ValueError] when some base column is absent from the raw table.
    When every base column is present, and the base columns are distinct, it
    does not raise: it returns an engineered table whose columns are the
    trained feature names, in order (for distinct names).  A trained name on
    which the loop gives up is reported by the warning "Could not recreate
    feature", and on a table with rows it is the constant 0.  A ratio or
    interaction name for which no split gives two base columns is reported
    by the warning "Missing expected column"; on a table with rows, with one
    cell per row in every base column, it is the constant 0 when an earlier
    trained name is a base column or a name that the loop does not leave
    without a column. *)
Theorem C2_reconstructor_outcome
    (df : DataFrame cell) (trained_feature_columns base_columns : list string) :
  recreate_trained_features df trained_feature_columns base_columns
  = match recreate_trained_features_logged df trained_feature_columns base_columns with
    | Ok (t, _) => Ok t
    | Raise e => Raise e
    end /\
  ((exists col, In col base_columns /\ mem col (columns df) = false) ->
   recreate_trained_features_logged df trained_feature_columns base_columns
   = Raise ValueError) /\
  ((forall col, In col base_columns -> mem col (columns df) = true) ->
   NoDup base_columns ->
   exists t log,
     recreate_trained_features_logged df trained_feature_columns base_columns
     = Ok (t, log) /\
     (NoDup trained_feature_columns -> labels t = trained_feature_columns) /\
     (forall name,
        In name trained_feature_columns ->
        ~ In name base_columns ->
        gives_up base_columns name = true ->
        In (CouldNotRecreate name) log /\
        ((0 < df_len df)%nat ->
         get t name = Some (repeat (Some 0%R) (df_len df)))) /\
     (forall name,
        In name trained_feature_columns ->
        ~ In name base_columns ->
        left_out base_columns name = true ->
        In (MissingExpected name) log /\
        forall pre post earlier,
          trained_feature_columns = (pre ++ name :: post)%list ->
          NoDup trained_feature_columns ->
          In earlier pre ->
          In earlier base_columns \/ left_out base_columns earlier = false ->
          (0 < df_len df)%nat ->
          (forall col, In col base_columns ->
             exists s, lookup col (df_columns df) = Some s /\
                       List.length (s_values s) = df_len df) ->
          get t name = Some (repeat (Some 0%R) (df_len df)))).
Proof.
  split; [apply logged_agrees|].
  unfold recreate_trained_features_logged. split.
  - intros (col & Hin & Hm).
    destruct (forallb (fun c => mem c (columns df)) base_columns) eqn:E; [|reflexivity].
    rewrite forallb_forall in E. specialize (E col Hin). congruence.
  - intros Hall Hnd.
    assert (E : forallb (fun c => mem c (columns df)) base_columns = true)
      by (apply forallb_forall; exact Hall).
    rewrite E. cbn [negb].
    destruct (FeaturesSpec.select_present df base_columns Hall) as [picked Hsel].
    rewrite Hsel, (has_duplicates_NoDup _ Hnd). cbv zeta.
    rewrite logged_loop_frame. cbn [fst].
    set (expected := filter (fun col => negb (mem col base_columns))
                       trained_feature_columns).
    set (e0 := mkTable (df_len df) picked).
    assert (Hexp : forall name, In name trained_feature_columns ->
                                ~ In name base_columns -> In name expected).
    { intros name Hin Hnb. apply filter_In. split; [exact Hin|].
      destruct (mem name base_columns) eqn:Em; [|reflexivity].
      apply mem_true_iff in Em. contradiction. }
    eexists. eexists. split; [reflexivity|]. split; [|split].
    + intros Hndt.
      apply (FeaturesSpec.final_labels _ trained_feature_columns (mkTable 0 [])).
      exact Hndt.
    + intros name Hin Hnb Hg. split.
      * apply in_or_app. left. apply logged_loop_warns; [exact Hg|now apply Hexp].
      * intros Hrows. apply FeaturesSpec.final_takes_column.
        -- rewrite FeaturesSpec.get_clean, FeaturesSpec.loop_zero_fills;
             [| exact Hg | now apply Hexp].
           cbn [e0 index_len option_map]. now rewrite FeaturesSpec.fill_median_zeros.
        -- destruct (df_len df); [lia|discriminate].
        -- exact Hin.
    + intros name Hin Hnb Hl.
      assert (Hpicked : forall picked', select df base_columns = Some picked' ->
                                        map fst picked' = base_columns).
      { clear. revert base_columns. induction base_columns as [|b rest IH];
          intros picked' Hs; simpl in Hs.
        - now injection Hs as <-.
        - destruct (lookup b (df_columns df)) as [s|]; [|discriminate].
          destruct (select df rest) as [p|]; [|discriminate].
          injection Hs as <-. simpl. f_equal. now apply IH. }
      assert (Habsent : get (clean (fold_left (recreate_feature base_columns) expected e0))
                          name = None).
      { rewrite FeaturesSpec.get_clean, loop_leaves_out; [reflexivity|exact Hl|].
        apply lookup_labels. cbn [e0 cols]. now rewrite (Hpicked _ Hsel). }
      split.
      * apply in_or_app. right. now apply final_warns.
      * intros pre post earlier Htr Hndt Hpre Hearlier Hrows Hwf.
        destruct (FeaturesSpec.select_spec df base_columns Hwf)
          as (picked' & Hsel' & Hlab & Hlen).
        rewrite Hsel in Hsel'. injection Hsel' as <-.
        assert (H0 : shaped (df_len df) base_columns e0).
        { unfold shaped, labels. cbn [e0 index_len cols]. rewrite Hlab.
          repeat split; try assumption. exists []. now rewrite app_nil_r. }
        set (eng := clean (fold_left (recreate_feature base_columns) expected e0)) in *.
        assert (Heng : shaped (df_len df) base_columns eng).
        { apply EngineeredShape.shaped_clean. now apply shaped_loop. }
        assert (Hc : get eng earlier <> None).
        { unfold eng. rewrite FeaturesSpec.get_clean.
          assert (Hloop : get (fold_left (recreate_feature base_columns) expected e0)
                            earlier <> None).
          { destruct (in_dec string_dec earlier base_columns) as [Hb|Hnb'].
            - apply loop_keeps_present. intros Hnone.
              apply lookup_labels in Hnone. apply Hnone. cbn [e0 cols].
              now rewrite Hlab.
            - destruct Hearlier as [Hb|Hleft]; [contradiction|].
              apply loop_assigns; [exact Hleft|]. apply Hexp; [|exact Hnb'].
              rewrite Htr. apply in_or_app. now left. }
          destruct (get _ earlier); [discriminate|congruence]. }
        rewrite Htr, fold_left_app. cbn [fold_left].
        set (f1 := fold_left (final_assign eng) pre (mkTable 0 [])).
        assert (Hf1 : index_len f1 = df_len df).
        { apply (final_index (df_len df) base_columns eng earlier Heng Hrows Hc);
            [now left|exact Hpre]. }
        assert (Hnpost : ~ In name post).
        { rewrite Htr in Hndt. apply NoDup_remove_2 in Hndt.
          intros Hp. apply Hndt. apply in_or_app. now right. }
        assert (Hstep : final_assign eng f1 name = set f1 name (zeros (df_len df))).
        { unfold final_assign. rewrite Habsent, FeaturesSpec.set_scalar_zero.
          now rewrite Hf1. }
        rewrite Hstep.
        destruct (final_keeps_other eng name post (set f1 name (zeros (df_len df))))
          as [Hg _].
        -- cbn [set index_len]. lia.
        -- exact Hnpost.
        -- rewrite Hg. apply FeaturesSpec.get_set_same.
Qed.

(** The claim as written fails: a raw table without the base column "b". *)
Lemma C2_missing_base_column_counterexample :
  ~ (forall (df : DataFrame cell) (trained_feature_columns base_columns : list string),
       exists t,
         recreate_trained_features df trained_feature_columns base_columns = Ok t).
Proof.
  intros H.
  destruct (H (mkFrame 1 [("a", mkSeries float64 [Some 1%R])]) ["b"] ["b"]) as [t Ht].
  discriminate Ht.
Qed.

(** C2 on a table of one row: an absent base column; a trained name that no
    rule matches; a ratio name whose second operand is not a base column. *)
Lemma C2_reconstructor_outcome_witness :
  recreate_trained_features_logged (mkFrame 1 [("a", mkSeries float64 [Some 1%R])])
    ["b"] ["b"] = Raise ValueError /\
  exists t log,
    recreate_trained_features_logged (mkFrame 1 [("a", mkSeries float64 [Some 1%R])])
      ["a"; "fanout_depth"; "a_b_ratio"] ["a"] = Ok (t, log) /\
    labels t = ["a"; "fanout_depth"; "a_b_ratio"] /\
    get t "fanout_depth" = Some [Some 0%R] /\
    In (CouldNotRecreate "fanout_depth") log /\
    get t "a_b_ratio" = Some [Some 0%R] /\
    In (MissingExpected "a_b_ratio") log.
Proof.
  split.
  - apply (C2_reconstructor_outcome (mkFrame 1 [("a", mkSeries float64 [Some 1%R])])
             ["b"] ["b"]).
    exists "b". split; [now left|reflexivity].
  - destruct (proj2 (proj2 (C2_reconstructor_outcome
                       (mkFrame 1 [("a", mkSeries float64 [Some 1%R])])
                       ["a"; "fanout_depth"; "a_b_ratio"] ["a"])))
      as (t & log & Ht & Hlabels & Hzero & Hleft).
    + intros col [<-|[]]. reflexivity.
    + repeat constructor; simpl; tauto.
    + assert (Hnd : NoDup ["a"; "fanout_depth"; "a_b_ratio"])
        by (repeat constructor; simpl; intuition discriminate).
      destruct (Hzero "fanout_depth") as [Hw Hz];
        [right; now left|simpl; intuition discriminate|reflexivity|].
      destruct (Hleft "a_b_ratio") as [Hm Hr];
        [right; right; now left|simpl; intuition discriminate|reflexivity|].
      exists t, log. split; [exact Ht|]. split; [now apply Hlabels|].
      split; [apply Hz; simpl; lia|]. split; [exact Hw|]. split; [|exact Hm].
      apply (Hr ["a"; "fanout_depth"] [] "a").
      * reflexivity.
      * exact Hnd.
      * now left.
      * left. now left.
      * simpl. lia.
      * intros col [<-|[]]. eexists. split; reflexivity.
Defined.

(** *** A name left without a column, ahead of every column with rows *)

Lemma final_absent_prefix (eng : Table) :
  forall pre f,
    (forall c, In c pre -> get eng c = None) ->
    index_len f = 0%nat ->
    index_len (fold_left (final_assign eng) pre f) = 0%nat.
Proof.
  induction pre as [|col rest IH]; intros f Hpre Hf; simpl; [exact Hf|].
  apply IH.
  - intros c Hc. apply Hpre. now right.
  - unfold final_assign. rewrite (Hpre col) by now left. exact Hf.
Qed.

Lemma final_reindexes (n : nat) (base : list string) (eng : Table) (name : string) :
  shaped n base eng -> (0 < n)%nat ->
  forall post f,
    index_len f = 0%nat ->
    get f name <> None ->
    ~ In name post ->
    (exists c, In c post /\ get eng c <> None) ->
    get (fold_left (final_assign eng) post f) name = Some (repeat None n).
Proof.
  intros Hs Hn. induction post as [|col rest IH]; intros f Hf Hg Hnp (c & Hc & Hgc);
    [destruct Hc|].
  simpl.
  assert (Hne : name <> col) by (intros ->; apply Hnp; now left).
  assert (Hnr : ~ In name rest) by (intros Hin; apply Hnp; now right).
  destruct (get eng col) as [v|] eqn:G.
  - assert (Hv : List.length v = n) by exact (EngineeredShape.shaped_get _ _ _ _ _ Hs G).
    assert (Hstep : get (final_assign eng f col) name = Some (repeat None n) /\
                    index_len (final_assign eng f col) = n).
    { unfold final_assign. rewrite G, Hf, Hv.
      assert (Nat.ltb 0 n = true) as -> by (apply Nat.ltb_lt; exact Hn).
      cbn [Nat.eqb andb]. split; [|reflexivity].
      rewrite FeaturesSpec.get_set_other by exact Hne.
      unfold get in *. cbn [cols].
      pose proof (FeaturesSpec.lookup_map_values
                    (fun _ : list cell => repeat (@None R) n) name (cols f)) as Hmap.
      cbv beta in Hmap. refine (eq_trans Hmap _).
      destruct (lookup name (cols f)); [reflexivity|congruence]. }
    destruct Hstep as [Hstep Hidx].
    destruct (final_keeps_other eng name rest (final_assign eng f col)) as [Hk _];
      [lia|exact Hnr|].
    now rewrite Hk.
  - apply IH.
    + unfold final_assign. rewrite G. exact Hf.
    + unfold final_assign, set_scalar. rewrite G.
      now rewrite FeaturesSpec.get_set_other.
    + exact Hnr.
    + exists c. split; [|exact Hgc].
      destruct Hc as [->|Hc]; [congruence|exact Hc].
Qed.

(** X23.  The order of the trained names decides what a name without a
    column holds.  On a table with rows, one cell per row in every base
    column, let a ratio or interaction name for which no split gives two
    base columns come before every trained name that has a column (the
    names before it are of its kind), and let a later trained name be a base
    column or a name that the loop does not leave without a column.  Then
    [recreate_trained_features] returns a table in which the column of that
    name holds NaN on every row, not 0: the scalar 0.0 is assigned while the
    final frame has no row, and the first column with rows gives the frame
    its index. *)
Theorem left_out_before_rows_is_nan
    (df : DataFrame cell) (trained_feature_columns base_columns : list string)
    (pre post : list string) (name later : string) :
  (forall col, In col base_columns ->
     exists s, lookup col (df_columns df) = Some s /\
               List.length (s_values s) = df_len df) ->
  NoDup base_columns ->
  (0 < df_len df)%nat ->
  trained_feature_columns = (pre ++ name :: post)%list ->
  NoDup trained_feature_columns ->
  (forall c, In c (pre ++ [name])%list ->
             ~ In c base_columns /\ left_out base_columns c = true) ->
  In later post ->
  In later base_columns \/ left_out base_columns later = false ->
  exists t,
    recreate_trained_features df trained_feature_columns base_columns = Ok t /\
    labels t = trained_feature_columns /\
    get t name = Some (repeat None (df_len df)).
Proof.
  intros Hwf Hnd Hrows Htr Hndt Hkind Hlater Hhas.
  destruct (FeaturesSpec.select_spec df base_columns Hwf) as (picked & Hsel & Hlab & Hlen).
  assert (Hall : forallb (fun c => mem c (columns df)) base_columns = true).
  { apply forallb_forall. intros col Hc. destruct (Hwf col Hc) as (s & Hs & _).
    exact (FeaturesSpec.lookup_mem_columns _ _ _ Hs). }
  unfold recreate_trained_features.
  rewrite Hall, Hsel, (has_duplicates_NoDup _ Hnd). cbn [negb]. cbv zeta.
  set (expected := filter (fun col => negb (mem col base_columns))
                     trained_feature_columns).
  set (e0 := mkTable (df_len df) picked).
  set (eng := clean (fold_left (recreate_feature base_columns) expected e0)).
  assert (Hexp : forall c, In c trained_feature_columns ->
                           ~ In c base_columns -> In c expected).
  { intros c Hin Hnb. apply filter_In. split; [exact Hin|].
    destruct (mem c base_columns) eqn:Em; [|reflexivity].
    apply mem_true_iff in Em. contradiction. }
  assert (H0 : shaped (df_len df) base_columns e0).
  { unfold shaped, labels. cbn [e0 index_len cols]. rewrite Hlab.
    repeat split; try assumption. exists []. now rewrite app_nil_r. }
  assert (Heng : shaped (df_len df) base_columns eng).
  { apply EngineeredShape.shaped_clean. now apply shaped_loop. }
  assert (Habsent : forall c, In c (pre ++ [name])%list -> get eng c = None).
  { intros c Hc. destruct (Hkind c Hc) as [Hnb Hl].
    unfold eng. rewrite FeaturesSpec.get_clean, loop_leaves_out; [reflexivity|exact Hl|].
    apply lookup_labels. cbn [e0 cols]. now rewrite Hlab. }
  assert (Hpresent : get eng later <> None).
  { unfold eng. rewrite FeaturesSpec.get_clean.
    assert (Hloop : get (fold_left (recreate_feature base_columns) expected e0)
                      later <> None).
    { destruct (in_dec string_dec later base_columns) as [Hb|Hnb].
      - apply loop_keeps_present. intros Hnone.
        apply lookup_labels in Hnone. apply Hnone. cbn [e0 cols]. now rewrite Hlab.
      - destruct Hhas as [Hb|Hleft]; [contradiction|].
        apply loop_assigns; [exact Hleft|]. apply Hexp; [|exact Hnb].
        rewrite Htr. apply in_or_app. right. now right. }
    destruct (get _ later); [discriminate|congruence]. }
  eexists. split; [reflexivity|]. split.
  - apply (FeaturesSpec.final_labels _ trained_feature_columns (mkTable 0 [])).
    exact Hndt.
  - rewrite Htr, fold_left_app. cbn [fold_left].
    set (f1 := fold_left (final_assign eng) pre (mkTable 0 [])).
    assert (Hf1 : index_len f1 = 0%nat).
    { apply final_absent_prefix; [|reflexivity].
      intros c Hc. apply Habsent. apply in_or_app. now left. }
    assert (Hname : get eng name = None).
    { apply Habsent. apply in_or_app. right. now left. }
    apply (final_reindexes (df_len df) base_columns eng name Heng Hrows).
    + unfold final_assign. rewrite Hname. exact Hf1.
    + unfold final_assign, set_scalar. rewrite Hname, FeaturesSpec.get_set_same.
      discriminate.
    + rewrite Htr in Hndt. apply NoDup_remove_2 in Hndt.
      intros Hp. apply Hndt. apply in_or_app. now right.
    + exists later. split; [exact Hlater|exact Hpresent].
Qed.

(** X23 on a table of one row: the trained names begin with a ratio whose
    second operand is not a base column. *)
Lemma left_out_before_rows_is_nan_witness :
  exists t,
    recreate_trained_features (mkFrame 1 [("a", mkSeries float64 [Some 1%R])])
      ["a_b_ratio"; "a"] ["a"] = Ok t /\
    labels t = ["a_b_ratio"; "a"] /\
    get t "a_b_ratio" = Some [None].
Proof.
  apply (left_out_before_rows_is_nan
           (mkFrame 1 [("a", mkSeries float64 [Some 1%R])])
           ["a_b_ratio"; "a"] ["a"] [] ["a"] "a_b_ratio" "a").
  - intros col [<-|[]]. eexists. split; reflexivity.
  - repeat constructor; simpl; tauto.
  - simpl. lia.
  - reflexivity.
  - repeat constructor; simpl; intuition discriminate.
  - intros c [<-|[]]. split; [simpl; intuition discriminate|reflexivity].
  - now left.
  - left. now left.
Defined.

End ReconstructorOutcome.

(** ** The training alignment under numpy's quicksort *)

Module NumpySortSpec.

Import PyStr PyStrFacts Alignment.

Local Open Scope string_scope.

(** With the sort that [train_model] runs, the training path is
    [Alignment.train_filtered] at any function that sorts as it does. *)
Lemma train_filtered_at {Row : Type} (endpoint : Row -> string)
    (sort_values : list Row -> list Row) (common_endpoints : list string)
    (t : list Row) :
  NumpySort.sort_values endpoint (isin endpoint common_endpoints t)
  = Some (sort_values (isin endpoint common_endpoints t)) ->
  NumpySort.train_filtered endpoint common_endpoints t
  = Some (Alignment.train_filtered endpoint sort_values common_endpoints t).
Proof.
  unfold NumpySort.train_filtered, NumpySort.train_filtered_with, NumpySort.sort_values,
    Alignment.train_filtered.
  intros ->. reflexivity.
Qed.

(** Ranges of at most [SMALL_QUICKSORT + 1] rows are sorted by insertion
    alone: on the table of two rows of one normalized endpoint the first
    row is kept. *)
Lemma train_filtered_two_rows :
  NumpySort.train_filtered fst ["a/b"] [("top/a/b", 1%nat); ("a/b", 2%nat)]
  = Some [("top/a/b", 1%nat)].
Proof. vm_compute. reflexivity. Qed.

(** C8.  The prediction path keeps, for every common normalized endpoint,
    the first row in source row order, on every table.  The training path
    does not: on [NumpySort.place_rows], a place table of 18 rows whose
    rows 1 and 8 have the normalized endpoint "u1/r01" and whose 17
    normalized endpoints are all common to the three tables, the filter
    keeps every row, the prediction path keeps row 1 for "u1/r01", and the
    sort of the training path brings row 8 before row 1 (the first
    partition takes row 8 as its pivot and exchanges it with the row at
    position 1), so that [drop_duplicates(keep='first')] keeps row 8.  The
    rows kept are the same for every cut-off of the quicksort from 1 to
    16. *)
Theorem C8_training_keeps_later_row :
  (forall (common_endpoints : list string) (t : list (string * Z)) (k : string),
     mem k common_endpoints = true ->
     first_row fst k (predict_filtered fst common_endpoints t) = first_row fst k t) /\
  isin fst (common3 fst NumpySort.place_rows NumpySort.cts_rows NumpySort.route_rows)
    NumpySort.place_rows = NumpySort.place_rows /\
  first_row fst "u1/r01" NumpySort.place_rows = Some ("top/u1/r01", 101%Z) /\
  nth_error NumpySort.place_rows 1 = Some ("top/u1/r01", 101%Z) /\
  nth_error NumpySort.place_rows 8 = Some ("dbg/u1/r01", 108%Z) /\
  first_row fst "u1/r01"
    (predict_filtered fst (common2 fst NumpySort.place_rows NumpySort.cts_rows)
       NumpySort.place_rows)
  = Some ("top/u1/r01", 101%Z) /\
  NumpySort.argsort NumpySort.SMALL_QUICKSORT (keys fst NumpySort.place_rows)
  = Some [0; 8; 1; 2; 3; 4; 5; 6; 7; 9; 10; 11; 12; 13; 14; 15; 16; 17]%nat /\
  (exists kept,
     NumpySort.train_filtered fst
       (common3 fst NumpySort.place_rows NumpySort.cts_rows NumpySort.route_rows)
       NumpySort.place_rows = Some kept /\
     List.length kept = 17%nat /\
     first_row fst "u1/r01" kept = Some ("dbg/u1/r01", 108%Z) /\
     first_row fst "u1/r01" kept <> first_row fst "u1/r01" NumpySort.place_rows) /\
  Forall
    (fun small =>
       NumpySort.train_filtered_with fst small
         (common3 fst NumpySort.place_rows NumpySort.cts_rows NumpySort.route_rows)
         NumpySort.place_rows
       = NumpySort.train_filtered fst
           (common3 fst NumpySort.place_rows NumpySort.cts_rows NumpySort.route_rows)
           NumpySort.place_rows)
    (seq 1 16).
Proof.
  split.
  { intros common_endpoints t k Hc. unfold predict_filtered.
    now rewrite AlignmentSpec.first_row_drop_duplicates, AlignmentSpec.first_row_isin, Hc. }
  split; [vm_compute; reflexivity|].
  split; [vm_compute; reflexivity|].
  split; [reflexivity|].
  split; [reflexivity|].
  split; [vm_compute; reflexivity|].
  split; [vm_compute; reflexivity|].
  split.
  - eexists. split; [vm_compute; reflexivity|].
    split; [reflexivity|]. split; [vm_compute; reflexivity|].
    vm_compute. discriminate.
  - repeat constructor; vm_compute; reflexivity.
Qed.

End NumpySortSpec.
